(** * TfStage: the base class of the TensorFlow Lite post-processing stages

    A shallow embedding of [post_processing_stages/tf_stage.cpp] and the
    properties of it that the design document states.

    - [CInt]: the C++ [int], [unsigned int] and [size_t] arithmetic the stage uses.
    - [Colour]: [TfStage::yuvToRgb], the YUV420 crop and conversion.
    - [Layout]: the planes of a YUV420 frame and the window of it that
      [yuvToRgb] returns.
    - [Stage]: the object, [Read], [initialise] and [Configure].
    - [Sched]: [Process], [runInference] and [Stop] as an interleaving
      semantics over frame threads and asynchronous inference tasks.
    - [Progress]: who holds the mutexes, the work that is left, and what
      an execution has published and written. *)

From Stdlib Require Import ZArith Lia String.
From Stdlib Require Import PrimFloat FloatOps SpecFloat Uint63.
From stdpp Require Import base list.

Local Open Scope Z_scope.

(** ** C++ integer arithmetic *)

Module CInt.

Definition INT_MIN : Z := - 2 ^ 31.
Definition INT_MAX : Z := 2 ^ 31 - 1.

Definition in_int (z : Z) : Prop := INT_MIN <= z <= INT_MAX.

(** Two's-complement reduction to 32 bits.  Signed overflow is undefined in
    C++; the model gives it the value the target hardware computes, and the
    theorems that depend on a product say when it fits. *)
Definition wrap (z : Z) : Z := (z + 2 ^ 31) mod 2 ^ 32 - 2 ^ 31.

Definition add (a b : Z) : Z := wrap (a + b).
Definition sub (a b : Z) : Z := wrap (a - b).
Definition mul (a b : Z) : Z := wrap (a * b).
(** [a / b] truncates toward zero. *)
Definition div (a b : Z) : Z := wrap (Z.quot a b).
(** [a & b] and [~a]; on two's-complement [int] these are [Z]'s. *)
Definition band (a b : Z) : Z := Z.land a b.
Definition bnot (a : Z) : Z := Z.lnot a.

(** Conversion of an [int] to [unsigned int]. *)
Definition to_unsigned (z : Z) : Z := z mod 2 ^ 32.

(** Conversion to [size_t], and [size_t] multiplication, on a target whose
    [size_t] has [bits] bits. *)
Definition to_size_t (bits : Z) (z : Z) : Z := z mod 2 ^ bits.
Definition size_mul (bits : Z) (a b : Z) : Z := (a * b) mod 2 ^ bits.

End CInt.

(** [for (int i = 0; i < n; i++) body], on the state [s] the body updates. *)
Definition for_range {S : Type} (n : Z) (body : Z -> S -> S) (s : S) : S :=
  fold_left (fun s i => body (Z.of_nat i) s) (seq 0 (Z.to_nat n)) s.

(** ** Colour conversion *)

Module Colour.

(** [std::clamp(v, lo, hi)]: [(v < lo) ? lo : (hi < v) ? hi : v]. *)
Definition clamp (v lo hi : Z) : Z :=
  if v <? lo then lo else if hi <? v then hi else v.

(** [int] to [double]; exact, every [int] is a binary64 value. *)
Definition double_of_int (z : Z) : float :=
  if z <? 0 then PrimFloat.opp (PrimFloat.of_uint63 (Uint63.of_Z (- z)))
  else PrimFloat.of_uint63 (Uint63.of_Z z).

(** [double] to [int]: the fractional part is discarded.  (Undefined in C++
    when the truncated value is no [int], which a sum of a byte and a
    multiple of a byte difference never is; the model wraps it.) *)
Definition int_of_double (f : float) : Z :=
  match Prim2SF f with
  | S754_finite s m e =>
      let v := if 0 <=? e then Z.pos m * 2 ^ e else Z.pos m / 2 ^ (- e) in
      CInt.wrap (if s then - v else v)
  | _ => 0
  end.

(** [std::clamp<int>(d, 0, 255)]: the explicit template argument makes the
    parameter [const int &], so the [double] is converted before it is
    compared. *)
Definition clamp_int (d : float) : Z := clamp (int_of_double d) 0 255.

(** Lines 147-149.  [Y], [U], [V] are [int]; [V - 128] is an [int]
    subtraction, the rest is [double] arithmetic, each operation rounded on
    its own.  The constants are the binary64 values of 1.402, 0.345, 0.714
    and 1.771. *)
Definition red (Y V : Z) : Z :=
  clamp_int (double_of_int Y + 0x1.66e978d4fdf3bp+0 * double_of_int (CInt.sub V 128))%float.

Definition green (Y U V : Z) : Z :=
  clamp_int (double_of_int Y
             - 0x1.6147ae147ae14p-2 * double_of_int (CInt.sub U 128)
             - 0x1.6d916872b020cp-1 * double_of_int (CInt.sub V 128))%float.

Definition blue (Y U : Z) : Z :=
  clamp_int (double_of_int Y + 0x1.c5604189374bcp+0 * double_of_int (CInt.sub U 128))%float.

(** The frame is the byte array [src] points into; a pointer is an index
    into it.  A read outside the array is undefined in C++; here it
    yields 0. *)
Definition load (src : list Z) (p : Z) : Z :=
  if p <? 0 then 0 else default 0 (src !! Z.to_nat p).

(** [*p = v] on a [std::vector<uint8_t>]: the [int] is narrowed to a byte.
    A write outside the vector is undefined in C++; here it does nothing. *)
Definition store (out : list Z) (p : Z) (v : Z) : list Z :=
  if p <? 0 then out else <[Z.to_nat p := v mod 256]> out.

(** The geometry [yuvToRgb] reads from the object. *)
Record Geometry := {
  tf_w : Z;
  tf_h : Z;
  lores_w : Z;
  lores_h : Z;
  lores_stride : Z
}.

(** The pointers of the inner loop and the output vector. *)
Record cursor := {
  src_Y : Z;
  src_U : Z;
  src_V : Z;
  dst : Z;
  output : list Z
}.

(** Line 131. *)
Definition off_x (g : Geometry) : Z :=
  CInt.band (CInt.div (CInt.sub (lores_w g) (tf_w g)) 2) (CInt.bnot 1).
Definition off_y (g : Geometry) : Z :=
  CInt.band (CInt.div (CInt.sub (lores_h g) (tf_h g)) 2) (CInt.bnot 1).

(** Line 132. *)
Definition src_size (g : Geometry) : Z := CInt.mul (lores_h g) (lores_stride g).
Definition src_U_size (g : Geometry) : Z :=
  CInt.mul (CInt.div (lores_h g) 2) (CInt.div (lores_stride g) 2).

(** Lines 141-153: one pixel. *)
Definition pixel (src : list Z) (x : Z) (c : cursor) : cursor :=
  let Y := load src (src_Y c) in
  let U := load src (src_U c) in
  let V := load src (src_V c) in
  let R := red Y V in
  let G := green Y U V in
  let B := blue Y U in
  {| src_Y := src_Y c + 1;
     src_U := src_U c + CInt.band x 1;
     src_V := src_V c + CInt.band x 1;
     dst := dst c + 3;
     output := store (store (store (output c) (dst c) R) (dst c + 1) G) (dst c + 2) B |}.

(** Lines 136-154: one row.  The state carried from row to row is [dst]
    and the vector. *)
Definition row (g : Geometry) (src : list Z) (y : Z) (d : Z * list Z) : Z * list Z :=
  let line := CInt.add y (off_y g) in
  let p_Y := CInt.mul line (lores_stride g) + off_x g in
  let p_U := src_size g
             + CInt.mul (CInt.div line 2) (CInt.div (lores_stride g) 2)
             + CInt.div (off_x g) 2 in
  let p_V := p_U + src_U_size g in
  let c := for_range (tf_w g) (pixel src)
             {| src_Y := p_Y; src_U := p_U; src_V := p_V; dst := fst d; output := snd d |} in
  (dst c, output c).

(** Line 128: [std::vector<uint8_t> output(tf_h_ * tf_w_ * 3)], zero-filled;
    the [int] product is converted to [size_t] ([bits] wide). *)
Definition output_size (bits : Z) (g : Geometry) : Z :=
  CInt.to_size_t bits (CInt.mul (CInt.mul (tf_h g) (tf_w g)) 3).

Definition yuvToRgb (bits : Z) (g : Geometry) (src : list Z) : list Z :=
  let output := replicate (Z.to_nat (output_size bits g)) 0 in
  snd (for_range (tf_h g) (row g src) (0, output)).

(** The values of a [uint8_t]. *)
Definition is_byte (b : Z) : Prop := 0 <= b <= 255.

(** The crop [yuvToRgb] takes is inside the low resolution image, the
    dimensions are [int]s and the size of the output is computed without
    overflow.  The constructor makes the model dimensions positive;
    [Configure] disables the stage when the image is too small. *)
Definition crop_ok (g : Geometry) : Prop :=
  0 < tf_w g <= lores_w g /\ 0 < tf_h g <= lores_h g /\
  lores_w g <= CInt.INT_MAX /\ lores_h g <= CInt.INT_MAX /\
  tf_h g * tf_w g * 3 <= CInt.INT_MAX.

(** The bytes of a YUV420 frame: the luma plane, then two chroma planes of
    half the height and half the stride. *)
Definition frame_bytes (g : Geometry) : Z :=
  lores_h g * lores_stride g + 2 * ((lores_h g / 2) * (lores_stride g / 2)).

(** A frame in that layout: rows are at least as long as the image is wide,
    height and stride are even, and the luma plane is no larger than an
    [int] can count. *)
Definition frame_ok (g : Geometry) : Prop :=
  lores_w g <= lores_stride g /\
  Z.even (lores_h g) = true /\ Z.even (lores_stride g) = true /\
  lores_h g * lores_stride g <= CInt.INT_MAX.

End Colour.

(** ** The window of the frame that reaches the model *)

Module Layout.
Import Colour.

(** A YUV420 frame of the geometry [g]: the luma byte of the pixel in
    column [x] of line [y], and the two chroma bytes it shares with the
    other pixels of its 2 x 2 block. *)
Definition luma (g : Geometry) (src : list Z) (x y : Z) : Z :=
  load src (y * lores_stride g + x).
Definition chroma_U (g : Geometry) (src : list Z) (x y : Z) : Z :=
  load src (lores_h g * lores_stride g + (y / 2) * (lores_stride g / 2) + x / 2).
Definition chroma_V (g : Geometry) (src : list Z) (x y : Z) : Z :=
  load src (lores_h g * lores_stride g + (lores_h g / 2) * (lores_stride g / 2)
            + (y / 2) * (lores_stride g / 2) + x / 2).

(** The three bytes lines 147-149 make of the pixel in column [x] of line
    [y] of the frame, and the three bytes of its luma alone. *)
Definition rgb (g : Geometry) (src : list Z) (x y : Z) : list Z :=
  let Y := luma g src x y in
  let U := chroma_U g src x y in
  let V := chroma_V g src x y in
  [red Y V; green Y U V; blue Y U].
Definition grey (g : Geometry) (src : list Z) (x y : Z) : list Z :=
  let Y := luma g src x y in [Y; Y; Y].

(** The window of [tf_w] x [tf_h] pixels at the crop offsets, row by row:
    what [f] makes of the first [n] pixels of its row [y], and of all its
    pixels. *)
Definition raster_row (f : Z -> Z -> list Z) (g : Geometry) (y : Z) (n : nat) : list Z :=
  flat_map (fun x => f (off_x g + Z.of_nat x) (off_y g + y)) (seq 0 n).
Definition raster (f : Z -> Z -> list Z) (g : Geometry) : list Z :=
  flat_map (fun y => raster_row f g (Z.of_nat y) (Z.to_nat (tf_w g)))
    (seq 0 (Z.to_nat (tf_h g))).

Definition window (g : Geometry) (src : list Z) : list Z := raster (rgb g src) g.


(** The conversion formulas as the design document has them, in binary64:
    the number each channel is before it is cut to a byte, and that number
    cut to the range 0..255, the fraction dropped. *)
Definition red_value (Y V : Z) : float :=
  (double_of_int Y + 1.402 * double_of_int (V - 128))%float.
Definition green_value (Y U V : Z) : float :=
  (double_of_int Y - 0.345 * double_of_int (U - 128) - 0.714 * double_of_int (V - 128))%float.
Definition blue_value (Y U : Z) : float :=
  (double_of_int Y + 1.771 * double_of_int (U - 128))%float.

Definition saturate (d : float) : Z := Z.max 0 (Z.min 255 (int_of_double d)).

Definition saturated (g : Geometry) (src : list Z) (x y : Z) : list Z :=
  let Y := luma g src x y in
  let U := chroma_U g src x y in
  let V := chroma_V g src x y in
  [saturate (red_value Y V); saturate (green_value Y U V); saturate (blue_value Y U)].

End Layout.

(** ** The stage object and its configuration *)

Module Stage.

(** [std::runtime_error]: a function that can throw returns a [result]. *)
Inductive result (A : Type) : Type :=
| Ok (a : A)
| Throw (what : string).
Arguments Ok {A} a.
Arguments Throw {A} what.

Definition bind {A B : Type} (r : result A) (k : A -> result B) : result B :=
  match r with
  | Ok a => k a
  | Throw what => Throw what
  end.

Notation "'try!' x <- r ; k" := (bind r (fun x => k))
  (at level 10, x name, r at level 100, k at level 200).

(** [TfLiteType] and [TfLiteStatus], as TensorFlow Lite's C API declares them. *)
Inductive TfLiteType :=
| kTfLiteNoType | kTfLiteFloat32 | kTfLiteInt32 | kTfLiteUInt8 | kTfLiteInt64
| kTfLiteString | kTfLiteBool | kTfLiteInt16 | kTfLiteComplex64 | kTfLiteInt8
| kTfLiteFloat16 | kTfLiteFloat64.

Inductive TfLiteStatus :=
| kTfLiteOk | kTfLiteError | kTfLiteDelegateError | kTfLiteApplicationError.

Definition status_ok (s : TfLiteStatus) : bool :=
  match s with kTfLiteOk => true | _ => false end.

(** An element of a typed tensor: a byte, or a binary32 [float]. *)
Inductive cell :=
| U8 (b : Z)
| F32 (f : spec_float).

(** What the stage reads and writes of a [tflite::Interpreter]: its thread
    count, its first input tensor and its output tensors. *)
Record Interpreter := {
  num_threads : option Z;
  input_type : TfLiteType;
  input_bytes : Z;
  input_data : list cell;
  output_data : list (list cell)
}.

Definition SetNumThreads (n : Z) (i : Interpreter) : Interpreter :=
  {| num_threads := Some n;
     input_type := input_type i;
     input_bytes := input_bytes i;
     input_data := input_data i;
     output_data := output_data i |}.

Definition set_input_data (d : list cell) (i : Interpreter) : Interpreter :=
  {| num_threads := num_threads i;
     input_type := input_type i;
     input_bytes := input_bytes i;
     input_data := d;
     output_data := output_data i |}.

(** The inference engine: TensorFlow Lite, an external library. *)
Class Backend (Model : Type) := {
  BuildFromFile : string -> option Model;
  InterpreterBuilder : Model -> option Interpreter;
  AllocateTensors : Interpreter -> TfLiteStatus * Interpreter;
  Invoke : Interpreter -> TfLiteStatus * Interpreter
}.

(** [TfConfig]. *)
Record TfConfig := {
  number_of_threads : Z;
  refresh_rate : Z;
  model_file : string;
  verbose : Z;
  normalisation_offset : spec_float;
  normalisation_scale : spec_float
}.

(** A [boost::property_tree::ptree] of options: the children of the root,
    each with its key and the text it holds. *)
Definition ptree := list (string * string).

Fixpoint get_child (name : string) (params : ptree) : option string :=
  match params with
  | [] => None
  | (k, v) :: rest => if String.eqb k name then Some v else get_child name rest
  end.

(** The stream translator of [boost::property_tree], an external library:
    the integer a text reads as, whatever its size, and the [float] it
    reads as, if it reads as one. *)
Class Translator := {
  read_integer : string -> option Z;
  read_float : string -> option spec_float
}.

(** [params.get<T>(name, default)]: the default when the key is absent or
    its text does not convert to a [T]; an integer that is no [int] does
    not convert to one.  [get<std::string>] takes the text as it is. *)
Definition get_int {translator : Translator} (params : ptree) (name : string) (dflt : Z) : Z :=
  match get_child name params with
  | Some text =>
      match read_integer text with
      | Some z => if (CInt.INT_MIN <=? z) && (z <=? CInt.INT_MAX) then z else dflt
      | None => dflt
      end
  | None => dflt
  end.
Definition get_float {translator : Translator} (params : ptree) (name : string)
    (dflt : spec_float) : spec_float :=
  match get_child name params with
  | Some text =>
      match read_float text with
      | Some f => f
      | None => dflt
      end
  | None => dflt
  end.
Definition get_string (params : ptree) (name : string) (dflt : string) : string :=
  match get_child name params with
  | Some text => text
  | None => dflt
  end.

(** binary32 arithmetic. *)
Definition float_of_int (z : Z) : spec_float := binary_normalize 24 128 z 0 false.
Definition float_sub : spec_float -> spec_float -> spec_float := SFsub 24 128.
Definition float_div : spec_float -> spec_float -> spec_float := SFdiv 24 128.

(** 127.5 *)
Definition default_normalisation : spec_float := binary_normalize 24 128 255 (-1) false.

(** A [libcamera::Stream *] that is not null. *)
Definition Stream := nat.

(** What the stage asks of the application. *)
Record App := {
  LoresStream : option Stream;
  GetMainStream : option Stream;
  StreamDimensions : Stream -> Z * Z * Z
}.

(** What the stage writes to [std::cout]. *)
Inductive message :=
| LoadedModel (file : string)
| LoresStreamIs (w h : Z)
| WarningLoresTooSmall
| NoLoresStream
| MainStreamIs (w h : Z)
| NoMainStream
| InferenceTime.

(** The members of [TfStage].  [future_] is null or owns the future of the
    asynchronous task with the given number; the two mutexes are part of
    the scheduler state below.  The class is declared in [tf_stage.hpp];
    the dimensions are [int]s here, as the constructor's parameters are. *)
Record TfStage := {
  tf_w_ : Z;
  tf_h_ : Z;
  config_ : TfConfig;
  interpreter_ : option Interpreter;
  lores_stream_ : option Stream;
  lores_w_ : Z;
  lores_h_ : Z;
  lores_stride_ : Z;
  main_stream_ : option Stream;
  main_w_ : Z;
  main_h_ : Z;
  main_stride_ : Z;
  future_ : option nat;
  tensor_input_ : list Z
}.

Definition set_config_ (c : TfConfig) (s : TfStage) : TfStage :=
  {| tf_w_ := tf_w_ s; tf_h_ := tf_h_ s; config_ := c;
     interpreter_ := interpreter_ s;
     lores_stream_ := lores_stream_ s; lores_w_ := lores_w_ s;
     lores_h_ := lores_h_ s; lores_stride_ := lores_stride_ s;
     main_stream_ := main_stream_ s; main_w_ := main_w_ s;
     main_h_ := main_h_ s; main_stride_ := main_stride_ s;
     future_ := future_ s; tensor_input_ := tensor_input_ s |}.

Definition set_interpreter_ (i : option Interpreter) (s : TfStage) : TfStage :=
  {| tf_w_ := tf_w_ s; tf_h_ := tf_h_ s; config_ := config_ s;
     interpreter_ := i;
     lores_stream_ := lores_stream_ s; lores_w_ := lores_w_ s;
     lores_h_ := lores_h_ s; lores_stride_ := lores_stride_ s;
     main_stream_ := main_stream_ s; main_w_ := main_w_ s;
     main_h_ := main_h_ s; main_stride_ := main_stride_ s;
     future_ := future_ s; tensor_input_ := tensor_input_ s |}.

Definition set_lores (p : option Stream) (w h stride : Z) (s : TfStage) : TfStage :=
  {| tf_w_ := tf_w_ s; tf_h_ := tf_h_ s; config_ := config_ s;
     interpreter_ := interpreter_ s;
     lores_stream_ := p; lores_w_ := w; lores_h_ := h; lores_stride_ := stride;
     main_stream_ := main_stream_ s; main_w_ := main_w_ s;
     main_h_ := main_h_ s; main_stride_ := main_stride_ s;
     future_ := future_ s; tensor_input_ := tensor_input_ s |}.

Definition set_main (p : option Stream) (w h stride : Z) (s : TfStage) : TfStage :=
  {| tf_w_ := tf_w_ s; tf_h_ := tf_h_ s; config_ := config_ s;
     interpreter_ := interpreter_ s;
     lores_stream_ := lores_stream_ s; lores_w_ := lores_w_ s;
     lores_h_ := lores_h_ s; lores_stride_ := lores_stride_ s;
     main_stream_ := p; main_w_ := w; main_h_ := h; main_stride_ := stride;
     future_ := future_ s; tensor_input_ := tensor_input_ s |}.

Definition set_future_ (f : option nat) (s : TfStage) : TfStage :=
  {| tf_w_ := tf_w_ s; tf_h_ := tf_h_ s; config_ := config_ s;
     interpreter_ := interpreter_ s;
     lores_stream_ := lores_stream_ s; lores_w_ := lores_w_ s;
     lores_h_ := lores_h_ s; lores_stride_ := lores_stride_ s;
     main_stream_ := main_stream_ s; main_w_ := main_w_ s;
     main_h_ := main_h_ s; main_stride_ := main_stride_ s;
     future_ := f; tensor_input_ := tensor_input_ s |}.

Definition set_tensor_input_ (t : list Z) (s : TfStage) : TfStage :=
  {| tf_w_ := tf_w_ s; tf_h_ := tf_h_ s; config_ := config_ s;
     interpreter_ := interpreter_ s;
     lores_stream_ := lores_stream_ s; lores_w_ := lores_w_ s;
     lores_h_ := lores_h_ s; lores_stride_ := lores_stride_ s;
     main_stream_ := main_stream_ s; main_w_ := main_w_ s;
     main_h_ := main_h_ s; main_stride_ := main_stride_ s;
     future_ := future_ s; tensor_input_ := t |}.

(** The geometry [yuvToRgb] works on. *)
Definition geometry (s : TfStage) : Colour.Geometry :=
  {| Colour.tf_w := tf_w_ s; Colour.tf_h := tf_h_ s;
     Colour.lores_w := lores_w_ s; Colour.lores_h := lores_h_ s;
     Colour.lores_stride := lores_stride_ s |}.

Definition empty_config : TfConfig :=
  {| number_of_threads := 0; refresh_rate := 0; model_file := "";
     verbose := 0;
     normalisation_offset := S754_zero false;
     normalisation_scale := S754_zero false |}.

(** Lines 10-14: the constructor. *)
Definition TfStage_new (tf_w tf_h : Z) : result TfStage :=
  if (tf_w <=? 0) || (tf_h <=? 0)
  then Throw "TfStage: Bad TFLite input dimensions"
  else Ok {| tf_w_ := tf_w; tf_h_ := tf_h; config_ := empty_config;
             interpreter_ := None;
             lores_stream_ := None; lores_w_ := 0; lores_h_ := 0; lores_stride_ := 0;
             main_stream_ := None; main_w_ := 0; main_h_ := 0; main_stride_ := 0;
             future_ := None; tensor_input_ := [] |}.

(** [sizeof(uint8_t)] and [sizeof(float)]. *)
Definition sizeof_uint8_t : Z := 1.
Definition sizeof_float : Z := 4.

(** The element types [initialise] accepts, with their sizes. *)
Definition element_size (t : TfLiteType) : option Z :=
  match t with
  | kTfLiteUInt8 => Some sizeof_uint8_t
  | kTfLiteFloat32 => Some sizeof_float
  | _ => None
  end.

(** The byte count [initialise] compares is computed without overflow, in
    [int] (line 51) and in a [size_t] of [bits] bits (lines 53 and 55).
    The constructor makes both dimensions positive. *)
Definition input_size_fits (bits : Z) (s : TfStage) : Prop :=
  0 < tf_w_ s /\ 0 < tf_h_ s /\
  tf_w_ s * tf_h_ s * 3 <= CInt.INT_MAX /\
  tf_w_ s * tf_h_ s * 3 * sizeof_float < 2 ^ bits.

Section WithBackend.
Context {Model : Type} {backend : Backend Model} {translator : Translator}.
(** The width of [size_t] on the target. *)
Variable size_t_bits : Z.

(** Lines 30-62.  What was written to [std::cout] before an exception is
    returned with it. *)
Definition initialise (s : TfStage) : result TfStage * list message :=
  match BuildFromFile (model_file (config_ s)) with
  | None => (Throw "TfStage: Failed to load model", [])
  | Some model =>
    let out := [LoadedModel (model_file (config_ s))] in
    match InterpreterBuilder model with
    | None => (Throw "TfStage: Failed to construct interpreter", out)
    | Some i =>
      let i := if number_of_threads (config_ s) =? -1 then i
               else SetNumThreads (number_of_threads (config_ s)) i in
      let (status, i) := AllocateTensors i in
      if negb (status_ok status) then (Throw "TfStage: Failed to allocate tensors", out)
      else
        let size := input_bytes i in
        let check := CInt.to_size_t size_t_bits
                       (CInt.mul (CInt.mul (tf_w_ s) (tf_h_ s)) 3) in
        (try! check <- match input_type i with
                       | kTfLiteUInt8 => Ok (CInt.size_mul size_t_bits check sizeof_uint8_t)
                       | kTfLiteFloat32 => Ok (CInt.size_mul size_t_bits check sizeof_float)
                       | _ => Throw "TfStage: Input tensor data type not supported"
                       end ;
         if negb (check =? size) then Throw "TfStage: Input tensor size mismatch"
         else Ok (set_interpreter_ (Some i) s),
         out)
    end
  end.

(** Lines 18-23. *)
Definition read_config (params : ptree) : TfConfig :=
  {| number_of_threads := get_int params "number_of_threads" 2;
     refresh_rate := get_int params "refresh_rate" 5;
     model_file := get_string params "model_file" "";
     verbose := get_int params "verbose" 0;
     normalisation_offset := get_float params "normalisation_offset" default_normalisation;
     normalisation_scale := get_float params "normalisation_scale" default_normalisation |}.

(** Lines 16-28.  [readExtras] is the subclass's; it sees the tree and
    may throw. *)
Definition Read (readExtras : ptree -> result unit) (params : ptree) (s : TfStage)
  : result TfStage * list message :=
  let (r, out) := initialise (set_config_ (read_config params) s) in
  (try! s <- r ; try! u <- readExtras params ; Ok s, out).

End WithBackend.

(** Lines 64-94.  [checkConfiguration] is the subclass's and may throw;
    what was written to [std::cout] before it is returned either way. *)
Definition Configure_streams (app : App) (s : TfStage) : TfStage * list message :=
  let v := negb (verbose (config_ s) =? 0) in
  let (s, out1) :=
    match LoresStream app with
    | Some p =>
        let '(w, h, stride) := StreamDimensions app p in
        let out := if v then [LoresStreamIs w h] else [] in
        if (tf_w_ s >? w) || (tf_h_ s >? h)
        then (set_lores None w h stride s, out ++ [WarningLoresTooSmall])
        else (set_lores (Some p) w h stride s, out)
    | None =>
        (set_lores None 0 0 0 s, if v then [NoLoresStream] else [])
    end in
  let (s, out2) :=
    match GetMainStream app with
    | Some p =>
        let '(w, h, stride) := StreamDimensions app p in
        (set_main (Some p) w h stride s, if v then [MainStreamIs w h] else [])
    | None =>
        (set_main None 0 0 0 s, if v then [NoMainStream] else [])
    end in
  (s, out1 ++ out2).

Definition Configure (checkConfiguration : TfStage -> result unit)
    (app : App) (s : TfStage) : result TfStage * list message :=
  let (s, out) := Configure_streams app s in
  (try! u <- checkConfiguration s ; Ok s, out).

End Stage.

(** ** Frames, inference tasks and their interleavings *)

Module Sched.
Import Stage.

(** A [CompletedRequest]: the frame's sequence number, the mapped bytes of
    the buffer of each stream (keyed by the stream pointer, null included),
    and what the stages attach to the frame. *)
Record CompletedRequest (Meta : Type) := {
  sequence : Z;
  buffers : option Stream -> list Z;
  post_process_metadata : Meta
}.
Arguments sequence {Meta} c.
Arguments buffers {Meta} c p.
Arguments post_process_metadata {Meta} c.

(** The virtual functions a concrete stage supplies.  They work on the
    subclass's own members, [Results]. *)
Class Hooks (Results Meta : Type) := {
  interpretOutputs : TfStage -> Results -> Results;
  applyResults : TfStage -> Results -> CompletedRequest Meta -> Results * CompletedRequest Meta
}.

(** Where a thread that called [Process] is. *)
Inductive frame_pc (Meta : Type) :=
| Outside
| AtEntry (r : CompletedRequest Meta)       (* line 98 *)
| LockFuture (r : CompletedRequest Meta)    (* line 102, before the lock is taken *)
| AtGate (r : CompletedRequest Meta)        (* lines 103-104, future_mutex_ held *)
| Launching (r : CompletedRequest Meta)     (* lines 106-116 *)
| UnlockFuture (r : CompletedRequest Meta)  (* line 118 *)
| LockOutput (r : CompletedRequest Meta)    (* line 120, before the lock is taken *)
| Applying (r : CompletedRequest Meta)      (* line 121, output_mutex_ held *)
| Returning (r : CompletedRequest Meta).    (* line 123 *)
Arguments Outside {Meta}.
Arguments AtEntry {Meta} r.
Arguments LockFuture {Meta} r.
Arguments AtGate {Meta} r.
Arguments Launching {Meta} r.
Arguments UnlockFuture {Meta} r.
Arguments LockOutput {Meta} r.
Arguments Applying {Meta} r.
Arguments Returning {Meta} r.

(** Where an asynchronous task (the lambda of lines 111-116) is.  A task
    that is [Finished] has made its future ready, with the exception it
    threw if [threw]. *)
Inductive task_pc :=
| FillInput       (* lines 162-175 *)
| Invoking        (* lines 177-178 *)
| LockOutputT     (* line 180, before the lock is taken *)
| Interpreting    (* line 181, output_mutex_ held *)
| UnlockOutputT   (* line 182 *)
| Timing          (* lines 114-115 *)
| Finished (threw : bool).

Definition finished (t : task_pc) : bool :=
  match t with Finished _ => true | _ => false end.

(** Where the thread that called [Stop] is. *)
Inductive stop_pc :=
| NotStopping
| Waiting (k : nat)   (* inside future_->wait() *)
| Stopped.

Inductive owner :=
| FrameThread (tid : nat)
| TaskThread (k : nat).

(** What an execution did, in order; kept to state properties, read by
    no step. *)
Inductive obs (Meta : Type) :=
| ObsLaunch (tid : nat) (seq : Z) (k : nat)
| ObsLock (o : owner)
| ObsApply (tid : nat) (seq : Z)
| ObsInterpret (k : nat)
| ObsReturn (tid : nat) (r : CompletedRequest Meta) (ret : bool)
| ObsPrint (m : message)
| ObsStopped.
Arguments ObsLaunch {Meta} tid seq k.
Arguments ObsLock {Meta} o.
Arguments ObsApply {Meta} tid seq.
Arguments ObsInterpret {Meta} k.
Arguments ObsReturn {Meta} tid r ret.
Arguments ObsPrint {Meta} m.
Arguments ObsStopped {Meta}.

Record world (Results Meta : Type) := {
  stage : TfStage;
  results : Results;
  future_mutex_ : option owner;
  output_mutex_ : option owner;
  frames : list (frame_pc Meta);
  tasks : list task_pc;
  stopping : stop_pc;
  trace : list (obs Meta)
}.
Arguments stage {Results Meta} w.
Arguments results {Results Meta} w.
Arguments future_mutex_ {Results Meta} w.
Arguments output_mutex_ {Results Meta} w.
Arguments frames {Results Meta} w.
Arguments tasks {Results Meta} w.
Arguments stopping {Results Meta} w.
Arguments trace {Results Meta} w.

Section World.
Context {Results Meta : Type}.
Local Abbreviation world := (world Results Meta).
Local Abbreviation request := (CompletedRequest Meta).

Definition set_stage (s : TfStage) (w : world) : world :=
  {| stage := s; results := results w;
     future_mutex_ := future_mutex_ w; output_mutex_ := output_mutex_ w;
     frames := frames w; tasks := tasks w; stopping := stopping w; trace := trace w |}.

Definition set_results (r : Results) (w : world) : world :=
  {| stage := stage w; results := r;
     future_mutex_ := future_mutex_ w; output_mutex_ := output_mutex_ w;
     frames := frames w; tasks := tasks w; stopping := stopping w; trace := trace w |}.

Definition set_future_mutex_ (o : option owner) (w : world) : world :=
  {| stage := stage w; results := results w;
     future_mutex_ := o; output_mutex_ := output_mutex_ w;
     frames := frames w; tasks := tasks w; stopping := stopping w; trace := trace w |}.

Definition set_output_mutex_ (o : option owner) (w : world) : world :=
  {| stage := stage w; results := results w;
     future_mutex_ := future_mutex_ w; output_mutex_ := o;
     frames := frames w; tasks := tasks w; stopping := stopping w; trace := trace w |}.

Definition set_frames (f : list (frame_pc Meta)) (w : world) : world :=
  {| stage := stage w; results := results w;
     future_mutex_ := future_mutex_ w; output_mutex_ := output_mutex_ w;
     frames := f; tasks := tasks w; stopping := stopping w; trace := trace w |}.

Definition set_tasks (t : list task_pc) (w : world) : world :=
  {| stage := stage w; results := results w;
     future_mutex_ := future_mutex_ w; output_mutex_ := output_mutex_ w;
     frames := frames w; tasks := t; stopping := stopping w; trace := trace w |}.

Definition set_stopping (p : stop_pc) (w : world) : world :=
  {| stage := stage w; results := results w;
     future_mutex_ := future_mutex_ w; output_mutex_ := output_mutex_ w;
     frames := frames w; tasks := tasks w; stopping := p; trace := trace w |}.

Definition observe (o : obs Meta) (w : world) : world :=
  {| stage := stage w; results := results w;
     future_mutex_ := future_mutex_ w; output_mutex_ := output_mutex_ w;
     frames := frames w; tasks := tasks w; stopping := stopping w;
     trace := trace w ++ [o] |}.

Definition set_frame (tid : nat) (pc : frame_pc Meta) (w : world) : world :=
  set_frames (<[tid := pc]> (frames w)) w.

Definition set_task (k : nat) (pc : task_pc) (w : world) : world :=
  set_tasks (<[k := pc]> (tasks w)) w.

(** [future_->wait_for(std::chrono::seconds(0)) == std::future_status::ready]
    for the future of task [k]. *)
Definition task_ready (w : world) (k : nat) : bool :=
  match tasks w !! k with
  | Some t => finished t
  | None => false
  end.

Context {Model : Type} {backend : Backend Model} {hooks : Hooks Results Meta}.

(** [CompletedRequest::sequence] is declared outside this file; whether it
    is an [unsigned int] or an [int] is a parameter.  So is the width of
    [size_t]. *)
Variable sequence_unsigned : bool.
Variable size_t_bits : Z.

(** The values a sequence number can have. *)
Definition sequence_ok (seq : Z) : bool :=
  if sequence_unsigned then (0 <=? seq) && (seq <? 2 ^ 32)
  else (CInt.INT_MIN <=? seq) && (seq <=? CInt.INT_MAX).

(** [completed_request.sequence % config_->refresh_rate], the rate an [int]
    that is not 0.  With an unsigned sequence number the rate is converted
    to [unsigned int] first. *)
Definition sequence_rem (seq rate : Z) : Z :=
  if sequence_unsigned then seq mod CInt.to_unsigned rate
  else Z.rem seq rate.

(** Lines 103-104, evaluated left to right. *)
Definition launch_due (w : world) (r : request) : bool :=
  let rate := refresh_rate (config_ (stage w)) in
  if rate =? 0 then false
  else if negb (sequence_rem (sequence r) rate =? 0) then false
  else match future_ (stage w) with
       | None => true
       | Some k => task_ready w k
       end.

(** Lines 106-116: the frame is converted, and a new asynchronous task is
    started whose future replaces the one [future_] held. *)
Definition launch (tid : nat) (r : request) (w : world) : world :=
  let buffer := buffers r (lores_stream_ (stage w)) in
  let s := set_tensor_input_
             (Colour.yuvToRgb size_t_bits (geometry (stage w)) buffer) (stage w) in
  let k := length (tasks w) in
  let s := set_future_ (Some k) s in
  observe (ObsLaunch tid (sequence r) k)
    (set_tasks (tasks w ++ [FillInput]) (set_stage s w)).

(** Line 174. *)
Definition normalise (c : TfConfig) (b : Z) : spec_float :=
  float_div (float_sub (float_of_int b) (normalisation_offset c)) (normalisation_scale c).

(** Lines 162-175: [tensor_input_] is copied into the input tensor,
    element by element. *)
Definition fill_input (s : TfStage) : TfStage :=
  match interpreter_ s with
  | None => s
  | Some i =>
      let n := Z.of_nat (length (tensor_input_ s)) in
      let copy (conv : Z -> cell) :=
        for_range n
          (fun j tensor => <[Z.to_nat j := conv (default 0 (tensor_input_ s !! Z.to_nat j))]> tensor)
          (input_data i) in
      match input_type i with
      | kTfLiteUInt8 => set_interpreter_ (Some (set_input_data (copy U8) i)) s
      | kTfLiteFloat32 =>
          set_interpreter_
            (Some (set_input_data (copy (fun b => F32 (normalise (config_ s) b))) i)) s
      | _ => s
      end
  end.

(** One step of the thread [tid] inside [Process]; [None] when the thread
    is not inside [Process] or waits for a mutex. *)
Definition step_frame (tid : nat) (w : world) : option world :=
  match frames w !! tid with
  | Some (AtEntry r) =>
      match lores_stream_ (stage w) with
      | None => Some (observe (ObsReturn tid r false) (set_frame tid Outside w))
      | Some _ => Some (set_frame tid (LockFuture r) w)
      end
  | Some (LockFuture r) =>
      match future_mutex_ w with
      | None => Some (set_future_mutex_ (Some (FrameThread tid)) (set_frame tid (AtGate r) w))
      | Some _ => None
      end
  | Some (AtGate r) =>
      Some (set_frame tid (if launch_due w r then Launching r else UnlockFuture r) w)
  | Some (Launching r) =>
      Some (set_frame tid (UnlockFuture r) (launch tid r w))
  | Some (UnlockFuture r) =>
      Some (set_future_mutex_ None (set_frame tid (LockOutput r) w))
  | Some (LockOutput r) =>
      match output_mutex_ w with
      | None =>
          Some (observe (ObsLock (FrameThread tid))
                  (set_output_mutex_ (Some (FrameThread tid)) (set_frame tid (Applying r) w)))
      | Some _ => None
      end
  | Some (Applying r) =>
      let (res, r') := applyResults (stage w) (results w) r in
      Some (observe (ObsApply tid (sequence r))
              (set_results res (set_frame tid (Returning r') w)))
  | Some (Returning r) =>
      Some (observe (ObsReturn tid r false)
              (set_output_mutex_ None (set_frame tid Outside w)))
  | Some Outside | None => None
  end.

(** One step of the asynchronous task [k], which runs [runInference]
    (lines 160-182) and then reports the time taken; [None] when the task
    is over or waits for the mutex. *)
Definition step_task (k : nat) (w : world) : option world :=
  match tasks w !! k with
  | Some FillInput =>
      Some (set_task k Invoking (set_stage (fill_input (stage w)) w))
  | Some Invoking =>
      match interpreter_ (stage w) with
      | None => None
      | Some i =>
          let (status, i) := Invoke i in
          let w := set_stage (set_interpreter_ (Some i) (stage w)) w in
          if negb (status_ok status)
          then Some (set_task k (Finished true) w)   (* throw *)
          else Some (set_task k LockOutputT w)
      end
  | Some LockOutputT =>
      match output_mutex_ w with
      | None =>
          Some (observe (ObsLock (TaskThread k))
                  (set_output_mutex_ (Some (TaskThread k)) (set_task k Interpreting w)))
      | Some _ => None
      end
  | Some Interpreting =>
      Some (observe (ObsInterpret k)
              (set_results (interpretOutputs (stage w) (results w))
                 (set_task k UnlockOutputT w)))
  | Some UnlockOutputT =>
      Some (set_output_mutex_ None (set_task k Timing w))
  | Some Timing =>
      let w := set_task k (Finished false) w in
      Some (if negb (verbose (config_ (stage w)) =? 0)
            then observe (ObsPrint InferenceTime) w else w)
  | Some (Finished _) | None => None
  end.

(** One step of the thread inside [Stop] (lines 184-188); [None] while the
    future it waits on is not ready. *)
Definition step_stop (w : world) : option world :=
  match stopping w with
  | NotStopping =>
      match future_ (stage w) with
      | None => Some (observe ObsStopped (set_stopping Stopped w))
      | Some k => Some (set_stopping (Waiting k) w)
      end
  | Waiting k =>
      if task_ready w k then Some (observe ObsStopped (set_stopping Stopped w))
      else None
  | Stopped => None
  end.

(** What can happen next: a thread calls [Process] on a frame, a thread
    inside [Process], a task or the thread inside [Stop] takes a step. *)
Inductive event :=
| Call (tid : nat) (r : request)
| Frame (tid : nat)
| Task (k : nat)
| Stop.

Definition step (w : world) (e : event) : option world :=
  match e with
  | Call tid r =>
      match frames w !! tid with
      | Some Outside =>
          if sequence_ok (sequence r) then Some (set_frame tid (AtEntry r) w) else None
      | _ => None
      end
  | Frame tid => step_frame tid w
  | Task k => step_task k w
  | Stop => step_stop w
  end.

(** An interleaving is a list of events; [exec] runs it. *)
Fixpoint exec (w : world) (evs : list event) : option world :=
  match evs with
  | [] => Some w
  | e :: evs =>
      match step w e with
      | Some w' => exec w' evs
      | None => None
      end
  end.

(** The stage as configured, before any frame: [n] threads deliver frames. *)
Definition initial (s : TfStage) (res : Results) (n : nat) : world :=
  {| stage := s; results := res;
     future_mutex_ := None; output_mutex_ := None;
     frames := replicate n Outside; tasks := [];
     stopping := NotStopping; trace := [] |}.

(** Lines 96-124 run by one thread without interruption, the mutexes free
    when it starts. *)
Definition Process (tid : nat) (r : request) (w : world) : world * request * bool :=
  match lores_stream_ (stage w) with
  | None => (observe (ObsReturn tid r false) w, r, false)
  | Some _ =>
      let w := if launch_due w r then launch tid r w else w in
      let w := observe (ObsLock (FrameThread tid)) w in
      let (res, r') := applyResults (stage w) (results w) r in
      let w := observe (ObsApply tid (sequence r)) (set_results res w) in
      (observe (ObsReturn tid r' false) w, r', false)
  end.

(** The tasks that have not finished. *)
Definition running (w : world) : list task_pc :=
  filter (fun t => finished t = false) (tasks w).

(** The frames on which an inference was launched, in order. *)
Definition launch_of (o : obs Meta) : option Z :=
  match o with ObsLaunch _ seq _ => Some seq | _ => None end.
Definition launches (t : list (obs Meta)) : list Z := omap launch_of t.

(** How often the thread [tid] has called [applyResults], and how often it
    has returned from [Process]. *)
Definition is_apply (tid : nat) (o : obs Meta) : bool :=
  match o with ObsApply t _ => Nat.eqb t tid | _ => false end.
Definition is_return (tid : nat) (o : obs Meta) : bool :=
  match o with ObsReturn t _ _ => Nat.eqb t tid | _ => false end.
Definition applies (tid : nat) (t : list (obs Meta)) : nat :=
  length (filter (fun o => is_apply tid o = true) t).
Definition returns (tid : nat) (t : list (obs Meta)) : nat :=
  length (filter (fun o => is_return tid o = true) t).

(** Whether the task [k] took the output mutex or called [interpretOutputs]. *)
Definition touches_results (k : nat) (o : obs Meta) : bool :=
  match o with
  | ObsInterpret k' => Nat.eqb k' k
  | ObsLock (TaskThread k') => Nat.eqb k' k
  | _ => false
  end.

(** The critical sections. *)
Definition in_future_section (pc : frame_pc Meta) : bool :=
  match pc with AtGate _ | Launching _ | UnlockFuture _ => true | _ => false end.
Definition frame_in_output_section (pc : frame_pc Meta) : bool :=
  match pc with Applying _ | Returning _ => true | _ => false end.
Definition task_in_output_section (t : task_pc) : bool :=
  match t with Interpreting | UnlockOutputT => true | _ => false end.

(** The frame a thread carries up to the launch. *)
Definition frame_before_launch (pc : frame_pc Meta) : option request :=
  match pc with
  | AtEntry r | LockFuture r | AtGate r | Launching r => Some r
  | _ => None
  end.

(** The in-flight slot: [future_] is null while no task was launched and
    owns the future of the newest task afterwards; every older task has
    finished; a thread between lines 103 and 118 holds [future_mutex_]; and
    while a thread is about to launch, every task has finished. *)
Definition slot_inv (w : world) : Prop :=
  match future_ (stage w) with
  | None => tasks w = []
  | Some k => length (tasks w) = S k
  end /\
  (forall j t, tasks w !! j = Some t -> (S j < length (tasks w))%nat -> finished t = true) /\
  (forall tid pc, frames w !! tid = Some pc -> in_future_section pc = true ->
     future_mutex_ w = Some (FrameThread tid)) /\
  (forall tid r, frames w !! tid = Some (Launching r) ->
     Forall (fun t => finished t = true) (tasks w)).

(** The result slot: whoever is between taking and releasing
    [output_mutex_] holds it, and whoever holds it is there. *)
Definition output_inv (w : world) : Prop :=
  (forall tid pc, frames w !! tid = Some pc -> frame_in_output_section pc = true ->
     output_mutex_ w = Some (FrameThread tid)) /\
  (forall k t, tasks w !! k = Some t -> task_in_output_section t = true ->
     output_mutex_ w = Some (TaskThread k)) /\
  (forall tid, output_mutex_ w = Some (FrameThread tid) ->
     exists pc, frames w !! tid = Some pc /\ frame_in_output_section pc = true) /\
  (forall k, output_mutex_ w = Some (TaskThread k) ->
     exists t, tasks w !! k = Some t /\ task_in_output_section t = true).

(** A frame that passes the rate gate of a stage configured with [c]. *)
Definition due (c : TfConfig) (seq : Z) : Prop :=
  refresh_rate c <> 0 /\ sequence_rem seq (refresh_rate c) = 0 /\ sequence_ok seq = true.

(** The configuration does not change, and every launch, made or about to
    be made, is of a frame that is due. *)
Definition gate_inv (c : TfConfig) (p : option Stream) (w : world) : Prop :=
  config_ (stage w) = c /\ lores_stream_ (stage w) = p /\
  (forall tid pc r, frames w !! tid = Some pc -> frame_before_launch pc = Some r ->
     sequence_ok (sequence r) = true) /\
  (forall tid r, frames w !! tid = Some (Launching r) -> due c (sequence r)) /\
  Forall (due c) (launches (trace w)).

(** With the low resolution path enabled, a thread has called
    [applyResults] once for each time it has returned from [Process], and
    once more when it is about to return. *)
Definition apply_inv (w : world) : Prop :=
  forall tid pc, frames w !! tid = Some pc ->
    applies tid (trace w)
    = (returns tid (trace w) + match pc with Returning _ => 1 | _ => 0 end)%nat.

(** A task that has not got past the forward pass, or has failed in it,
    has neither taken the output mutex nor called [interpretOutputs]. *)
Definition before_results (t : option task_pc) : bool :=
  match t with
  | None | Some FillInput | Some Invoking | Some (Finished true) => true
  | _ => false
  end.

Definition failed_inv (w : world) : Prop :=
  forall k, before_results (tasks w !! k) = true ->
    Forall (fun o => touches_results k o = false) (trace w).

(** The steps a task has yet to take, at most. *)
Definition steps_left (t : task_pc) : nat :=
  match t with
  | FillInput => 6
  | Invoking => 5
  | LockOutputT => 4
  | Interpreting => 3
  | UnlockOutputT => 2
  | Timing => 1
  | Finished _ => 0
  end.

(** No thread is inside [Process]. *)
Definition quiescent (w : world) : Prop := Forall (fun pc => pc = Outside) (frames w).



End World.
End Sched.

(** ** Locks, progress and what an execution shows *)

Module Progress.
Import Stage Sched.

Section Measures.
Context {Results Meta : Type}.
Local Abbreviation world := (world Results Meta).

(** [future_mutex_] is held by the thread that is between lines 102 and
    118, and by no one else. *)
Definition future_inv (w : world) : Prop :=
  (forall tid pc, frames w !! tid = Some pc -> in_future_section pc = true ->
     future_mutex_ w = Some (FrameThread tid)) /\
  (forall o, future_mutex_ w = Some o ->
     exists tid pc, o = FrameThread tid /\ frames w !! tid = Some pc /\
                    in_future_section pc = true).

(** The steps a thread inside [Process] has yet to take, at most, those of
    the task it may launch included. *)
Definition frame_steps (pc : frame_pc Meta) : nat :=
  match pc with
  | Outside => 0
  | AtEntry _ => 14
  | LockFuture _ => 13
  | AtGate _ => 12
  | Launching _ => 11
  | UnlockFuture _ => 4
  | LockOutput _ => 3
  | Applying _ => 2
  | Returning _ => 1
  end.

(** The steps the threads inside [Process] and the tasks have yet to
    take, at most. *)
Definition work_left (w : world) : nat :=
  (list_sum (map frame_steps (frames w)) + list_sum (map steps_left (tasks w)))%nat.

(** A step of a thread inside [Process] or of a task. *)
Definition internal (e : @event Meta) : Prop :=
  match e with Frame _ | Task _ => True | _ => False end.

(** How often the task [k] has called [interpretOutputs], and whether a
    task in the given state has. *)
Definition is_interpret (k : nat) (o : obs Meta) : bool :=
  match o with ObsInterpret k' => Nat.eqb k' k | _ => false end.
Definition interprets (k : nat) (t : list (obs Meta)) : nat :=
  length (filter (fun o => is_interpret k o = true) t).
Definition published (t : option task_pc) : nat :=
  match t with
  | Some UnlockOutputT | Some Timing | Some (Finished false) => 1%nat
  | _ => 0%nat
  end.

(** How many lines were written to [std::cout], and how many tasks have
    run to their end without an exception. *)
Definition is_print (o : obs Meta) : bool :=
  match o with ObsPrint _ => true | _ => false end.
Definition prints (t : list (obs Meta)) : nat :=
  length (filter (fun o => is_print o = true) t).
Definition succeeded (t : task_pc) : bool :=
  match t with Finished false => true | _ => false end.
Definition successes (w : world) : nat :=
  list_sum (map (fun t => if succeeded t then 1%nat else 0%nat) (tasks w)).

End Measures.
End Progress.

(** ** Sample data *)

Module Sample.

(** A 224 x 224 model on a 320 x 240 low resolution stream. *)
Definition geometry_224 : Colour.Geometry :=
  {| Colour.tf_w := 224; Colour.tf_h := 224;
     Colour.lores_w := 320; Colour.lores_h := 240; Colour.lores_stride := 320 |}.

(** A mid-grey frame of that stream. *)
Definition grey_frame : list Z := replicate (Z.to_nat 115200) 128.

(** An engine that loads every model file with a name; the model's input
    tensor has the given element type and byte size, and a forward pass
    succeeds or fails as told. *)
Definition engine (t : Stage.TfLiteType) (bytes : Z) (invoke_ok : bool)
  : Stage.Backend unit :=
  {| Stage.BuildFromFile := fun file => if String.eqb file "" then None else Some tt;
     Stage.InterpreterBuilder := fun _ =>
       Some {| Stage.num_threads := None; Stage.input_type := t;
               Stage.input_bytes := bytes;
               Stage.input_data := replicate (Z.to_nat 150528) (Stage.U8 0);
               Stage.output_data := [] |};
     Stage.AllocateTensors := fun i => (Stage.kTfLiteOk, i);
     Stage.Invoke := fun i =>
       (if invoke_ok then Stage.kTfLiteOk else Stage.kTfLiteError, i) |}.

(** A translator of decimal integers, read as an [int] or as a [float]. *)
Definition digit (c : Ascii.ascii) : option Z :=
  let n := Z.of_nat (Ascii.nat_of_ascii c) in
  if (48 <=? n) && (n <=? 57) then Some (n - 48) else None.

Fixpoint digits (acc : Z) (text : string) : option Z :=
  match text with
  | EmptyString => Some acc
  | String c rest =>
      match digit c with
      | Some d => digits (10 * acc + d) rest
      | None => None
      end
  end.

Definition integer (text : string) : option Z :=
  match text with
  | EmptyString => None
  | String c rest =>
      if Nat.eqb (Ascii.nat_of_ascii c) 45   (* a minus sign *)
      then match rest with
           | EmptyString => None
           | _ => option_map Z.opp (digits 0 rest)
           end
      else digits 0 text
  end.

Definition translator : Stage.Translator :=
  {| Stage.read_integer := integer;
     Stage.read_float := fun text => option_map Stage.float_of_int (integer text) |}.

Definition params : Stage.ptree :=
  [("model_file", "model.tflite"); ("refresh_rate", "5")]%string.

(** A 224 x 224 stage as constructed, with the options read. *)
Definition stage_224 : Stage.TfStage :=
  {| Stage.tf_w_ := 224; Stage.tf_h_ := 224;
     Stage.config_ := Stage.read_config (translator := translator) params;
     Stage.interpreter_ := None;
     Stage.lores_stream_ := None;
     Stage.lores_w_ := 0; Stage.lores_h_ := 0; Stage.lores_stride_ := 0;
     Stage.main_stream_ := None;
     Stage.main_w_ := 0; Stage.main_h_ := 0; Stage.main_stride_ := 0;
     Stage.future_ := None; Stage.tensor_input_ := [] |}.

(** An application with a main stream and a low resolution stream of the
    given size. *)
Definition app (lores_w lores_h : Z) : Stage.App :=
  {| Stage.LoresStream := Some 1%nat;
     Stage.GetMainStream := Some 0%nat;
     Stage.StreamDimensions := fun p =>
       if Nat.eqb p 1 then (lores_w, lores_h, lores_w) else (1920, 1080, 1920) |}.

(** A 2 x 2 model on a 4 x 4 low resolution stream, configured, with the
    given refresh rate; [lores] says whether the low resolution path is
    enabled. *)
Definition interpreter_2 : Stage.Interpreter :=
  {| Stage.num_threads := Some 2; Stage.input_type := Stage.kTfLiteUInt8;
     Stage.input_bytes := 12;
     Stage.input_data := replicate 12 (Stage.U8 0);
     Stage.output_data := [] |}.

Definition stage_2 (rate : Z) (lores : bool) : Stage.TfStage :=
  {| Stage.tf_w_ := 2; Stage.tf_h_ := 2;
     Stage.config_ :=
       {| Stage.number_of_threads := 2; Stage.refresh_rate := rate;
          Stage.model_file := "model.tflite"; Stage.verbose := 0;
          Stage.normalisation_offset := Stage.default_normalisation;
          Stage.normalisation_scale := Stage.default_normalisation |};
     Stage.interpreter_ := Some interpreter_2;
     Stage.lores_stream_ := if lores then Some 1%nat else None;
     Stage.lores_w_ := 4; Stage.lores_h_ := 4; Stage.lores_stride_ := 4;
     Stage.main_stream_ := Some 0%nat;
     Stage.main_w_ := 1920; Stage.main_h_ := 1080; Stage.main_stride_ := 1920;
     Stage.future_ := None; Stage.tensor_input_ := [] |}.

(** A concrete stage that counts the inferences it has interpreted and
    attaches the count to each frame. *)
Definition counting : Sched.Hooks Z (list Z) :=
  {| Sched.interpretOutputs := fun _ count => count + 1;
     Sched.applyResults := fun _ count r =>
       (count,
        {| Sched.sequence := Sched.sequence r;
           Sched.buffers := Sched.buffers r;
           Sched.post_process_metadata := count :: Sched.post_process_metadata r |}) |}.

(** The mid-grey frame with sequence number [seq]. *)
Definition frame (seq : Z) : Sched.CompletedRequest (list Z) :=
  {| Sched.sequence := seq;
     Sched.buffers := fun _ => replicate 24 128;
     Sched.post_process_metadata := [] |}.

(** Thread [tid] calls [Process] on frame [seq] and takes [n] steps: one
    when the low resolution path is disabled, seven when no inference is
    launched, eight when one is. *)
Definition call (tid : nat) (seq : Z) (n : nat) : list (@Sched.event (list Z)) :=
  Sched.Call tid (frame seq) :: replicate n (Sched.Frame tid).

(** Two threads deliver frames 0 and 1 to a stage that refreshes on every
    frame; the first launches, the second finds the task still running. *)
Definition overlapping_frames : list (@Sched.event (list Z)) :=
  [Sched.Call 0 (frame 0); Sched.Frame 0; Sched.Frame 0; Sched.Frame 0; Sched.Frame 0;
   Sched.Task 0;
   Sched.Call 1 (frame 1); Sched.Frame 1; Sched.Frame 0; Sched.Frame 1; Sched.Frame 1;
   Sched.Frame 1].

(** The geometry of that stage, and a frame of its stream: sixteen luma
    bytes, then two planes of neutral chroma. *)
Definition geometry_2 : Colour.Geometry := Stage.geometry (stage_2 5 true).

Definition frame_4x4 : list Z :=
  [1; 2; 3; 4; 5; 6; 7; 8; 9; 10; 11; 12; 13; 14; 15; 16] ++ replicate 8 128.

(** A frame of that stream whose colour is out of range: a luma of 128,
    with a U of 0 and a V of 255. *)
Definition frame_vivid : list Z := replicate 16 128 ++ replicate 4 0 ++ replicate 4 255.



(** The stage a step of the start-up returned ([stage_224] if it threw). *)
Definition started (r : Stage.result Stage.TfStage) : Stage.TfStage :=
  match r with Stage.Ok s => s | Stage.Throw _ => stage_224 end.

(** The 224 x 224 stage constructed, read with a [uint8] model and
    configured on a 320 x 240 low resolution stream. *)
Definition stage_224_started : Stage.TfStage :=
  started
    (Stage.Configure (fun _ => Stage.Ok tt) (app 320 240)
       (started
          (Stage.Read (backend := engine Stage.kTfLiteUInt8 150528 true)
             (translator := translator) 64 (fun _ => Stage.Ok tt) params
             (started (Stage.TfStage_new 224 224))).1)).1.

(** The world an interleaving leads to (the initial one if it cannot run). *)
Definition after (unsigned_sequence invoke_ok : bool) (s : Stage.TfStage)
    (evs : list (@Sched.event (list Z))) : Sched.world Z (list Z) :=
  let w := Sched.initial s 0 2 in
  default w
    (Sched.exec (backend := engine Stage.kTfLiteUInt8 12 invoke_ok) (hooks := counting)
       unsigned_sequence 64 w evs).

End Sample.

(** * Properties *)

(** ** Integer arithmetic *)

Lemma wrap_small (z : Z) : CInt.in_int z -> CInt.wrap z = z.
Proof.
  unfold CInt.in_int, CInt.wrap, CInt.INT_MIN, CInt.INT_MAX. intros H.
  rewrite Z.mod_small; lia.
Qed.

Lemma land_not1_even (z : Z) : Z.even (Z.land z (Z.lnot 1)) = true.
Proof.
  rewrite <- Z.negb_odd, <- Z.bit0_odd, Z.land_spec.
  replace (Z.testbit (Z.lnot 1) 0) with false by reflexivity.
  now rewrite andb_false_r.
Qed.

Lemma land_not1_bounds (z : Z) :
  0 <= z -> 0 <= Z.land z (Z.lnot 1) /\ z - 1 <= Z.land z (Z.lnot 1) <= z.
Proof.
  intros Hz.
  assert (E : Z.land z (Z.lnot 1) = 2 * (z / 2)).
  { change (Z.lnot 1) with (Z.lnot (Z.ones 1)).
    rewrite <- Z.ldiff_land, Z.ldiff_ones_r by lia.
    rewrite Z.shiftr_div_pow2, Z.shiftl_mul_pow2 by lia.
    change (2 ^ 1) with 2. lia. }
  rewrite E. pose proof (Z.div_mod z 2 ltac:(lia)).
  pose proof (Z.mod_pos_bound z 2 ltac:(lia)). lia.
Qed.

Lemma land_1_mod2 (z : Z) : Z.land z 1 = z mod 2.
Proof. change 1 with (Z.ones 1) at 1. now rewrite Z.land_ones by lia. Qed.

(** ** Loops *)

Lemma for_range_nonpos {S : Type} (n : Z) (body : Z -> S -> S) (s : S) :
  n <= 0 -> for_range n body s = s.
Proof.
  intros H. unfold for_range. replace (Z.to_nat n) with 0%nat by lia. reflexivity.
Qed.

Lemma for_range_succ {S : Type} (n : Z) (body : Z -> S -> S) (s : S) :
  0 <= n -> for_range (n + 1) body s = body n (for_range n body s).
Proof.
  intros H. unfold for_range.
  replace (Z.to_nat (n + 1)) with (Datatypes.S (Z.to_nat n)) by lia.
  rewrite seq_S, fold_left_app. simpl. now rewrite Z2Nat.id by lia.
Qed.

(** Induction on the number of iterations made. *)
Lemma for_range_ind {S : Type} (P : Z -> S -> Prop) (n : Z) (body : Z -> S -> S) (s : S) :
  0 <= n ->
  P 0 s ->
  (forall i t, 0 <= i < n -> P i t -> P (i + 1) (body i t)) ->
  P n (for_range n body s).
Proof.
  intros Hn H0 Hstep.
  assert (G : forall k : nat, Z.of_nat k <= n -> P (Z.of_nat k) (for_range (Z.of_nat k) body s)).
  { induction k as [|k IH]; intros Hk.
    - simpl. now rewrite for_range_nonpos by lia.
    - replace (Z.of_nat (Datatypes.S k)) with (Z.of_nat k + 1) by lia.
      rewrite for_range_succ by lia. apply Hstep; [lia|]. apply IH. lia. }
  specialize (G (Z.to_nat n)). rewrite Z2Nat.id in G by lia. apply G. lia.
Qed.

(** ** Colour conversion *)

Lemma store_length (out : list Z) (p v : Z) :
  length (Colour.store out p v) = length out.
Proof. unfold Colour.store. destruct (p <? 0); [reflexivity | apply length_insert]. Qed.

Lemma pixel_length (src : list Z) (x : Z) (c : Colour.cursor) :
  length (Colour.output (Colour.pixel src x c)) = length (Colour.output c).
Proof. unfold Colour.pixel. simpl. now rewrite !store_length. Qed.

Lemma for_range_preserves {S : Type} (P : S -> Prop) (n : Z) (body : Z -> S -> S) (s : S) :
  P s -> (forall i t, 0 <= i < n -> P t -> P (body i t)) -> P (for_range n body s).
Proof.
  intros H0 Hstep. destruct (Z.le_gt_cases n 0) as [Hn|Hn].
  - now rewrite for_range_nonpos.
  - apply (for_range_ind (fun _ => P)); [lia | assumption | assumption].
Qed.

Lemma row_length (g : Colour.Geometry) (src : list Z) (y : Z) (d : Z * list Z) :
  length (snd (Colour.row g src y d)) = length (snd d).
Proof.
  unfold Colour.row. simpl.
  apply (for_range_preserves (fun c => length (Colour.output c) = length (snd d))).
  - reflexivity.
  - intros i t _ H. now rewrite pixel_length.
Qed.

Lemma yuvToRgb_length (bits : Z) (g : Colour.Geometry) (src : list Z) :
  length (Colour.yuvToRgb bits g src) = Z.to_nat (Colour.output_size bits g).
Proof.
  unfold Colour.yuvToRgb.
  apply (for_range_preserves
           (fun d => length (snd d) = Z.to_nat (Colour.output_size bits g))).
  - simpl. apply length_replicate.
  - intros i t _ H. now rewrite row_length.
Qed.

Lemma output_size_exact (bits : Z) (g : Colour.Geometry) :
  32 <= bits -> Colour.crop_ok g ->
  Colour.output_size bits g = Colour.tf_h g * Colour.tf_w g * 3.
Proof.
  intros Hb (Hw & Hh & _ & _ & Hp).
  unfold Colour.output_size, CInt.to_size_t, CInt.mul, CInt.INT_MAX in *.
  assert (0 < Colour.tf_h g * Colour.tf_w g) by nia.
  rewrite (wrap_small (Colour.tf_h g * Colour.tf_w g))
    by (unfold CInt.in_int, CInt.INT_MIN, CInt.INT_MAX; lia).
  rewrite wrap_small by (unfold CInt.in_int, CInt.INT_MIN, CInt.INT_MAX; lia).
  apply Z.mod_small. split; [lia|].
  apply Z.lt_le_trans with (2 ^ 32); [lia|].
  apply Z.pow_le_mono_r; lia.
Qed.

Lemma crop_offset_exact (s t : Z) :
  0 < t <= s -> s <= CInt.INT_MAX ->
  CInt.band (CInt.div (CInt.sub s t) 2) (CInt.bnot 1) = Z.land ((s - t) / 2) (Z.lnot 1).
Proof.
  intros Ht Hs. unfold CInt.band, CInt.div, CInt.sub, CInt.bnot, CInt.INT_MAX in *.
  rewrite (wrap_small (s - t)) by (unfold CInt.in_int, CInt.INT_MIN, CInt.INT_MAX; lia).
  rewrite Z.quot_div_nonneg by lia.
  rewrite wrap_small; [reflexivity|].
  unfold CInt.in_int, CInt.INT_MIN, CInt.INT_MAX.
  pose proof (Z.div_pos (s - t) 2 ltac:(lia) ltac:(lia)).
  pose proof (Z.div_le_upper_bound (s - t) 2 (s - t) ltac:(lia) ltac:(lia)). lia.
Qed.

Lemma clamp_range (v : Z) : 0 <= Colour.clamp v 0 255 <= 255.
Proof.
  unfold Colour.clamp.
  destruct (Z.ltb_spec v 0); [lia|]. destruct (Z.ltb_spec 255 v); lia.
Qed.

Lemma store_bytes (out : list Z) (p v : Z) :
  Forall Colour.is_byte out -> Forall Colour.is_byte (Colour.store out p v).
Proof.
  intros H. unfold Colour.store. destruct (p <? 0); [assumption|].
  apply Forall_insert; [assumption|].
  unfold Colour.is_byte. pose proof (Z.mod_pos_bound v 256 ltac:(lia)). lia.
Qed.

Lemma yuvToRgb_bytes (bits : Z) (g : Colour.Geometry) (src : list Z) :
  Forall Colour.is_byte (Colour.yuvToRgb bits g src).
Proof.
  unfold Colour.yuvToRgb.
  apply (for_range_preserves (fun d => Forall Colour.is_byte (snd d))).
  - simpl. apply Forall_replicate. unfold Colour.is_byte. lia.
  - intros y d _ Hd. unfold Colour.row. simpl.
    apply (for_range_preserves (fun c => Forall Colour.is_byte (Colour.output c))).
    + assumption.
    + intros x c _ Hc. unfold Colour.pixel. simpl. now repeat apply store_bytes.
Qed.

(** The conversion of mid-grey. *)
Lemma grey_128 :
  Colour.red 128 128 = 128 /\ Colour.green 128 128 128 = 128 /\ Colour.blue 128 128 = 128.
Proof. vm_compute. repeat split; reflexivity. Qed.

Section Uniform.
Variable g : Colour.Geometry.
Variable src : list Z.
Hypothesis Hcrop : Colour.crop_ok g.
Hypothesis Hframe : Colour.frame_ok g.
Hypothesis Hsrc : forall p, 0 <= p < Colour.frame_bytes g -> Colour.load src p = 128.

Let N : Z := Colour.tf_h g * Colour.tf_w g * 3.

(** The output vector once [d] bytes of it have been written. *)
Let filled (d : Z) : list Z :=
  replicate (Z.to_nat d) 128 ++ replicate (Z.to_nat (N - d)) 0.

Lemma store_filled (d : Z) :
  0 <= d < N -> Colour.store (filled d) d 128 = filled (d + 1).
Proof using Type.
  intros Hd. unfold Colour.store, filled.
  destruct (Z.ltb_spec d 0); [lia|].
  replace (Z.to_nat (N - d)) with (S (Z.to_nat (N - (d + 1)))) by lia.
  replace (Z.to_nat (d + 1)) with (S (Z.to_nat d)) by lia.
  change (128 mod 256) with 128.
  rewrite (replicate_S_end (Z.to_nat d) 128), <- app_assoc.
  rewrite replicate_S.
  pose proof (insert_app_r (replicate (Z.to_nat d) 128)
                (0 :: replicate (Z.to_nat (N - (d + 1))) 0) 0 128) as E.
  rewrite length_replicate, Nat.add_0_r in E. exact E.
Qed.

Lemma offsets_fit :
  0 <= Colour.off_x g /\ Colour.off_x g + Colour.tf_w g <= Colour.lores_w g /\
  0 <= Colour.off_y g /\ Colour.off_y g + Colour.tf_h g <= Colour.lores_h g /\
  Z.even (Colour.off_x g) = true.
Proof using Hcrop.
  destruct Hcrop as (Hw & Hh & Hlw & Hlh & _).
  unfold Colour.off_x, Colour.off_y.
  rewrite !crop_offset_exact by assumption.
  pose proof (land_not1_bounds ((Colour.lores_w g - Colour.tf_w g) / 2)
                ltac:(apply Z.div_pos; lia)).
  pose proof (land_not1_bounds ((Colour.lores_h g - Colour.tf_h g) / 2)
                ltac:(apply Z.div_pos; lia)).
  pose proof (Z.div_le_upper_bound (Colour.lores_w g - Colour.tf_w g) 2
                (Colour.lores_w g - Colour.tf_w g) ltac:(lia) ltac:(lia)).
  pose proof (Z.div_le_upper_bound (Colour.lores_h g - Colour.tf_h g) 2
                (Colour.lores_h g - Colour.tf_h g) ltac:(lia) ltac:(lia)).
  repeat split; try lia. apply land_not1_even.
Qed.

(** The pointers at the start of row [y], as numbers. *)
Lemma row_pointers (y : Z) :
  0 <= y < Colour.tf_h g ->
  let line := y + Colour.off_y g in
  0 <= line < Colour.lores_h g /\
  CInt.add y (Colour.off_y g) = line /\
  CInt.mul line (Colour.lores_stride g) + Colour.off_x g
    = line * Colour.lores_stride g + Colour.off_x g /\
  Colour.src_size g + CInt.mul (CInt.div line 2) (CInt.div (Colour.lores_stride g) 2)
    + CInt.div (Colour.off_x g) 2
    = Colour.lores_h g * Colour.lores_stride g
      + (line / 2) * (Colour.lores_stride g / 2) + Colour.off_x g / 2 /\
  Colour.src_U_size g = (Colour.lores_h g / 2) * (Colour.lores_stride g / 2).
Proof using Hcrop Hframe.
  intros Hy line.
  destruct offsets_fit as (Hox & Hoxw & Hoy & Hoyh & _).
  destruct Hcrop as (Hw & Hh & Hlw & Hlh & _).
  destruct Hframe as (Hws & _ & _ & Hsz).
  unfold Colour.src_size, Colour.src_U_size, CInt.add, CInt.mul, CInt.div.
  set (H := Colour.lores_h g) in *. set (S := Colour.lores_stride g) in *.
  set (ox := Colour.off_x g) in *. set (oy := Colour.off_y g) in *.
  fold line.
  assert (Hline : 0 <= line < H) by (unfold line; lia).
  assert (HS : 0 < S) by lia.
  assert (Hint : forall z, 0 <= z <= H * S -> CInt.wrap z = z).
  { intros z Hz. apply wrap_small. unfold CInt.in_int, CInt.INT_MIN, CInt.INT_MAX in *. lia. }
  assert (HlS : 0 <= line * S /\ line * S + S <= H * S) by nia.
  assert (HSH : S <= H * S) by nia.
  assert (HHS : H <= H * S) by nia.
  rewrite !Z.quot_div_nonneg by lia.
  assert (Hl2 : 0 <= line / 2 <= line) by (Z.div_mod_to_equations; lia).
  assert (HS2 : 0 <= S / 2 <= S) by (Z.div_mod_to_equations; lia).
  assert (HH2 : 0 <= H / 2 <= H) by (Z.div_mod_to_equations; lia).
  assert (Hox2 : 0 <= ox / 2 <= ox) by (Z.div_mod_to_equations; lia).
  assert (Hp1 : 0 <= line / 2 * (S / 2) <= H * S) by nia.
  assert (Hp2 : 0 <= H / 2 * (S / 2) <= H * S) by nia.
  rewrite (Hint (line * S)) by lia.
  rewrite (Hint (H * S)) by lia.
  rewrite (Hint (line / 2)) by lia.
  rewrite (Hint (S / 2)) by lia.
  rewrite (Hint (H / 2)) by lia.
  rewrite (Hint (ox / 2)) by lia.
  rewrite (Hint (line / 2 * (S / 2))) by lia.
  rewrite (Hint (H / 2 * (S / 2))) by lia.
  repeat split; try lia. apply Hint. lia.
Qed.

(** Every byte the row [y] reads is a byte of the frame. *)
Lemma row_reads (y x : Z) :
  0 <= y < Colour.tf_h g -> 0 <= x < Colour.tf_w g ->
  let line := y + Colour.off_y g in
  let p_Y := line * Colour.lores_stride g + Colour.off_x g + x in
  let p_U := Colour.lores_h g * Colour.lores_stride g
             + (line / 2) * (Colour.lores_stride g / 2) + Colour.off_x g / 2 + x / 2 in
  let p_V := p_U + (Colour.lores_h g / 2) * (Colour.lores_stride g / 2) in
  0 <= p_Y < Colour.frame_bytes g /\
  0 <= p_U < Colour.frame_bytes g /\
  0 <= p_V < Colour.frame_bytes g.
Proof using Hcrop Hframe.
  intros Hy Hx line p_Y p_U p_V.
  destruct offsets_fit as (Hox & Hoxw & Hoy & Hoyh & Hev).
  destruct Hcrop as (Hw & Hh & Hlw & Hlh & _).
  destruct Hframe as (Hws & HeH & HeS & Hsz).
  unfold Colour.frame_bytes. subst p_V p_U p_Y.
  apply Z.even_spec in HeH as [H2 EH]. apply Z.even_spec in HeS as [S2 ES].
  apply Z.even_spec in Hev as [a Ea].
  set (H := Colour.lores_h g) in *. set (S := Colour.lores_stride g) in *.
  set (ox := Colour.off_x g) in *. set (oy := Colour.off_y g) in *.
  assert (Hline : 0 <= line < H) by (unfold line; lia).
  assert (EH2 : H / 2 = H2) by (Z.div_mod_to_equations; lia).
  assert (ES2 : S / 2 = S2) by (Z.div_mod_to_equations; lia).
  assert (Eo2 : ox / 2 = a) by (Z.div_mod_to_equations; lia).
  rewrite EH2, ES2, Eo2.
  assert (Hl2 : 0 <= line / 2 <= H2 - 1) by (Z.div_mod_to_equations; lia).
  assert (Hx2 : 0 <= x / 2 /\ a + x / 2 <= S2 - 1) by (Z.div_mod_to_equations; lia).
  assert (HS2 : 0 < S2) by lia.
  assert (HlS : 0 <= line * S /\ line * S + S <= H * S) by nia.
  assert (HlU : 0 <= line / 2 * S2 /\ line / 2 * S2 + S2 <= H2 * S2) by nia.
  assert (0 <= H * S) by nia.
  repeat split; lia.
Qed.

(** Row [y] writes mid-grey to the next [3 * tf_w] bytes of the output. *)
Lemma row_filled (y : Z) (d : Z * list Z) :
  0 <= y < Colour.tf_h g ->
  fst d = 3 * Colour.tf_w g * y -> snd d = filled (fst d) ->
  fst (Colour.row g src y d) = 3 * Colour.tf_w g * (y + 1) /\
  snd (Colour.row g src y d) = filled (fst (Colour.row g src y d)).
Proof using Hcrop Hframe Hsrc.
  intros Hy Hd Hout.
  destruct (row_pointers y Hy) as (Hline & E1 & E2 & E3 & E4).
  unfold Colour.row. rewrite E1, E2, E3, E4. cbn [fst snd].
  set (line := y + Colour.off_y g) in *.
  set (p_Y := line * Colour.lores_stride g + Colour.off_x g).
  set (p_U := Colour.lores_h g * Colour.lores_stride g
              + line / 2 * (Colour.lores_stride g / 2) + Colour.off_x g / 2).
  set (p_V := p_U + Colour.lores_h g / 2 * (Colour.lores_stride g / 2)).
  assert (Hw : 0 < Colour.tf_w g) by (destruct Hcrop as (? & _); lia).
  pose (P := fun (i : Z) (c : Colour.cursor) =>
               Colour.src_Y c = p_Y + i /\ Colour.src_U c = p_U + i / 2 /\
               Colour.src_V c = p_V + i / 2 /\ Colour.dst c = fst d + 3 * i /\
               Colour.output c = filled (Colour.dst c)).
  assert (G : P (Colour.tf_w g)
                (for_range (Colour.tf_w g) (Colour.pixel src)
                   {| Colour.src_Y := p_Y; Colour.src_U := p_U; Colour.src_V := p_V;
                      Colour.dst := fst d; Colour.output := snd d |})).
  { apply for_range_ind; [lia | |].
    - unfold P. cbn [Colour.src_Y Colour.src_U Colour.src_V Colour.dst Colour.output].
      change (0 / 2) with 0. repeat split; try lia. exact Hout.
    - intros i c Hi (HY & HU & HV & HD & HO).
      destruct (row_reads y i Hy Hi) as (RY & RU & RV). fold line p_Y p_U p_V in RY, RU, RV.
      unfold P, Colour.pixel.
      cbn [Colour.src_Y Colour.src_U Colour.src_V Colour.dst Colour.output].
      assert (RV' : 0 <= p_V + i / 2 < Colour.frame_bytes g) by (unfold p_V; lia).
      rewrite HY, HU, HV, (Hsrc _ RY), (Hsrc _ RU), (Hsrc _ RV').
      destruct grey_128 as (-> & -> & ->).
      unfold CInt.band. rewrite land_1_mod2.
      assert (Hroom : 0 <= Colour.dst c /\ Colour.dst c + 3 <= N).
      { unfold N. rewrite HD, Hd. nia. }
      rewrite HO, (store_filled (Colour.dst c)), (store_filled (Colour.dst c + 1)) by lia.
      replace (Colour.dst c + 1 + 1) with (Colour.dst c + 2) by lia.
      rewrite (store_filled (Colour.dst c + 2)) by lia.
      replace (Colour.dst c + 2 + 1) with (Colour.dst c + 3) by lia.
      repeat split; try lia; Z.div_mod_to_equations; lia. }
  destruct G as (_ & _ & _ & GD & GO). split; [rewrite GD, Hd; lia | exact GO].
Qed.

(** A frame that is mid-grey everywhere converts to mid-grey everywhere. *)
Lemma yuvToRgb_grey (bits : Z) :
  32 <= bits -> Colour.yuvToRgb bits g src = replicate (Z.to_nat N) 128.
Proof using Hcrop Hframe Hsrc.
  intros Hb. unfold Colour.yuvToRgb. rewrite output_size_exact by assumption.
  assert (Hh : 0 < Colour.tf_h g) by (destruct Hcrop as (_ & ? & _); lia).
  pose (Q := fun (y : Z) (d : Z * list Z) =>
               fst d = 3 * Colour.tf_w g * y /\ snd d = filled (fst d)).
  assert (G : Q (Colour.tf_h g)
                (for_range (Colour.tf_h g) (Colour.row g src)
                   (0, replicate (Z.to_nat (Colour.tf_h g * Colour.tf_w g * 3)) 0))).
  { apply for_range_ind; [lia | |].
    - unfold Q, filled. cbn. split; [lia|]. now rewrite Z.sub_0_r.
    - intros y d Hy (Hd & HO). unfold Q. now apply row_filled. }
  destruct G as (GD & GO). rewrite GO, GD. unfold filled.
  replace (3 * Colour.tf_w g * Colour.tf_h g) with N by (unfold N; lia).
  rewrite Z.sub_diag. cbn. apply app_nil_r.
Qed.

End Uniform.

Lemma load_replicate (n : nat) (b p : Z) :
  0 <= p < Z.of_nat n -> Colour.load (replicate n b) p = b.
Proof.
  intros Hp. unfold Colour.load. destruct (Z.ltb_spec p 0); [lia|].
  rewrite lookup_replicate_2 by lia. reflexivity.
Qed.

(** *** The window *)

(** A store to the first byte that was not written yet. *)
Lemma store_next (a : list Z) (n : nat) (v : Z) :
  Colour.is_byte v ->
  Colour.store (a ++ replicate (S n) 0) (Z.of_nat (length a)) v = (a ++ [v]) ++ replicate n 0.
Proof.
  intros Hv. unfold Colour.store. destruct (Z.ltb_spec (Z.of_nat (length a)) 0); [lia|].
  rewrite Nat2Z.id. cbn [replicate].
  pose proof (insert_app_r a (0 :: replicate n 0) 0 (v mod 256)) as E.
  rewrite Nat.add_0_r in E. rewrite E. cbn.
  unfold Colour.is_byte in Hv. rewrite Z.mod_small by lia. now rewrite <- app_assoc.
Qed.

(** Each channel is a byte. *)
Lemma rgb_bytes (Y U V : Z) :
  Colour.is_byte (Colour.red Y V) /\ Colour.is_byte (Colour.green Y U V) /\
  Colour.is_byte (Colour.blue Y U).
Proof.
  unfold Colour.is_byte, Colour.red, Colour.green, Colour.blue, Colour.clamp_int.
  repeat split; apply clamp_range.
Qed.

Lemma raster_row_S (f : Z -> Z -> list Z) (g : Colour.Geometry) (y : Z) (n : nat) :
  Layout.raster_row f g y (S n)
  = Layout.raster_row f g y n ++ f (Colour.off_x g + Z.of_nat n) (Colour.off_y g + y).
Proof.
  unfold Layout.raster_row. rewrite seq_S, flat_map_app. cbn. rewrite ?app_nil_r. reflexivity.
Qed.

Lemma window_row_length (g : Colour.Geometry) (src : list Z) (y : Z) (n : nat) :
  length (Layout.raster_row (Layout.rgb g src) g y n) = (3 * n)%nat.
Proof.
  induction n as [|n IH]; [reflexivity|].
  rewrite raster_row_S, length_app, IH. cbn. lia.
Qed.

Lemma window_rows_length (g : Colour.Geometry) (src : list Z) (m : nat) :
  length (flat_map (fun y => Layout.raster_row (Layout.rgb g src) g (Z.of_nat y)
                               (Z.to_nat (Colour.tf_w g))) (seq 0 m))
  = (3 * Z.to_nat (Colour.tf_w g) * m)%nat.
Proof.
  induction m as [|m IH]; [cbn; lia|].
  rewrite seq_S, flat_map_app, length_app, IH. cbn.
  rewrite app_nil_r, window_row_length. lia.
Qed.

(** Two ways to fill the window agree when they agree on its pixels. *)
Lemma raster_ext (f f' : Z -> Z -> list Z) (g : Colour.Geometry) :
  (forall x y, 0 <= x < Colour.tf_w g -> 0 <= y < Colour.tf_h g ->
     f (Colour.off_x g + x) (Colour.off_y g + y) = f' (Colour.off_x g + x) (Colour.off_y g + y)) ->
  Layout.raster f g = Layout.raster f' g.
Proof.
  intros H. unfold Layout.raster, Layout.raster_row.
  rewrite !flat_map_concat_map. f_equal. apply map_ext_in. intros y Hy.
  apply in_seq in Hy.
  rewrite !flat_map_concat_map. f_equal. apply map_ext_in. intros x Hx.
  apply in_seq in Hx. apply H; lia.
Qed.

Section Window.
Variable g : Colour.Geometry.
Variable src : list Z.
Hypothesis Hcrop : Colour.crop_ok g.
Hypothesis Hframe : Colour.frame_ok g.

Let N : Z := Colour.tf_h g * Colour.tf_w g * 3.

(** The first [m] rows of the window. *)
Let rows (m : nat) : list Z :=
  flat_map (fun y => Layout.raster_row (Layout.rgb g src) g (Z.of_nat y)
                       (Z.to_nat (Colour.tf_w g))) (seq 0 m).


(** Row [y] writes the row [y] of the window after the rows before it. *)
Lemma row_window (y : Z) (d : Z * list Z) (pre : list Z) :
  0 <= y < Colour.tf_h g ->
  fst d = 3 * Colour.tf_w g * y -> Z.of_nat (length pre) = fst d ->
  snd d = pre ++ replicate (Z.to_nat (N - fst d)) 0 ->
  Colour.row g src y d
  = (3 * Colour.tf_w g * (y + 1),
     (pre ++ Layout.raster_row (Layout.rgb g src) g y (Z.to_nat (Colour.tf_w g)))
     ++ replicate (Z.to_nat (N - 3 * Colour.tf_w g * (y + 1))) 0).
Proof using Hcrop Hframe.
  intros Hy Hd Hpre Hout.
  destruct (row_pointers g Hcrop Hframe y Hy) as (Hline & E1 & E2 & E3 & E4).
  destruct (offsets_fit g Hcrop) as (Hox & _ & _ & _ & Hev).
  unfold Colour.row. rewrite E1, E2, E3, E4. cbn [fst snd].
  set (line := y + Colour.off_y g) in *.
  set (p_Y := line * Colour.lores_stride g + Colour.off_x g).
  set (p_U := Colour.lores_h g * Colour.lores_stride g
              + line / 2 * (Colour.lores_stride g / 2) + Colour.off_x g / 2).
  set (p_V := p_U + Colour.lores_h g / 2 * (Colour.lores_stride g / 2)).
  assert (Hw : 0 < Colour.tf_w g) by (destruct Hcrop as (? & _); lia).
  pose (P := fun (i : Z) (c : Colour.cursor) =>
               Colour.src_Y c = p_Y + i /\ Colour.src_U c = p_U + i / 2 /\
               Colour.src_V c = p_V + i / 2 /\ Colour.dst c = fst d + 3 * i /\
               Colour.output c
               = (pre ++ Layout.raster_row (Layout.rgb g src) g y (Z.to_nat i))
                 ++ replicate (Z.to_nat (N - Colour.dst c)) 0).
  assert (G : P (Colour.tf_w g)
                (for_range (Colour.tf_w g) (Colour.pixel src)
                   {| Colour.src_Y := p_Y; Colour.src_U := p_U; Colour.src_V := p_V;
                      Colour.dst := fst d; Colour.output := snd d |})).
  { apply for_range_ind; [lia | |].
    - unfold P. cbn [Colour.src_Y Colour.src_U Colour.src_V Colour.dst Colour.output].
      change (0 / 2) with 0. repeat split; try lia.
      rewrite Hout. cbn. now rewrite app_nil_r.
    - intros i c Hi (HY & HU & HV & HD & HO).
      unfold P, Colour.pixel.
      cbn [Colour.src_Y Colour.src_U Colour.src_V Colour.dst Colour.output].
      rewrite HY, HU, HV.
      unfold CInt.band. rewrite land_1_mod2.
      assert (Hroom : 0 <= Colour.dst c /\ Colour.dst c + 3 <= N).
      { unfold N. rewrite HD, Hd. nia. }
      set (Y := Colour.load src (p_Y + i)).
      set (U := Colour.load src (p_U + i / 2)).
      set (V := Colour.load src (p_V + i / 2)).
      destruct (rgb_bytes Y U V) as (BR & BG & BB).
      set (done := pre ++ Layout.raster_row (Layout.rgb g src) g y (Z.to_nat i)) in *.
      assert (Hlen : Z.of_nat (length done) = Colour.dst c).
      { unfold done. rewrite length_app, window_row_length. lia. }
      rewrite HO.
      replace (Z.to_nat (N - Colour.dst c)) with (S (S (S (Z.to_nat (N - (Colour.dst c + 3)))))) by lia.
      pose proof (store_next done (S (S (Z.to_nat (N - (Colour.dst c + 3))))) _ BR) as S1.
      rewrite Hlen in S1. rewrite S1. clear S1.
      pose proof (store_next (done ++ [Colour.red Y V])
                    (S (Z.to_nat (N - (Colour.dst c + 3)))) _ BG) as S2.
      rewrite length_app in S2. cbn [length] in S2.
      replace (Z.of_nat (length done + 1)) with (Colour.dst c + 1) in S2 by lia.
      rewrite S2. clear S2.
      pose proof (store_next ((done ++ [Colour.red Y V]) ++ [Colour.green Y U V])
                    (Z.to_nat (N - (Colour.dst c + 3))) _ BB) as S3.
      rewrite !length_app in S3. cbn [length] in S3.
      replace (Z.of_nat (length done + 1 + 1)) with (Colour.dst c + 2) in S3 by lia.
      rewrite S3. clear S3.
      refine (conj _ (conj _ (conj _ (conj _ _)))); try lia;
        try (Z.div_mod_to_equations; lia).
      f_equal. replace (Z.to_nat (i + 1)) with (S (Z.to_nat i)) by lia.
      rewrite raster_row_S. subst done. rewrite <- !app_assoc. do 2 f_equal.
      unfold Layout.rgb, Layout.luma, Layout.chroma_U, Layout.chroma_V. cbn.
      rewrite Z2Nat.id by lia.
      apply Z.even_spec in Hev as [a Ea].
      assert (EY : (Colour.off_y g + y) * Colour.lores_stride g + (Colour.off_x g + i) = p_Y + i)
        by (unfold p_Y, line; lia).
      assert (EU : Colour.lores_h g * Colour.lores_stride g
                   + (Colour.off_y g + y) / 2 * (Colour.lores_stride g / 2)
                   + (Colour.off_x g + i) / 2 = p_U + i / 2).
      { unfold p_U, line. replace (Colour.off_y g + y) with (y + Colour.off_y g) by lia.
        rewrite Ea. replace (2 * a + i) with (i + a * 2) by lia.
        rewrite Z.div_add by lia. replace (2 * a) with (a * 2) by lia.
        rewrite Z.div_mul by lia. lia. }
      assert (EV : Colour.lores_h g * Colour.lores_stride g
                   + Colour.lores_h g / 2 * (Colour.lores_stride g / 2)
                   + (Colour.off_y g + y) / 2 * (Colour.lores_stride g / 2)
                   + (Colour.off_x g + i) / 2 = p_V + i / 2) by (unfold p_V; lia).
      rewrite EY, EU, EV. reflexivity. }
  destruct G as (_ & _ & _ & GD & GO). rewrite GO, GD, Hd.
  f_equal; [lia|]. do 2 f_equal. lia.
Qed.

Lemma yuvToRgb_window (bits : Z) :
  32 <= bits -> Colour.yuvToRgb bits g src = Layout.window g src.
Proof using Hcrop Hframe.
  intros Hb. unfold Colour.yuvToRgb. rewrite output_size_exact by assumption.
  assert (Hh : 0 < Colour.tf_h g) by (destruct Hcrop as (_ & ? & _); lia).
  assert (Hw : 0 < Colour.tf_w g) by (destruct Hcrop as (? & _); lia).
  pose (Q := fun (y : Z) (d : Z * list Z) =>
               d = (3 * Colour.tf_w g * y,
                    rows (Z.to_nat y)
                    ++ replicate (Z.to_nat (N - 3 * Colour.tf_w g * y)) 0)).
  assert (G : Q (Colour.tf_h g)
                (for_range (Colour.tf_h g) (Colour.row g src)
                   (0, replicate (Z.to_nat (Colour.tf_h g * Colour.tf_w g * 3)) 0))).
  { apply for_range_ind; [lia | |].
    - unfold Q. f_equal; [lia|]. rewrite Z.mul_0_r, Z.sub_0_r. reflexivity.
    - intros y d Hy Hd. unfold Q in *. subst d.
      rewrite (row_window y _ (rows (Z.to_nat y))); cbn [fst snd];
        try reflexivity; try lia.
      + replace (Z.to_nat (y + 1)) with (S (Z.to_nat y)) by lia.
        unfold rows. rewrite seq_S, flat_map_app. cbn. rewrite app_nil_r.
        rewrite Z2Nat.id by lia. reflexivity.
      + unfold rows. rewrite window_rows_length. nia. }
  unfold Q in G. rewrite G. cbn [snd].
  replace (N - 3 * Colour.tf_w g * Colour.tf_h g) with 0 by (unfold N; lia).
  cbn. apply app_nil_r.
Qed.

(** Where the bytes of a pixel of the window are: the luma byte in the
    luma plane, the chroma bytes in their planes, all inside the frame. *)
Lemma window_reads (x y : Z) :
  0 <= x < Colour.tf_w g -> 0 <= y < Colour.tf_h g ->
  let H := Colour.lores_h g in
  let S := Colour.lores_stride g in
  let X := Colour.off_x g + x in
  let L := Colour.off_y g + y in
  0 <= L * S + X < H * S /\
  H * S <= H * S + L / 2 * (S / 2) + X / 2 < H * S + H / 2 * (S / 2) /\
  H * S + H / 2 * (S / 2) <= H * S + H / 2 * (S / 2) + L / 2 * (S / 2) + X / 2
    < Colour.frame_bytes g.
Proof using Hcrop Hframe.
  intros Hx Hy H S X L.
  destruct (offsets_fit g Hcrop) as (Hox & Hoxw & Hoy & Hoyh & Hev).
  destruct Hcrop as (Hw & Hh & Hlw & Hlh & _).
  destruct Hframe as (Hws & HeH & HeS & Hsz).
  unfold Colour.frame_bytes. fold H S.
  apply Z.even_spec in HeH as [H2 EH]. apply Z.even_spec in HeS as [S2 ES].
  apply Z.even_spec in Hev as [a Ea].
  fold H in EH, Hlh, Hoyh, Hh. fold S in ES, Hws.
  assert (HL : 0 <= L < H) by (unfold L; lia).
  assert (HX : 0 <= X < S) by (unfold X; lia).
  assert (EH2 : H / 2 = H2) by (Z.div_mod_to_equations; lia).
  assert (ES2 : S / 2 = S2) by (Z.div_mod_to_equations; lia).
  rewrite EH2, ES2.
  assert (Hl2 : 0 <= L / 2 <= H2 - 1) by (Z.div_mod_to_equations; lia).
  assert (Hx2 : 0 <= X / 2 <= S2 - 1) by (Z.div_mod_to_equations; lia).
  assert (HS2 : 0 < S2) by lia.
  assert (HlS : 0 <= L * S /\ L * S + S <= H * S) by nia.
  assert (HlU : 0 <= L / 2 * S2 /\ L / 2 * S2 + S2 <= H2 * S2) by nia.
  assert (0 <= H * S) by nia.
  repeat split; lia.
Qed.

(** The window is made of bytes of the frame only. *)
Lemma window_frame_ext (src' : list Z) :
  (forall p, 0 <= p < Colour.frame_bytes g -> Colour.load src p = Colour.load src' p) ->
  Layout.window g src = Layout.window g src'.
Proof using Hcrop Hframe.
  intros Hagree. unfold Layout.window. apply raster_ext. intros x y Hx Hy.
  destruct (window_reads x y Hx Hy) as (RY & RU & RV).
  unfold Layout.rgb, Layout.luma, Layout.chroma_U, Layout.chroma_V.
  rewrite !Hagree by lia. reflexivity.
Qed.

End Window.

(** With neutral chroma each channel is the luma byte, exactly. *)
Lemma neutral_chroma (Y : Z) :
  Colour.is_byte Y ->
  Colour.red Y 128 = Y /\ Colour.green Y 128 128 = Y /\ Colour.blue Y 128 = Y.
Proof.
  intros HY.
  assert (E : forallb (fun n => let Y := Z.of_nat n in
                         (Colour.red Y 128 =? Y) && (Colour.green Y 128 128 =? Y)
                         && (Colour.blue Y 128 =? Y)) (seq 0 256) = true)
    by (vm_compute; reflexivity).
  rewrite forallb_forall in E. specialize (E (Z.to_nat Y)).
  unfold Colour.is_byte in HY. rewrite Z2Nat.id in E by lia.
  cbv zeta in E. rewrite !andb_true_iff, !Z.eqb_eq in E.
  destruct E as ((ER & EG) & EB); [apply in_seq; lia | auto].
Qed.

(** A frame whose chroma is neutral everywhere: each pixel of the window is
    the grey of its luma byte. *)
Lemma window_neutral (g : Colour.Geometry) (src : list Z) :
  Colour.crop_ok g -> Colour.frame_ok g ->
  (forall p, 0 <= p < Colour.lores_h g * Colour.lores_stride g ->
     Colour.is_byte (Colour.load src p)) ->
  (forall p, Colour.lores_h g * Colour.lores_stride g <= p < Colour.frame_bytes g ->
     Colour.load src p = 128) ->
  Layout.window g src = Layout.raster (Layout.grey g src) g.
Proof.
  intros Hcrop Hframe Hluma Hchroma. unfold Layout.window. apply raster_ext.
  intros x y Hx Hy.
  destruct (window_reads g Hcrop Hframe x y Hx Hy) as (RY & RU & RV).
  unfold Layout.rgb, Layout.grey, Layout.luma, Layout.chroma_U, Layout.chroma_V.
  match goal with
  | |- context [Colour.green _ (Colour.load src ?pU) (Colour.load src ?pV)] =>
      rewrite (Hchroma pU), (Hchroma pV) by lia
  end.
  destruct (neutral_chroma _ (Hluma _ RY)) as (-> & -> & ->). reflexivity.
Qed.

Lemma load_Forall (P : Z -> Prop) (src : list Z) (p : Z) :
  Forall P src -> 0 <= p < Z.of_nat (length src) -> P (Colour.load src p).
Proof.
  intros HP Hp. unfold Colour.load. destruct (Z.ltb_spec p 0); [lia|].
  destruct (lookup_lt_is_Some_2 src (Z.to_nat p) ltac:(lia)) as (b & Hb).
  rewrite Hb. cbn. eapply Forall_lookup_1; eassumption.
Qed.

Lemma load_app_l (src rest : list Z) (p : Z) :
  0 <= p < Z.of_nat (length src) -> Colour.load (src ++ rest) p = Colour.load src p.
Proof.
  intros Hp. unfold Colour.load. destruct (Z.ltb_spec p 0); [lia|].
  now rewrite lookup_app_l by lia.
Qed.

Lemma load_app_r (src rest : list Z) (p : Z) :
  Z.of_nat (length src) <= p ->
  Colour.load (src ++ rest) p = Colour.load rest (p - Z.of_nat (length src)).
Proof.
  intros Hp. unfold Colour.load.
  destruct (Z.ltb_spec p 0); [lia|]. destruct (Z.ltb_spec (p - Z.of_nat (length src)) 0); [lia|].
  rewrite lookup_app_r by lia. do 2 f_equal. lia.
Qed.

(** Whatever is read of a buffer of bytes is a byte. *)
Lemma load_byte (src : list Z) (p : Z) :
  Forall Colour.is_byte src -> Colour.is_byte (Colour.load src p).
Proof.
  intros Hsrc. unfold Colour.load. destruct (p <? 0); [unfold Colour.is_byte; lia|].
  destruct (src !! Z.to_nat p) as [b|] eqn:E; cbn.
  - eapply Forall_lookup_1; eassumption.
  - unfold Colour.is_byte. lia.
Qed.

Lemma clamp_saturate (v : Z) : Colour.clamp v 0 255 = Z.max 0 (Z.min 255 v).
Proof.
  unfold Colour.clamp. destruct (Z.ltb_spec v 0); [lia|]. destruct (Z.ltb_spec 255 v); lia.
Qed.

(** Each channel is its formula, cut to 0..255: a value below 0 becomes 0
    and a value above 255 becomes 255. *)
Lemma channels_saturate (Y U V : Z) :
  Colour.is_byte U -> Colour.is_byte V ->
  Colour.red Y V = Layout.saturate (Layout.red_value Y V) /\
  Colour.green Y U V = Layout.saturate (Layout.green_value Y U V) /\
  Colour.blue Y U = Layout.saturate (Layout.blue_value Y U).
Proof.
  unfold Colour.is_byte. intros HU HV.
  unfold Colour.red, Colour.green, Colour.blue, Colour.clamp_int, Layout.saturate,
    Layout.red_value, Layout.green_value, Layout.blue_value, CInt.sub.
  rewrite !wrap_small by (unfold CInt.in_int, CInt.INT_MIN, CInt.INT_MAX; lia).
  rewrite !clamp_saturate. repeat split; reflexivity.
Qed.

Lemma window_saturated (g : Colour.Geometry) (src : list Z) :
  Forall Colour.is_byte src ->
  Layout.window g src = Layout.raster (Layout.saturated g src) g.
Proof.
  intros Hsrc. unfold Layout.window. apply raster_ext. intros x y _ _.
  unfold Layout.rgb, Layout.saturated, Layout.chroma_U, Layout.chroma_V.
  match goal with
  | |- context [Colour.green ?Y ?U ?V] =>
      destruct (channels_saturate Y U V) as (-> & -> & ->);
      [apply load_byte; assumption | apply load_byte; assumption | reflexivity]
  end.
Qed.



(** C9.  Each channel is clamped to 0..255 before it is stored: every byte
    [yuvToRgb] returns is the value of the conversion formula of its pixel
    and channel cut to that range, 0 for a value below 0 and 255 for a value
    above 255.  A frame whose luma and chroma bytes are all 128 converts to
    [R = G = B = 128] at every pixel. *)
Theorem yuvToRgb_clamped_and_grey (bits : Z) (g : Colour.Geometry) (src : list Z) :
  (forall Y U V : Z, Colour.is_byte U -> Colour.is_byte V ->
      Colour.red Y V = Layout.saturate (Layout.red_value Y V) /\
      Colour.green Y U V = Layout.saturate (Layout.green_value Y U V) /\
      Colour.blue Y U = Layout.saturate (Layout.blue_value Y U)) /\
  Forall Colour.is_byte (Colour.yuvToRgb bits g src) /\
  (32 <= bits -> Colour.crop_ok g -> Colour.frame_ok g -> Forall Colour.is_byte src ->
   Colour.yuvToRgb bits g src = Layout.raster (Layout.saturated g src) g) /\
  (32 <= bits -> Colour.crop_ok g -> Colour.frame_ok g ->
   (forall p, 0 <= p < Colour.frame_bytes g -> Colour.load src p = 128) ->
   Colour.yuvToRgb bits g src
   = replicate (Z.to_nat (Colour.tf_h g * Colour.tf_w g * 3)) 128).
Proof.
  refine (conj _ (conj _ (conj _ _))).
  - intros Y U V. apply channels_saturate.
  - apply yuvToRgb_bytes.
  - intros Hb Hc Hf Hsrc. rewrite yuvToRgb_window by assumption.
    now apply window_saturated.
  - intros Hb Hc Hf Hs. now apply yuvToRgb_grey.
Qed.


Lemma geometry_2_ok : Colour.crop_ok Sample.geometry_2 /\ Colour.frame_ok Sample.geometry_2.
Proof.
  unfold Colour.crop_ok, Colour.frame_ok, CInt.INT_MAX. cbn. repeat split; lia.
Qed.


(** C9 on a frame whose red is above 255 and whose blue is below 0 before
    they are cut, and on a mid-grey 320 x 240 frame. *)
Lemma yuvToRgb_clamped_and_grey_witness :
  Colour.yuvToRgb 64 Sample.geometry_2 Sample.frame_vivid
  = [255; 81; 0; 255; 81; 0; 255; 81; 0; 255; 81; 0] /\
  Colour.yuvToRgb 64 Sample.geometry_224 Sample.grey_frame
  = replicate (Z.to_nat (224 * 224 * 3)) 128.
Proof.
  split.
  - rewrite (proj1 (proj2 (proj2
               (yuvToRgb_clamped_and_grey 64 Sample.geometry_2 Sample.frame_vivid)))).
    + vm_compute. reflexivity.
    + lia.
    + apply geometry_2_ok.
    + apply geometry_2_ok.
    + unfold Sample.frame_vivid. repeat (apply Forall_app; split);
        apply Forall_replicate; unfold Colour.is_byte; lia.
  - apply (yuvToRgb_clamped_and_grey 64 Sample.geometry_224 Sample.grey_frame).
    + lia.
    + unfold Colour.crop_ok, CInt.INT_MAX. simpl. lia.
    + unfold Colour.frame_ok, CInt.INT_MAX. simpl. repeat split; lia.
    + intros p Hp. apply load_replicate.
      change (Colour.frame_bytes Sample.geometry_224) with 115200 in Hp. lia.
Defined.

(** X7.  For a frame in the YUV420 layout that is at least as large as the
    model input, [yuvToRgb] returns the window of [tf_w] x [tf_h] pixels at
    the crop offsets, row by row, three bytes a pixel: the pixel in column
    [x] of row [y] of the output is made of the luma byte in column
    [off_x + x] of line [off_y + y] and of the chroma bytes of that pixel's
    2 x 2 block. *)
Theorem yuvToRgb_is_window (bits : Z) (g : Colour.Geometry) (src : list Z) :
  32 <= bits -> Colour.crop_ok g -> Colour.frame_ok g ->
  Colour.yuvToRgb bits g src = Layout.window g src.
Proof. intros Hb Hc Hf. now apply yuvToRgb_window. Qed.

(** X8.  For a frame in the YUV420 layout (even height and stride, a
    stride no less than the width, a luma plane an [int] can count) that
    is at least as large as the model input, [yuvToRgb] reads no byte
    outside the frame: two buffers that agree on the [frame_bytes] bytes of
    the three planes convert to the same output, whatever lies beyond. *)
Theorem yuvToRgb_reads_inside_frame (bits : Z) (g : Colour.Geometry) (src src' : list Z) :
  32 <= bits -> Colour.crop_ok g -> Colour.frame_ok g ->
  (forall p, 0 <= p < Colour.frame_bytes g -> Colour.load src p = Colour.load src' p) ->
  Colour.yuvToRgb bits g src = Colour.yuvToRgb bits g src'.
Proof.
  intros Hb Hc Hf Hagree. rewrite !yuvToRgb_window by assumption.
  now apply window_frame_ext.
Qed.

(** X9.  A frame whose chroma planes are neutral (every byte 128)
    converts to the grey of its luma: each pixel of the output has
    [R = G = B = Y], the luma byte of that pixel, exactly. *)
Theorem yuvToRgb_neutral_chroma (bits : Z) (g : Colour.Geometry) (src : list Z) :
  32 <= bits -> Colour.crop_ok g -> Colour.frame_ok g ->
  (forall p, 0 <= p < Colour.lores_h g * Colour.lores_stride g ->
     Colour.is_byte (Colour.load src p)) ->
  (forall p, Colour.lores_h g * Colour.lores_stride g <= p < Colour.frame_bytes g ->
     Colour.load src p = 128) ->
  Colour.yuvToRgb bits g src = Layout.raster (Layout.grey g src) g.
Proof.
  intros Hb Hc Hf Hluma Hchroma. rewrite yuvToRgb_window by assumption.
  now apply window_neutral.
Qed.

(** X7 on a 2 x 2 model and a 4 x 4 frame. *)
Lemma yuvToRgb_is_window_witness :
  Colour.yuvToRgb 64 Sample.geometry_2 Sample.frame_4x4
  = Layout.window Sample.geometry_2 Sample.frame_4x4.
Proof.
  apply (yuvToRgb_is_window 64 Sample.geometry_2 Sample.frame_4x4).
  - lia.
  - apply geometry_2_ok.
  - apply geometry_2_ok.
Defined.

(** X8 on the 4 x 4 frame in a buffer that is longer than the frame. *)
Lemma yuvToRgb_reads_inside_frame_witness :
  Colour.yuvToRgb 64 Sample.geometry_2 Sample.frame_4x4
  = Colour.yuvToRgb 64 Sample.geometry_2 (Sample.frame_4x4 ++ [7; 7]).
Proof.
  apply (yuvToRgb_reads_inside_frame 64 Sample.geometry_2 Sample.frame_4x4
           (Sample.frame_4x4 ++ [7; 7])).
  - lia.
  - apply geometry_2_ok.
  - apply geometry_2_ok.
  - intros p Hp. symmetry. apply load_app_l.
    change (Colour.frame_bytes Sample.geometry_2) with 24 in Hp.
    change (Z.of_nat (length Sample.frame_4x4)) with 24. exact Hp.
Defined.

(** X9 on the 4 x 4 frame, whose chroma is neutral. *)
Lemma yuvToRgb_neutral_chroma_witness :
  Colour.yuvToRgb 64 Sample.geometry_2 Sample.frame_4x4
  = Layout.raster (Layout.grey Sample.geometry_2 Sample.frame_4x4) Sample.geometry_2.
Proof.
  apply (yuvToRgb_neutral_chroma 64 Sample.geometry_2 Sample.frame_4x4).
  - lia.
  - apply geometry_2_ok.
  - apply geometry_2_ok.
  - intros p Hp. change (Colour.lores_h Sample.geometry_2 * Colour.lores_stride Sample.geometry_2)
      with 16 in Hp.
    unfold Sample.frame_4x4. rewrite load_app_l by (cbn; lia).
    apply load_Forall; [|cbn; lia].
    repeat constructor; unfold Colour.is_byte; lia.
  - intros p Hp. change (Colour.lores_h Sample.geometry_2 * Colour.lores_stride Sample.geometry_2)
      with 16 in Hp.
    change (Colour.frame_bytes Sample.geometry_2) with 24 in Hp.
    unfold Sample.frame_4x4. rewrite load_app_r by (cbn; lia).
    apply load_replicate. cbn. lia.
Defined.

(** ** Loading and configuration *)

Section Loading.
Context {Model : Type} {backend : Stage.Backend Model}.
Context {translator : Stage.Translator}.

Lemma input_size_exact (bits : Z) (s : Stage.TfStage) (e : Z) :
  Stage.input_size_fits bits s -> 1 <= e <= Stage.sizeof_float ->
  CInt.size_mul bits
    (CInt.to_size_t bits (CInt.mul (CInt.mul (Stage.tf_w_ s) (Stage.tf_h_ s)) 3)) e
  = Stage.tf_w_ s * Stage.tf_h_ s * 3 * e.
Proof.
  intros (Hw & Hh & Hp & Hb) He.
  unfold CInt.size_mul, CInt.to_size_t, CInt.mul, CInt.INT_MAX, Stage.sizeof_float in *.
  assert (0 < Stage.tf_w_ s * Stage.tf_h_ s) by nia.
  rewrite (wrap_small (Stage.tf_w_ s * Stage.tf_h_ s))
    by (unfold CInt.in_int, CInt.INT_MIN, CInt.INT_MAX; lia).
  rewrite wrap_small by (unfold CInt.in_int, CInt.INT_MIN, CInt.INT_MAX; lia).
  rewrite (Z.mod_small (Stage.tf_w_ s * Stage.tf_h_ s * 3)) by nia.
  apply Z.mod_small. nia.
Qed.

(** C5.  Once the model is loaded and its tensors are allocated,
    [initialise] throws when the input tensor's element type is neither
    [uint8] nor [float32], and throws a size mismatch when
    [tf_w * tf_h * 3 * elementSize] is not the tensor's byte size; it
    succeeds otherwise.  [Read] calls it before the stage is configured and
    passes the exception on, so no stage is left to process a frame. *)
Theorem initialise_checks_input (bits : Z) (s : Stage.TfStage)
    (m : Model) (i0 i : Stage.Interpreter) :
  Stage.BuildFromFile (Stage.model_file (Stage.config_ s)) = Some m ->
  Stage.InterpreterBuilder m = Some i0 ->
  Stage.AllocateTensors
    (if Stage.number_of_threads (Stage.config_ s) =? -1 then i0
     else Stage.SetNumThreads (Stage.number_of_threads (Stage.config_ s)) i0)
  = (Stage.kTfLiteOk, i) ->
  Stage.input_size_fits bits s ->
  (Stage.element_size (Stage.input_type i) = None ->
   (Stage.initialise bits s).1
   = Stage.Throw "TfStage: Input tensor data type not supported") /\
  (forall e, Stage.element_size (Stage.input_type i) = Some e ->
     Stage.tf_w_ s * Stage.tf_h_ s * 3 * e <> Stage.input_bytes i ->
     (Stage.initialise bits s).1 = Stage.Throw "TfStage: Input tensor size mismatch") /\
  (forall e, Stage.element_size (Stage.input_type i) = Some e ->
     Stage.tf_w_ s * Stage.tf_h_ s * 3 * e = Stage.input_bytes i ->
     (Stage.initialise bits s).1 = Stage.Ok (Stage.set_interpreter_ (Some i) s)) /\
  (forall readExtras params s0 what,
     s = Stage.set_config_ (Stage.read_config params) s0 ->
     (Stage.initialise bits s).1 = Stage.Throw what ->
     (Stage.Read bits readExtras params s0).1 = Stage.Throw what).
Proof.
  intros Hm Hi Ha Hfit.
  assert (E : forall e, Stage.element_size (Stage.input_type i) = Some e ->
              (Stage.initialise bits s).1
              = if negb (Stage.tf_w_ s * Stage.tf_h_ s * 3 * e =? Stage.input_bytes i)
                then Stage.Throw "TfStage: Input tensor size mismatch"
                else Stage.Ok (Stage.set_interpreter_ (Some i) s)).
  { intros e He. unfold Stage.initialise. rewrite Hm, Hi, Ha. cbn.
    destruct (Stage.input_type i); inversion He; subst; cbn;
      rewrite input_size_exact by (assumption || (unfold Stage.sizeof_uint8_t, Stage.sizeof_float; lia));
      reflexivity. }
  repeat split.
  - intros He. unfold Stage.initialise. rewrite Hm, Hi, Ha. cbn.
    destruct (Stage.input_type i); try reflexivity; discriminate He.
  - intros e He Hne. rewrite (E e He).
    destruct (Z.eqb_spec (Stage.tf_w_ s * Stage.tf_h_ s * 3 * e) (Stage.input_bytes i));
      [contradiction | reflexivity].
  - intros e He Heq. rewrite (E e He).
    destruct (Z.eqb_spec (Stage.tf_w_ s * Stage.tf_h_ s * 3 * e) (Stage.input_bytes i));
      [reflexivity | contradiction].
  - intros readExtras params s0 what -> Hthrow. unfold Stage.Read.
    destruct (Stage.initialise bits _) as [r out]. cbn in *. now rewrite Hthrow.
Qed.

End Loading.

(** C5 on a float model whose input tensor has the byte size of a [uint8] one. *)
Lemma initialise_checks_input_witness :
  (Stage.initialise (backend := Sample.engine Stage.kTfLiteFloat32 150528 true) 64
     Sample.stage_224).1
  = Stage.Throw "TfStage: Input tensor size mismatch".
Proof.
  refine (proj1 (proj2
            (initialise_checks_input (backend := Sample.engine Stage.kTfLiteFloat32 150528 true)
               (translator := Sample.translator)
               64 Sample.stage_224 tt _ _ eq_refl eq_refl eq_refl _)) 4 eq_refl _).
  - unfold Stage.input_size_fits, CInt.INT_MAX, Stage.sizeof_float. simpl. lia.
  - simpl. lia.
Defined.

Section Startup.
Context {Model : Type} {backend : Stage.Backend Model}.
Context {translator : Stage.Translator}.

(** What [initialise] leaves of the stage it was given. *)
Lemma initialise_Ok (bits : Z) (s s' : Stage.TfStage) :
  (Stage.initialise bits s).1 = Stage.Ok s' ->
  exists i, s' = Stage.set_interpreter_ (Some i) s.
Proof.
  unfold Stage.initialise. intros H.
  repeat (case_match; cbn in H; try discriminate); simplify_eq; eauto.
Qed.

(** X1.  A stage that was constructed, read and configured without an
    exception: its model dimensions are positive, it has an interpreter, no
    task was launched, its options are those of the tree with the defaults
    for the rest, and the low resolution path is enabled only when the
    image is at least as large as the model input. *)
Theorem startup_establishes (bits : Z) (tf_w tf_h : Z)
    (readExtras : Stage.ptree -> Stage.result unit) (params : Stage.ptree)
    (check : Stage.TfStage -> Stage.result unit) (app : Stage.App)
    (s0 s1 s2 : Stage.TfStage) :
  Stage.TfStage_new tf_w tf_h = Stage.Ok s0 ->
  (Stage.Read bits readExtras params s0).1 = Stage.Ok s1 ->
  (Stage.Configure check app s1).1 = Stage.Ok s2 ->
  0 < Stage.tf_w_ s2 /\ 0 < Stage.tf_h_ s2 /\
  is_Some (Stage.interpreter_ s2) /\
  Stage.future_ s2 = None /\
  Stage.config_ s2 = Stage.read_config params /\
  (is_Some (Stage.lores_stream_ s2) ->
   Stage.tf_w_ s2 <= Stage.lores_w_ s2 /\ Stage.tf_h_ s2 <= Stage.lores_h_ s2).
Proof.
  intros Hnew Hread Hconf.
  unfold Stage.TfStage_new in Hnew.
  destruct (Z.leb_spec tf_w 0); [discriminate|].
  destruct (Z.leb_spec tf_h 0); [discriminate|]. cbn in Hnew. inversion Hnew; subst s0; clear Hnew.
  unfold Stage.Read in Hread.
  destruct (Stage.initialise bits _) as [r out] eqn:Ei. cbn in Hread.
  destruct r as [s'|]; [|discriminate]. cbn in Hread.
  destruct (readExtras params); [|discriminate]. cbn in Hread. inversion Hread; subst s'; clear Hread.
  assert (Ei' : (Stage.initialise bits
                   (Stage.set_config_ (Stage.read_config params)
                      {| Stage.tf_w_ := tf_w; Stage.tf_h_ := tf_h;
                         Stage.config_ := Stage.empty_config;
                         Stage.interpreter_ := None;
                         Stage.lores_stream_ := None; Stage.lores_w_ := 0;
                         Stage.lores_h_ := 0; Stage.lores_stride_ := 0;
                         Stage.main_stream_ := None; Stage.main_w_ := 0;
                         Stage.main_h_ := 0; Stage.main_stride_ := 0;
                         Stage.future_ := None; Stage.tensor_input_ := [] |})).1
                = Stage.Ok s1) by now rewrite Ei.
  apply initialise_Ok in Ei' as (i & ->).
  unfold Stage.Configure in Hconf.
  destruct (Stage.Configure_streams app _) as [s out'] eqn:Ec. cbn in Hconf.
  destruct (check s); [|discriminate]. cbn in Hconf. inversion Hconf; subst s; clear Hconf.
  unfold Stage.Configure_streams in Ec. cbn in Ec.
  repeat (case_match; simplify_eq); cbn; repeat split; eauto; try lia.
  all: try (match goal with
            | H : is_Some None |- _ => destruct H as [? H']; discriminate H'
            end).
  all: match goal with
       | H : _ || _ = false |- _ =>
           apply orb_false_iff in H as [H1 H2];
           rewrite Z.gtb_ltb in H1, H2; apply Z.ltb_ge in H1, H2; assumption
       end.
Qed.
End Startup.

(** *** The outcomes of [initialise], [Read] and [Configure] *)

Section Outcomes.
Context {Model : Type} {backend : Stage.Backend Model}.
Context {translator : Stage.Translator}.

Lemma status_ok_iff (st : Stage.TfLiteStatus) :
  Stage.status_ok st = true <-> st = Stage.kTfLiteOk.
Proof. destruct st; cbn; split; congruence. Qed.

(** X3.  [initialise] succeeds exactly when the model file loads, an
    interpreter is built for it, its tensors are allocated, and the input
    tensor has an element type of 1 ([uint8]) or 4 ([float32]) bytes and
    [tf_w * tf_h * 3] elements; it then stores that interpreter and changes
    nothing else.  The thread count is set before the allocation unless it
    is -1.  [Read] succeeds exactly when [initialise] does on the options
    read and [readExtras] does. *)
Theorem initialise_Ok_iff (bits : Z) (s s' : Stage.TfStage) :
  Stage.input_size_fits bits s ->
  ((Stage.initialise bits s).1 = Stage.Ok s' <->
   exists m i0 i e,
     Stage.BuildFromFile (Stage.model_file (Stage.config_ s)) = Some m /\
     Stage.InterpreterBuilder m = Some i0 /\
     Stage.AllocateTensors
       (if Stage.number_of_threads (Stage.config_ s) =? -1 then i0
        else Stage.SetNumThreads (Stage.number_of_threads (Stage.config_ s)) i0)
     = (Stage.kTfLiteOk, i) /\
     Stage.element_size (Stage.input_type i) = Some e /\
     Stage.tf_w_ s * Stage.tf_h_ s * 3 * e = Stage.input_bytes i /\
     s' = Stage.set_interpreter_ (Some i) s) /\
  (forall readExtras params s0,
     s = Stage.set_config_ (Stage.read_config params) s0 ->
     ((Stage.Read bits readExtras params s0).1 = Stage.Ok s' <->
      (Stage.initialise bits s).1 = Stage.Ok s' /\ readExtras params = Stage.Ok tt)).
Proof.
  intros Hfit. split.
  - split.
    + intros H. unfold Stage.initialise in H.
      destruct (Stage.BuildFromFile _) as [m|] eqn:Em; [|discriminate H].
      destruct (Stage.InterpreterBuilder m) as [i0|] eqn:Ei; [|discriminate H].
      destruct (Stage.AllocateTensors _) as [st i] eqn:Ea.
      destruct st; try discriminate H. cbn in H.
      exists m, i0, i.
      destruct (Stage.input_type i) eqn:Et; try discriminate H; cbn in H;
        rewrite input_size_exact in H
          by (assumption || (unfold Stage.sizeof_uint8_t, Stage.sizeof_float; lia));
        match type of H with
        | context [?a =? ?b] => destruct (Z.eqb_spec a b) as [Eq|]; [|discriminate H]
        end; cbn in H; inversion H; subst s'; eexists; repeat split; reflexivity || eassumption.
    + intros (m & i0 & i & e & Em & Ei & Ea & Ee & Eq & ->).
      unfold Stage.initialise. rewrite Em, Ei, Ea. cbn.
      destruct (Stage.input_type i); inversion Ee; subst e; cbn;
        rewrite input_size_exact
          by (assumption || (unfold Stage.sizeof_uint8_t, Stage.sizeof_float; lia));
        rewrite Eq, Z.eqb_refl; reflexivity.
  - intros readExtras params s0 ->. unfold Stage.Read.
    destruct (Stage.initialise bits _) as [r out]. cbn.
    destruct r as [s1|what]; cbn.
    + destruct (readExtras params) as [[]|what]; cbn; split.
      * intros H. now split.
      * now intros [H _].
      * discriminate.
      * intros [_ H]. discriminate H.
    + split; [discriminate | intros [H _]; discriminate H].
Qed.

(** X4.  The checks of [initialise] before the input tensor is looked at,
    in their order: a model file that does not load, a model no interpreter
    is built for, tensors that are not allocated; each throws its own
    message.  "Loaded model" is written exactly when the file loaded,
    whatever fails later.  After a successful [initialise], [Read] throws
    only what [readExtras] throws, and writes nothing more. *)
Theorem initialise_early_failures (bits : Z) (s : Stage.TfStage) :
  let file := Stage.model_file (Stage.config_ s) in
  let n := Stage.number_of_threads (Stage.config_ s) in
  (Stage.BuildFromFile file = None ->
   Stage.initialise bits s = (Stage.Throw "TfStage: Failed to load model", [])) /\
  (forall m, Stage.BuildFromFile file = Some m ->
     Stage.InterpreterBuilder m = None ->
     Stage.initialise bits s
     = (Stage.Throw "TfStage: Failed to construct interpreter", [Stage.LoadedModel file])) /\
  (forall m i0 st i, Stage.BuildFromFile file = Some m ->
     Stage.InterpreterBuilder m = Some i0 ->
     Stage.AllocateTensors (if n =? -1 then i0 else Stage.SetNumThreads n i0) = (st, i) ->
     st <> Stage.kTfLiteOk ->
     Stage.initialise bits s
     = (Stage.Throw "TfStage: Failed to allocate tensors", [Stage.LoadedModel file])) /\
  (forall m, Stage.BuildFromFile file = Some m ->
     (Stage.initialise bits s).2 = [Stage.LoadedModel file]) /\
  (forall readExtras params s0 s',
     s = Stage.set_config_ (Stage.read_config params) s0 ->
     (Stage.initialise bits s).1 = Stage.Ok s' ->
     (Stage.Read bits readExtras params s0).1
     = Stage.bind (readExtras params) (fun _ => Stage.Ok s') /\
     (Stage.Read bits readExtras params s0).2 = (Stage.initialise bits s).2).
Proof.
  intros file n. subst file n. refine (conj _ (conj _ (conj _ (conj _ _)))).
  - intros Em. unfold Stage.initialise. now rewrite Em.
  - intros m Em Ei. unfold Stage.initialise. now rewrite Em, Ei.
  - intros m i0 st i Em Ei Ea Hst. unfold Stage.initialise. rewrite Em, Ei, Ea.
    destruct st; [contradiction | reflexivity..].
  - intros m Em. unfold Stage.initialise. rewrite Em.
    destruct (Stage.InterpreterBuilder m) as [i0|]; [|reflexivity].
    destruct (Stage.AllocateTensors _) as [st i1]. destruct (negb _); reflexivity.
  - intros readExtras params s0 s' -> Hok. unfold Stage.Read.
    destruct (Stage.initialise bits _) as [r out]. cbn in *. subst r. split; reflexivity.
Qed.

End Outcomes.

Section Options.
Context {translator : Stage.Translator}.

(** A key that is not in the tree has no child. *)
Lemma get_child_absent (name : string) (params : Stage.ptree) :
  ~ In name (map fst params) -> Stage.get_child name params = None.
Proof.
  induction params as [|[k v] rest IH]; intros Hn; [reflexivity|]. cbn in *.
  destruct (String.eqb_spec k name) as [->|Hne]; [exfalso; auto | apply IH; auto].
Qed.

(** X2.  An option that is absent from the tree takes its default: 2
    threads, a refresh rate of 5, no model file, not verbose, and 127.5 for
    the offset and the scale of the normalisation. *)
Theorem read_config_absent (params : Stage.ptree) :
  (~ In "number_of_threads"%string (map fst params) ->
   Stage.number_of_threads (Stage.read_config params) = 2) /\
  (~ In "refresh_rate"%string (map fst params) ->
   Stage.refresh_rate (Stage.read_config params) = 5) /\
  (~ In "model_file"%string (map fst params) ->
   Stage.model_file (Stage.read_config params) = EmptyString) /\
  (~ In "verbose"%string (map fst params) ->
   Stage.verbose (Stage.read_config params) = 0) /\
  (~ In "normalisation_offset"%string (map fst params) ->
   Stage.normalisation_offset (Stage.read_config params) = Stage.default_normalisation) /\
  (~ In "normalisation_scale"%string (map fst params) ->
   Stage.normalisation_scale (Stage.read_config params) = Stage.default_normalisation) /\
  Stage.float_div (Stage.float_of_int 255) (Stage.float_of_int 2) = Stage.default_normalisation.
Proof.
  unfold Stage.read_config, Stage.get_int, Stage.get_string, Stage.get_float. cbn.
  repeat split; try (intros H; now rewrite (get_child_absent _ _ H)).
Qed.

End Options.

(** What [Configure] writes: the warning, between what a verbose stage
    reports of the two streams. *)
Lemma Configure_streams_out (app : Stage.App) (s : Stage.TfStage) :
  exists info_l info_m,
    (Stage.Configure_streams app s).2
    = (info_l ++ match Stage.lores_stream_ (Stage.Configure_streams app s).1,
                       Stage.LoresStream app with
                 | None, Some _ => [Stage.WarningLoresTooSmall]
                 | _, _ => []
                 end)
      ++ info_m /\
    ~ In Stage.WarningLoresTooSmall info_l /\ ~ In Stage.WarningLoresTooSmall info_m /\
    (Stage.verbose (Stage.config_ s) = 0 -> info_l = [] /\ info_m = []).
Proof.
  unfold Stage.Configure_streams.
  destruct (Stage.verbose (Stage.config_ s) =? 0) eqn:Ev; cbn [negb].
  - exists [], [].
    destruct (Stage.LoresStream app) as [p|];
      [destruct (Stage.StreamDimensions app p) as [[w h] stride];
       destruct ((Stage.tf_w_ s >? w) || (Stage.tf_h_ s >? h))|];
      (destruct (Stage.GetMainStream app) as [q|];
       [destruct (Stage.StreamDimensions app q) as [[mw mh] mstride]|]);
      cbn; auto.
  - apply Z.eqb_neq in Ev.
    destruct (Stage.LoresStream app) as [p|];
      [destruct (Stage.StreamDimensions app p) as [[w h] stride];
       destruct ((Stage.tf_w_ s >? w) || (Stage.tf_h_ s >? h))|];
      (destruct (Stage.GetMainStream app) as [q|];
       [destruct (Stage.StreamDimensions app q) as [[mw mh] mstride]|]);
      cbn; eexists [_], [_];
      (split; [reflexivity|]); (split; [|split]);
      try (intros [F|[]]; discriminate F); intros F; contradiction.
Qed.

(** What [Configure] records of the two streams. *)
Lemma Configure_streams_lores (app : Stage.App) (s : Stage.TfStage) :
  Stage.lores_stream_ (Stage.Configure_streams app s).1
  = match Stage.LoresStream app with
    | Some p =>
        if (Stage.tf_w_ s >? (Stage.StreamDimensions app p).1.1)
           || (Stage.tf_h_ s >? (Stage.StreamDimensions app p).1.2)
        then None else Some p
    | None => None
    end /\
  (Stage.lores_w_ (Stage.Configure_streams app s).1,
   Stage.lores_h_ (Stage.Configure_streams app s).1,
   Stage.lores_stride_ (Stage.Configure_streams app s).1)
  = match Stage.LoresStream app with
    | Some p => Stage.StreamDimensions app p
    | None => (0, 0, 0)
    end /\
  Stage.main_stream_ (Stage.Configure_streams app s).1 = Stage.GetMainStream app /\
  (Stage.main_w_ (Stage.Configure_streams app s).1,
   Stage.main_h_ (Stage.Configure_streams app s).1,
   Stage.main_stride_ (Stage.Configure_streams app s).1)
  = match Stage.GetMainStream app with
    | Some p => Stage.StreamDimensions app p
    | None => (0, 0, 0)
    end.
Proof.
  unfold Stage.Configure_streams.
  destruct (Stage.LoresStream app) as [p|];
    [destruct (Stage.StreamDimensions app p) as [[w h] stride]; cbn [fst snd];
     destruct ((Stage.tf_w_ s >? w) || (Stage.tf_h_ s >? h))|];
    (destruct (Stage.GetMainStream app) as [q|];
     [destruct (Stage.StreamDimensions app q) as [[mw mh] mstride]|]);
    cbn; auto.
Qed.

(** X5.  [Configure] enables the low resolution path exactly when the
    application has a low resolution stream that is at least as wide and as
    high as the model input, and writes the warning exactly when it has one
    that is not.  The dimensions of the stream are recorded either way, and
    are 0 without a stream; the main stream and its dimensions are recorded
    likewise.  A stage that is not verbose writes nothing but the
    warning. *)
Theorem Configure_streams_spec (app : Stage.App) (s : Stage.TfStage) :
  let s' := (Stage.Configure_streams app s).1 in
  let out := (Stage.Configure_streams app s).2 in
  (forall p, Stage.lores_stream_ s' = Some p <->
     Stage.LoresStream app = Some p /\
     Stage.tf_w_ s <= (Stage.StreamDimensions app p).1.1 /\
     Stage.tf_h_ s <= (Stage.StreamDimensions app p).1.2) /\
  (In Stage.WarningLoresTooSmall out <->
     exists p, Stage.LoresStream app = Some p /\
       (Stage.tf_w_ s > (Stage.StreamDimensions app p).1.1 \/
        Stage.tf_h_ s > (Stage.StreamDimensions app p).1.2)) /\
  (Stage.lores_w_ s', Stage.lores_h_ s', Stage.lores_stride_ s')
  = match Stage.LoresStream app with
    | Some p => Stage.StreamDimensions app p
    | None => (0, 0, 0)
    end /\
  Stage.main_stream_ s' = Stage.GetMainStream app /\
  (Stage.main_w_ s', Stage.main_h_ s', Stage.main_stride_ s')
  = match Stage.GetMainStream app with
    | Some p => Stage.StreamDimensions app p
    | None => (0, 0, 0)
    end /\
  (Stage.verbose (Stage.config_ s) = 0 ->
   out = [] \/ out = [Stage.WarningLoresTooSmall]).
Proof.
  intros s' out. subst s' out.
  destruct (Configure_streams_lores app s) as (El & Ed & Em & Emd).
  destruct (Configure_streams_out app s) as (il & im & Eo & Hil & Him & Hq).
  rewrite Eo, El. clear Eo El.
  refine (conj _ (conj _ (conj Ed (conj Em (conj Emd _))))).
  - intros p. destruct (Stage.LoresStream app) as [p0|].
    + destruct (Z.gtb_spec (Stage.tf_w_ s) (Stage.StreamDimensions app p0).1.1) as [Gw|Gw];
        destruct (Z.gtb_spec (Stage.tf_h_ s) (Stage.StreamDimensions app p0).1.2) as [Gh|Gh]; cbn.
      all: split; [intros H; inversion H; subst; repeat split; lia
                  | intros (H & Hw & Hh); inversion H; subst; try reflexivity; lia].
    + split; [discriminate | intros (H & _); discriminate H].
  - rewrite !in_app_iff. destruct (Stage.LoresStream app) as [p0|].
    + destruct (Z.gtb_spec (Stage.tf_w_ s) (Stage.StreamDimensions app p0).1.1) as [Gw|Gw];
        destruct (Z.gtb_spec (Stage.tf_h_ s) (Stage.StreamDimensions app p0).1.2) as [Gh|Gh]; cbn.
      1-3: split; [intros _; exists p0; split; [reflexivity | lia] | intros _; left; right; now left].
      split; [intros [[F|[]]|F]; contradiction|].
      intros (p & H & Hs); inversion H; subst; lia.
    + cbn. split; [intros [[F|[]]|F]; contradiction | intros (p & H & _); discriminate H].
  - intros Hv. destruct (Hq Hv) as (-> & ->). cbn. rewrite app_nil_r.
    destruct (Stage.LoresStream app); [|now left].
    destruct (_ || _); auto.
Qed.

(** X6.  [Configure] starts from scratch: configuring a stage that was
    configured before gives what configuring it afresh gives, so no
    geometry of an earlier configuration survives.  It leaves the model
    dimensions, the options, the interpreter, the future and the snapshot
    alone. *)
Theorem Configure_streams_again (app app' : Stage.App) (s : Stage.TfStage) :
  let s' := (Stage.Configure_streams app' s).1 in
  Stage.Configure_streams app s' = Stage.Configure_streams app s /\
  Stage.tf_w_ s' = Stage.tf_w_ s /\ Stage.tf_h_ s' = Stage.tf_h_ s /\
  Stage.config_ s' = Stage.config_ s /\ Stage.interpreter_ s' = Stage.interpreter_ s /\
  Stage.future_ s' = Stage.future_ s /\ Stage.tensor_input_ s' = Stage.tensor_input_ s.
Proof.
  intros s'. subst s'. unfold Stage.Configure_streams.
  repeat (case_match; simplify_eq); cbn in *; simplify_eq; repeat split; congruence.
Qed.

(** ** Scheduling *)

Import Stage Sched.

Section Scheduling.
Context {Results Meta Model : Type}.
Context {backend : Backend Model} {hooks : Hooks Results Meta}.
Variable u : bool.
Variable bits : Z.

Local Abbreviation world := (Sched.world Results Meta).

Lemma exec_invariant (I : world -> Prop) :
  (forall w w' e, I w -> step u bits w e = Some w' -> I w') ->
  forall evs w w', I w -> exec u bits w evs = Some w' -> I w'.
Proof.
  intros Hstep evs. induction evs as [|e evs IH]; intros w w' HI Hx; simpl in Hx.
  - inversion Hx; subst; assumption.
  - destruct (step u bits w e) as [w1|] eqn:E; [|discriminate].
    eapply IH; [|eassumption]. eapply Hstep; eassumption.
Qed.

Ltac step_cases H :=
  unfold step, step_frame, step_task, step_stop in H;
  repeat (case_match; try discriminate); simplify_eq.


Ltac split_lookups :=
  repeat match goal with
  | H : <[_:=_]> _ !! _ = Some _ |- _ =>
      apply list_lookup_insert_Some in H as [(? & ? & ?)|(? & H)]
  | H : (_ ++ [_]) !! _ = Some _ |- _ =>
      apply lookup_app_Some in H as [H|(? & H)]
  | H : [_] !! _ = Some _ |- _ =>
      apply list_lookup_singleton_Some in H as [? ?]
  end; simplify_eq; try discriminate.


Lemma fill_input_future (s : TfStage) : future_ (fill_input s) = future_ s.
Proof.
  unfold fill_input. destruct (interpreter_ s); [|reflexivity].
  destruct (input_type i); reflexivity.
Qed.

Lemma launch_due_finished (w : world) (r : CompletedRequest Meta) :
  slot_inv w -> launch_due u w r = true ->
  Forall (fun t => finished t = true) (tasks w).
Proof.
  intros (Hslot & Hold & _ & _) Hd. unfold launch_due in Hd.
  destruct (refresh_rate (config_ (stage w)) =? 0); [discriminate|].
  destruct (negb _); [discriminate|].
  destruct (future_ (stage w)) as [k|].
  - apply Forall_lookup. intros j t Hj.
    destruct (decide (j = k)) as [->|Hne].
    + unfold task_ready in Hd. now rewrite Hj in Hd.
    + apply (Hold j t Hj). apply lookup_lt_Some in Hj. lia.
  - rewrite Hslot. constructor.
Qed.

Ltac slot_task :=
  match goal with
  | Hk : tasks ?w !! _ = Some _, Hs : match future_ (stage ?w) with _ => _ end
    |- match future_ _ with _ => _ end =>
      rewrite ?fill_input_future; cbn;
      destruct (future_ (stage w));
      [rewrite length_insert; exact Hs | rewrite Hs in Hk; discriminate Hk]
  | Hk : tasks ?w !! _ = Some _, Hold : forall j t, tasks ?w !! j = Some t -> _
    |- forall j t, <[_:=_]> (tasks ?w) !! j = Some t -> _ =>
      let j := fresh "j" in let t := fresh "t" in
      let Hj := fresh "Hj" in let Hlt := fresh "Hlt" in
      intros j t Hj Hlt; rewrite length_insert in Hlt;
      apply list_lookup_insert_Some in Hj as [(? & ? & ?)|(? & Hj)]; simplify_eq;
      [ pose proof (Hold _ _ Hk Hlt) as F; discriminate F | exact (Hold _ _ Hj Hlt) ]
  | Hk : tasks ?w !! _ = Some _, Hl : forall tid r, frames ?w !! tid = Some (Launching r) -> _
    |- forall tid r, frames ?w !! tid = Some (Launching r) -> _ =>
      let tid := fresh "tid" in let r := fresh "r" in let Hfr := fresh "Hfr" in
      intros tid r Hfr; exfalso; pose proof (Hl _ _ Hfr) as F;
      eapply Forall_lookup_1 in F; [|exact Hk]; discriminate F
  end.

Lemma slot_inv_step (w w' : world) (e : event) :
  slot_inv w -> step u bits w e = Some w' -> slot_inv w'.
Proof.
  intros Hinv Hs.
  step_cases Hs; pose proof Hinv as (Hslot & Hold & Hmx & Hl); unfold slot_inv; cbn.
  all: repeat split.
  all: try assumption.
  all: try (intros; split_lookups; eauto; fail).
  all: try (slot_task; fail).
  - intros tid0 pc Hlk Hin. split_lookups; [reflexivity|].
    pose proof (Hmx _ _ Hlk Hin). congruence.
  - intros tid0 r0 Hlk. split_lookups; [eapply launch_due_finished; eassumption | eauto].
  - rewrite length_app. simpl. lia.
  - intros j t Hj Hlt. rewrite length_app in Hlt. simpl in Hlt.
    split_lookups.
    + pose proof (Hl _ _ H0) as F. eapply Forall_lookup_1 in F; [|exact Hj]. exact F.
    + lia.
  - intros tid0 r0 Hlk. split_lookups.
    pose proof (Hmx _ _ Hlk eq_refl). pose proof (Hmx _ _ H0 eq_refl). congruence.
  - intros tid0 pc Hlk Hin. split_lookups.
    pose proof (Hmx _ _ Hlk Hin). pose proof (Hmx _ _ H0 eq_refl). congruence.
Qed.


(** Every fact the output invariant gives about the holder of the mutex. *)
Ltac output_facts Hfr Htk :=
  repeat match goal with
  | H : frames ?w !! ?tid = Some ?pc |- _ =>
      assert_fails (idtac; match goal with
                           | F : output_mutex_ w = Some (FrameThread tid) |- _ => idtac
                           end);
      let F := fresh "F" in
      assert (F : output_mutex_ w = Some (FrameThread tid))
        by (apply (Hfr tid pc H); solve [reflexivity | assumption])
  | H : tasks ?w !! ?k = Some ?t |- _ =>
      assert_fails (idtac; match goal with
                           | F : output_mutex_ w = Some (TaskThread k) |- _ => idtac
                           end);
      let F := fresh "F" in
      assert (F : output_mutex_ w = Some (TaskThread k))
        by (apply (Htk k t H); solve [reflexivity | assumption])
  end.

(** The holder of a mutex is still in its section after another thread
    has moved. *)
Ltac holder_stays Hholder :=
  let x := fresh "x" in let Hm := fresh "Hm" in
  let y := fresh "y" in let Hy := fresh "Hy" in let Hsec := fresh "Hsec" in
  intros x Hm;
  first
    [ destruct (Hholder _ Hm) as (y & Hy & Hsec);
      lazymatch goal with
      | |- exists _, <[?i:=_]> _ !! _ = _ /\ _ =>
          destruct (decide (x = i)) as [->|?];
          [ simplify_eq;
            first
              [ discriminate
              | eexists; split;
                [apply list_lookup_insert_eq; eapply lookup_lt_Some; eassumption
                |reflexivity] ]
          | exists y; split; [rewrite list_lookup_insert_ne by congruence; assumption | assumption] ]
      | |- exists _, (_ ++ _) !! _ = _ /\ _ =>
          exists y; split; [apply lookup_app_l_Some; assumption | assumption]
      | |- _ => exists y; split; assumption
      end
    | simplify_eq;
      eexists; split;
      [apply list_lookup_insert_eq; eapply lookup_lt_Some; eassumption | reflexivity] ].

Lemma output_inv_step (w w' : world) (e : event) :
  output_inv w -> step u bits w e = Some w' -> output_inv w'.
Proof.
  intros Hinv Hs.
  step_cases Hs; pose proof Hinv as (Hfr & Htk & Hof & Hot); unfold output_inv; cbn.
  all: repeat split.
  all: try assumption.
  all: try (intros; split_lookups; eauto; fail).
  all: try (holder_stays Hof; fail).
  all: try (holder_stays Hot; fail).
  all: try (intros; split_lookups; output_facts Hfr Htk; congruence).
Qed.

(** The configuration and the streams are read, never written. *)
Lemma fill_input_config (s : TfStage) :
  config_ (fill_input s) = config_ s /\ lores_stream_ (fill_input s) = lores_stream_ s.
Proof.
  unfold fill_input. destruct (interpreter_ s); [|split; reflexivity].
  destruct (input_type i); split; reflexivity.
Qed.

Lemma launch_due_due (w : world) (r : CompletedRequest Meta) :
  sequence_ok u (sequence r) = true -> launch_due u w r = true ->
  due u (config_ (stage w)) (sequence r).
Proof.
  intros Hok Hd. unfold launch_due in Hd. unfold due.
  destruct (Z.eqb_spec (refresh_rate (config_ (stage w))) 0); [discriminate|].
  destruct (Z.eqb_spec (sequence_rem u (sequence r) (refresh_rate (config_ (stage w)))) 0);
    [|discriminate].
  auto.
Qed.



Lemma gate_inv_step (c : TfConfig) (p : option Stream) (w w' : world) (e : event) :
  gate_inv u c p w -> step u bits w e = Some w' -> gate_inv u c p w'.
Proof.
  intros Hinv Hs.
  step_cases Hs; pose proof Hinv as (Hc & Hp & Hok & Hdue & Hall);
    unfold gate_inv, launches in *; cbn.
  all: rewrite ?(proj1 (fill_input_config _)), ?(proj2 (fill_input_config _)).
  all: rewrite ?omap_app; cbn; rewrite ?app_nil_r.
  all: refine (conj _ (conj _ (conj _ (conj _ _)))).
  all: try assumption.
  all: try (intros; split_lookups; cbn in *; simplify_eq; eauto; fail).
  - intros tid0 r0 Hlk. split_lookups; [|eauto].
    apply launch_due_due; [|assumption]. eapply Hok; [eassumption|reflexivity].
  - apply Forall_app. split; [assumption|]. constructor; [|constructor]. eauto.
Qed.

Lemma applies_snoc (tid : nat) (t : list (obs Meta)) (o : obs Meta) :
  applies tid (t ++ [o]) = (applies tid t + if is_apply tid o then 1 else 0)%nat.
Proof.
  unfold applies. rewrite filter_app, length_app. f_equal.
  rewrite filter_cons, filter_nil. destruct (is_apply tid o); reflexivity.
Qed.

Lemma returns_snoc (tid : nat) (t : list (obs Meta)) (o : obs Meta) :
  returns tid (t ++ [o]) = (returns tid t + if is_return tid o then 1 else 0)%nat.
Proof.
  unfold returns. rewrite filter_app, length_app. f_equal.
  rewrite filter_cons, filter_nil. destruct (is_return tid o); reflexivity.
Qed.

Lemma apply_inv_step (c : TfConfig) (p : Stream) (w w' : world) (e : event) :
  gate_inv u c (Some p) w -> apply_inv w -> step u bits w e = Some w' -> apply_inv w'.
Proof.
  intros (_ & Hp & _) Hinv Hs.
  step_cases Hs; unfold apply_inv in *; cbn -[applies returns].
  all: intros tid0 pc0 Hlk; rewrite ?applies_snoc, ?returns_snoc; cbn -[applies returns].
  all: split_lookups.
  all: repeat match goal with
         | H : frames _ !! _ = Some _ |- _ => apply Hinv in H; cbn in H
         end.
  all: repeat match goal with
         | |- context [Nat.eqb ?a ?b] => destruct (Nat.eqb_spec a b); try congruence
         end.
  all: try lia.
Qed.

Lemma before_results_step (w w' : world) (e : event) (k : nat) :
  step u bits w e = Some w' ->
  before_results (tasks w' !! k) = true -> before_results (tasks w !! k) = true.
Proof.
  intros Hs.
  step_cases Hs; cbn; try (intros Hb; exact Hb).
  all: try (match goal with
            | H : tasks _ !! ?k' = Some _ |- _ =>
                destruct (decide (k = k')) as [->|Hne];
                [ rewrite H, list_lookup_insert_eq by (eapply lookup_lt_Some; eassumption);
                  cbn; congruence
                | rewrite list_lookup_insert_ne by congruence; congruence ]
            end).
  destruct (tasks w !! k) as [t|] eqn:E; [|reflexivity].
  now rewrite (lookup_app_l_Some _ _ _ _ E).
Qed.

Lemma failed_inv_step (w w' : world) (e : event) :
  failed_inv w -> step u bits w e = Some w' -> failed_inv w'.
Proof.
  intros Hinv Hs k Hb.
  pose proof (Hinv k (before_results_step w w' e k Hs Hb)) as Hold.
  step_cases Hs; cbn in *; try assumption.
  all: apply Forall_app; split; [assumption|].
  all: constructor; [|constructor]; cbn; try reflexivity.
  all: destruct (Nat.eqb_spec k0 k) as [->|Hne]; [|reflexivity].
  all: rewrite list_lookup_insert_eq in Hb by (eapply lookup_lt_Some; eassumption).
  all: discriminate Hb.
Qed.
(** *** The invariants hold before any frame *)

Lemma slot_inv_initial (s : TfStage) (res : Results) (n : nat) :
  future_ s = None -> slot_inv (initial (Meta := Meta) s res n).
Proof.
  intros Hf. unfold slot_inv, initial. cbn. rewrite Hf.
  refine (conj eq_refl (conj _ (conj _ _))).
  - intros j t Hj. discriminate Hj.
  - intros tid pc Hlk Hin. apply lookup_replicate_1 in Hlk as [-> _]. discriminate Hin.
  - intros tid r Hlk. apply lookup_replicate_1 in Hlk as [? _]. discriminate.
Qed.

Lemma output_inv_initial (s : TfStage) (res : Results) (n : nat) :
  output_inv (initial (Meta := Meta) s res n).
Proof.
  unfold output_inv, initial. cbn. refine (conj _ (conj _ (conj _ _))).
  - intros tid pc Hlk Hin. apply lookup_replicate_1 in Hlk as [-> _]. discriminate Hin.
  - intros k t Hk. discriminate Hk.
  - intros tid Hm. discriminate Hm.
  - intros k Hm. discriminate Hm.
Qed.

Lemma gate_inv_initial (s : TfStage) (res : Results) (n : nat) :
  gate_inv u (config_ s) (lores_stream_ s) (initial (Meta := Meta) s res n).
Proof.
  unfold gate_inv, initial. cbn. refine (conj eq_refl (conj eq_refl (conj _ (conj _ _)))).
  - intros tid pc r Hlk Hin. apply lookup_replicate_1 in Hlk as [-> _]. discriminate Hin.
  - intros tid r Hlk. apply lookup_replicate_1 in Hlk as [? _]. discriminate.
  - constructor.
Qed.

Lemma apply_inv_initial (s : TfStage) (res : Results) (n : nat) :
  apply_inv (initial (Meta := Meta) s res n).
Proof.
  intros tid pc Hlk. cbn in Hlk. apply lookup_replicate_1 in Hlk as [-> _]. reflexivity.
Qed.

Lemma failed_inv_initial (s : TfStage) (res : Results) (n : nat) :
  failed_inv (initial (Meta := Meta) s res n).
Proof. intros k _. constructor. Qed.

(** *** At most one task runs *)

Lemma running_at_most_one (l : list task_pc) :
  (forall j t, l !! j = Some t -> (S j < length l)%nat -> finished t = true) ->
  (length (filter (fun t => finished t = false) l) <= 1)%nat.
Proof.
  induction l as [|a l IH]; intros Hold; [cbn; lia|].
  destruct l as [|b l].
  - rewrite filter_cons, filter_nil. destruct (decide (finished a = false)); cbn; lia.
  - assert (Ha : finished a = true) by (apply (Hold 0%nat a eq_refl); cbn; lia).
    rewrite filter_cons. destruct (decide (finished a = false)); [congruence|].
    apply IH. intros j t Hj Hlt. apply (Hold (S j) t Hj). cbn in *. lia.
Qed.

Lemma running_none (l : list task_pc) :
  Forall (fun t => finished t = true) l <-> filter (fun t => finished t = false) l = [].
Proof.
  induction l as [|a l IH]; [split; [reflexivity | constructor]|].
  rewrite filter_cons. destruct (decide (finished a = false)) as [Ha|Ha].
  - split; [intros F; inversion F; congruence | discriminate].
  - rewrite <- IH. split.
    + intros F. now inversion F.
    + intros F. constructor; [|assumption]. now destruct (finished a).
Qed.

(** C1.  In every interleaving of [Process] calls, task steps and [Stop]
    steps, at most one inference task has not finished.  A step starts a
    task only when it is the step of a thread that holds [future_mutex_]
    and found [future_] null or its task finished, and then no other task
    is running; a thread that finds the task of [future_] still running
    goes on to release the mutex without starting one. *)
Theorem at_most_one_inference (s : TfStage) (res : Results) (n : nat)
    (evs : list event) (w : world) :
  future_ s = None ->
  exec u bits (initial (Meta := Meta) s res n) evs = Some w ->
  (length (running w) <= 1)%nat /\
  (forall e w', step u bits w e = Some w' -> (length (tasks w) < length (tasks w'))%nat ->
     exists tid r,
       e = Frame tid /\ frames w !! tid = Some (Launching r) /\
       future_mutex_ w = Some (FrameThread tid) /\
       match future_ (stage w) with
       | None => tasks w = []
       | Some k => task_ready w k = true
       end /\
       running w = [] /\ tasks w' = tasks w ++ [FillInput]) /\
  (forall tid r k,
     frames w !! tid = Some (AtGate r) ->
     future_ (stage w) = Some k -> task_ready w k = false ->
     step u bits w (Frame tid) = Some (set_frame tid (UnlockFuture r) w)).
Proof.
  intros Hf Hx.
  assert (Hinv : slot_inv w).
  { eapply (exec_invariant slot_inv); [apply slot_inv_step | | exact Hx].
    now apply slot_inv_initial. }
  refine (conj _ (conj _ _)).
  - apply running_at_most_one. apply Hinv.
  - intros e w' Hs Hlt.
    assert (G : exists tid r, e = Frame tid /\ frames w !! tid = Some (Launching r) /\
                              tasks w' = tasks w ++ [FillInput]).
    { step_cases Hs; cbn in Hlt; rewrite ?length_insert in Hlt; try lia. eauto. }
    destruct G as (tid & r & -> & Hfr & Ht).
    destruct Hinv as (Hslot & Hold & Hmx & Hl).
    exists tid, r. pose proof (Hl _ _ Hfr) as Hall.
    refine (conj eq_refl (conj Hfr (conj (Hmx _ _ Hfr eq_refl) (conj _ (conj _ Ht))))).
    + revert Hslot. destruct (future_ (stage w)) as [k|]; intros Hslot; [|assumption].
      unfold task_ready. destruct (tasks w !! k) as [t|] eqn:E.
      * eapply Forall_lookup_1 in Hall; [|exact E]. exact Hall.
      * apply lookup_ge_None in E. lia.
    + now apply running_none.
  - intros tid r k Hfr Hk Hr. cbn. unfold step_frame. rewrite Hfr.
    unfold launch_due. rewrite Hk, Hr. now repeat case_match.
Qed.

(** *** The launch condition *)

(** For a rate that is not 0, and not negative when the sequence number is
    unsigned, the remainder of line 103 is 0 exactly on the multiples of
    the rate. *)
Lemma sequence_rem_divide (seq rate : Z) :
  rate <> 0 -> (u = true -> 0 <= rate <= CInt.INT_MAX) ->
  sequence_rem u seq rate = 0 <-> (rate | seq).
Proof.
  unfold sequence_rem, CInt.to_unsigned. intros Hr Hu. destruct u.
  - specialize (Hu eq_refl). unfold CInt.INT_MAX in Hu.
    rewrite (Z.mod_small rate) by lia. apply Z.mod_divide. exact Hr.
  - apply Z.rem_divide. exact Hr.
Qed.

(** With an unsigned sequence number a negative rate is converted to
    [unsigned int] before the remainder is taken: the remainder is then 0
    on the multiples of [2 ^ 32 + rate]. *)
Lemma sequence_rem_negative (seq rate : Z) :
  u = true -> CInt.INT_MIN <= rate < 0 ->
  sequence_rem u seq rate = 0 <-> (2 ^ 32 + rate | seq).
Proof.
  unfold sequence_rem, CInt.to_unsigned, CInt.INT_MIN. intros -> Hr.
  replace (rate mod 2 ^ 32) with (2 ^ 32 + rate).
  - apply Z.mod_divide. lia.
  - apply Z.mod_unique with (-1); lia.
Qed.

Lemma launch_due_spec (w : world) (r : CompletedRequest Meta) :
  launch_due u w r = true <->
  refresh_rate (config_ (stage w)) <> 0 /\
  sequence_rem u (sequence r) (refresh_rate (config_ (stage w))) = 0 /\
  (future_ (stage w) = None \/
   exists k, future_ (stage w) = Some k /\ task_ready w k = true).
Proof.
  unfold launch_due.
  destruct (Z.eqb_spec (refresh_rate (config_ (stage w))) 0) as [E0|E0].
  { split; [discriminate | intros (H & _); contradiction]. }
  destruct (Z.eqb_spec (sequence_rem u (sequence r) (refresh_rate (config_ (stage w)))) 0)
    as [E1|E1]; cbn.
  2:{ split; [discriminate | intros (_ & H & _); contradiction]. }
  destruct (future_ (stage w)) as [k|].
  - split.
    + intros H. repeat split; try assumption. right. eauto.
    + intros (_ & _ & [H|(k' & H & Hr)]); [discriminate | congruence].
  - split; [|reflexivity]. intros _. repeat split; try assumption. now left.
Qed.

Lemma Process_tasks (w : world) (tid : nat) (r : CompletedRequest Meta) (p : Stream) :
  lores_stream_ (stage w) = Some p ->
  tasks (Process u bits tid r w).1.1
  = if launch_due u w r then tasks w ++ [FillInput] else tasks w.
Proof.
  intros Hl. unfold Process. rewrite Hl.
  destruct (launch_due u w r); cbn;
    match goal with |- context [applyResults ?a ?b ?c] => destruct (applyResults a b c) end;
    reflexivity.
Qed.

(** With a refresh rate of 0 no thread gets past the gate, so no task is
    ever started. *)
Lemma never_launched_step (c : TfConfig) (p : option Stream) (w w' : world) (e : event) :
  refresh_rate c = 0 ->
  gate_inv u c p w /\ tasks w = [] -> step u bits w e = Some w' ->
  gate_inv u c p w' /\ tasks w' = [].
Proof.
  intros Hc (Hg & Ht) Hs. split; [eapply gate_inv_step; eassumption|].
  destruct Hg as (_ & _ & _ & Hdue & _).
  step_cases Hs; cbn; try assumption.
  all: try (match goal with H : tasks _ !! _ = Some _ |- _ => rewrite Ht in H; discriminate H end).
  destruct (Hdue _ _ H0) as (Hne & _). contradiction.
Qed.

(** C2, as amended.  With the low resolution path enabled, [Process]
    launches an inference on a frame exactly when the refresh rate is not 0,
    the frame's sequence number is a multiple of it, and [future_] is null
    or the task it holds has finished.  With a refresh rate of 0 no
    interleaving ever launches one.  (The multiples are those of a rate that
    is not negative when the sequence number is an unsigned field.) *)
Theorem Process_launches_iff (w : world) (tid : nat) (r : CompletedRequest Meta)
    (p : Stream) (s : TfStage) (res : Results) (n : nat) (evs : list event) (w0 : world) :
  lores_stream_ (stage w) = Some p ->
  (u = true -> 0 <= refresh_rate (config_ (stage w)) <= CInt.INT_MAX) ->
  (tasks (Process u bits tid r w).1.1 = tasks w ++ [FillInput] <->
     refresh_rate (config_ (stage w)) <> 0 /\
     (refresh_rate (config_ (stage w)) | sequence r) /\
     (future_ (stage w) = None \/
      exists k, future_ (stage w) = Some k /\ task_ready w k = true)) /\
  (tasks (Process u bits tid r w).1.1 = tasks w ++ [FillInput] \/
   tasks (Process u bits tid r w).1.1 = tasks w) /\
  (refresh_rate (config_ s) = 0 ->
   exec u bits (initial s res n) evs = Some w0 ->
   tasks w0 = [] /\ launches (trace w0) = []).
Proof.
  intros Hl Hu. rewrite (Process_tasks w tid r p Hl).
  refine (conj _ (conj _ _)).
  - destruct (launch_due u w r) eqn:E.
    + split; [intros _|reflexivity].
      apply launch_due_spec in E as (H0 & H1 & H2).
      repeat split; try assumption. now apply sequence_rem_divide.
    + split.
      * intros H. apply (f_equal length) in H. rewrite length_app in H. cbn in H. lia.
      * intros (H0 & H1 & H2). apply sequence_rem_divide in H1; [|assumption..].
        assert (E' : launch_due u w r = true) by (apply launch_due_spec; auto).
        congruence.
  - destruct (launch_due u w r); [now left | now right].
  - intros Hc Hx.
    assert (G : gate_inv u (config_ s) (lores_stream_ s) w0 /\ tasks w0 = []).
    { eapply (exec_invariant (fun w => gate_inv u (config_ s) (lores_stream_ s) w /\ tasks w = []));
        [| |exact Hx].
      - intros ? ? ?. now apply never_launched_step.
      - split; [apply gate_inv_initial | reflexivity]. }
    destruct G as ((_ & _ & _ & _ & Hall) & Ht). split; [exact Ht|].
    destruct (launches (trace w0)) as [|seq l]; [reflexivity|].
    inversion Hall as [|? ? (Hne & _) _]. contradiction.
Qed.

(** Every launch of every interleaving is of a frame that was due. *)
Lemma launches_due (s : TfStage) (res : Results) (n : nat) (evs : list event) (w : world) :
  exec u bits (initial s res n) evs = Some w ->
  Forall (due u (config_ s)) (launches (trace w)).
Proof.
  intros Hx.
  assert (G : gate_inv u (config_ s) (lores_stream_ s) w).
  { eapply (exec_invariant (gate_inv u (config_ s) (lores_stream_ s)));
      [| apply gate_inv_initial | exact Hx].
    intros ? ? ?. apply gate_inv_step. }
  apply G.
Qed.

(** C3, as amended.  In every interleaving, each launch is of a frame that
    passed the rate gate: the refresh rate is not 0 and the remainder of
    line 103 is 0.  So the sequence number is a multiple of the rate; or,
    when the sequence number is unsigned and the rate negative, of the rate
    as line 103 converts it to [unsigned int], [2 ^ 32 + rate].  That the
    previous task is ready is never enough for [launch_due]: it is an
    alternative only to [future_] being null. *)
Theorem launches_only_when_due (s : TfStage) (res : Results) (n : nat)
    (evs : list event) (w : world) (seq : Z) :
  exec u bits (initial s res n) evs = Some w ->
  In seq (launches (trace w)) ->
  refresh_rate (config_ s) <> 0 /\
  sequence_rem u seq (refresh_rate (config_ s)) = 0 /\
  ((u = true -> 0 <= refresh_rate (config_ s) <= CInt.INT_MAX) ->
   (refresh_rate (config_ s) | seq)) /\
  (u = true -> CInt.INT_MIN <= refresh_rate (config_ s) < 0 ->
   (2 ^ 32 + refresh_rate (config_ s) | seq)) /\
  (forall (w1 : world) (r : CompletedRequest Meta),
     sequence_rem u (sequence r) (refresh_rate (config_ (stage w1))) <> 0 ->
     launch_due u w1 r = false).
Proof.
  intros Hx Hin. pose proof (launches_due s res n evs w Hx) as Hall.
  rewrite Forall_forall in Hall. apply list_elem_of_In in Hin.
  destruct (Hall seq Hin) as (H0 & H1 & _).
  refine (conj H0 (conj H1 (conj _ (conj _ _)))).
  - intros Hu. now apply sequence_rem_divide.
  - intros Hu Hneg. now apply sequence_rem_negative.
  - intros w1 r Hne. destruct (launch_due u w1 r) eqn:E; [|reflexivity].
    apply launch_due_spec in E as (_ & E & _). contradiction.
Qed.

(** *** A failed forward pass *)

Lemma finished_stays (k : nat) (b : bool) (w w' : world) (e : event) :
  tasks w !! k = Some (Finished b) -> step u bits w e = Some w' ->
  tasks w' !! k = Some (Finished b).
Proof.
  intros Hk Hs.
  step_cases Hs; cbn; try assumption.
  all: try (match goal with
            | H : tasks _ !! ?k' = Some _ |- _ =>
                rewrite list_lookup_insert_ne by congruence; assumption
            end).
  now apply lookup_app_l_Some.
Qed.

(** C6.  When the forward pass fails, the step that runs it ends the task
    with the exception in its future, and changes neither the results nor
    the holder of [output_mutex_]; the task takes no further step.  In
    every interleaving, a task that ended that way has never taken
    [output_mutex_] and never called [interpretOutputs]; and the only step
    of a task that writes the results is the call of [interpretOutputs]. *)
Theorem failed_inference_leaves_results (w : world) (k : nat) (i : Interpreter)
    (s : TfStage) (res : Results) (n : nat) (evs : list event) (w0 : world) :
  tasks w !! k = Some Invoking ->
  interpreter_ (stage w) = Some i ->
  status_ok (Invoke i).1 = false ->
  (exists w',
     step u bits w (Task k) = Some w' /\
     tasks w' !! k = Some (Finished true) /\
     results w' = results w /\
     output_mutex_ w' = output_mutex_ w /\
     trace w' = trace w /\
     forall evs' w'', exec u bits w' evs' = Some w'' ->
       tasks w'' !! k = Some (Finished true) /\ step u bits w'' (Task k) = None) /\
  (exec u bits (initial s res n) evs = Some w0 ->
   tasks w0 !! k = Some (Finished true) ->
   ~ In (ObsInterpret k) (trace w0) /\ ~ In (ObsLock (TaskThread k)) (trace w0)) /\
  (forall (w1 w2 : world) (j : nat),
     step u bits w1 (Task j) = Some w2 -> tasks w1 !! j <> Some Interpreting ->
     results w2 = results w1).
Proof.
  intros Hk Hi Hfail. refine (conj _ (conj _ _)).
  3:{ intros w1 w2 j Hs Hne. step_cases Hs; cbn; congruence. }
  - cbn. unfold step_task. rewrite Hk, Hi.
    destruct (Invoke i) as [status i'] eqn:E. cbn in Hfail. rewrite Hfail. cbn.
    eexists. split; [reflexivity|]. cbn.
    refine (conj _ (conj eq_refl (conj eq_refl (conj eq_refl _)))).
    + apply list_lookup_insert_eq. eapply lookup_lt_Some. exact Hk.
    + intros evs' w'' Hx.
      assert (G : tasks w'' !! k = Some (Finished true)).
      { eapply (exec_invariant (fun w => tasks w !! k = Some (Finished true)));
          [| |exact Hx].
        - intros ? ? ?. apply finished_stays.
        - cbn. apply list_lookup_insert_eq. eapply lookup_lt_Some. exact Hk. }
      split; [exact G|]. cbn. unfold step_task. now rewrite G.
  - intros Hx Hfin.
    assert (G : failed_inv w0).
    { eapply (exec_invariant failed_inv); [| apply failed_inv_initial | exact Hx].
      intros ? ? ?. apply failed_inv_step. }
    specialize (G k). rewrite Hfin in G. specialize (G eq_refl).
    rewrite Forall_forall in G.
    split; intros Hin; apply list_elem_of_In in Hin; apply G in Hin; cbn in Hin;
      rewrite Nat.eqb_refl in Hin; discriminate Hin.
Qed.

(** *** Results are attached to every frame *)

Lemma Process_enabled (w : world) (tid : nat) (r : CompletedRequest Meta) (p : Stream) :
  lores_stream_ (stage w) = Some p ->
  Process u bits tid r w
  = let w1 := if launch_due u w r then launch bits tid r w else w in
    let ar := applyResults (stage w1) (results w1) r in
    (observe (ObsReturn tid ar.2 false)
       (observe (ObsApply tid (sequence r))
          (set_results ar.1 (observe (ObsLock (FrameThread tid)) w1))),
     ar.2, false).
Proof.
  intros Hl. unfold Process. rewrite Hl. cbn.
  match goal with |- context [applyResults ?a ?b ?c] => destruct (applyResults a b c) end.
  reflexivity.
Qed.

(** C7, as amended.  With the low resolution path enabled, every call of
    [Process] calls [applyResults] on the frame it returns, whether it
    launched an inference or not; in every interleaving a thread has called
    [applyResults] once per return, and does so holding [output_mutex_]
    while no task is between taking and releasing it. *)
Theorem Process_applies_results (w : world) (tid : nat) (r : CompletedRequest Meta)
    (p : Stream) (s : TfStage) (res : Results) (n : nat) (evs : list event) (w0 : world) :
  lores_stream_ (stage w) = Some p ->
  (forall w1, w1 = (if launch_due u w r then launch bits tid r w else w) ->
     (Process u bits tid r w).1.2 = (applyResults (stage w1) (results w1) r).2 /\
     results (Process u bits tid r w).1.1 = (applyResults (stage w1) (results w1) r).1 /\
     applies tid (trace (Process u bits tid r w).1.1) = S (applies tid (trace w)) /\
     returns tid (trace (Process u bits tid r w).1.1) = S (returns tid (trace w))) /\
  (lores_stream_ s = Some p ->
   exec u bits (initial s res n) evs = Some w0 ->
   (forall tid' pc, frames w0 !! tid' = Some pc ->
      applies tid' (trace w0)
      = (returns tid' (trace w0) + match pc with Returning _ => 1 | _ => 0 end)%nat) /\
   (forall tid' r', frames w0 !! tid' = Some (Applying r') ->
      output_mutex_ w0 = Some (FrameThread tid') /\
      forall k t, tasks w0 !! k = Some t -> task_in_output_section t = false)).
Proof.
  intros Hl. split.
  - intros w1 ->. rewrite (Process_enabled w tid r p Hl). cbn -[applies returns].
    refine (conj eq_refl (conj eq_refl _)).
    rewrite !applies_snoc, !returns_snoc. cbn. rewrite Nat.eqb_refl.
    destruct (launch_due u w r); cbn -[applies returns];
      rewrite ?applies_snoc, ?returns_snoc; cbn; lia.
  - intros Hs Hx.
    assert (G : gate_inv u (config_ s) (Some p) w0 /\ apply_inv w0 /\ output_inv w0).
    { eapply (exec_invariant
                (fun w => gate_inv u (config_ s) (Some p) w /\ apply_inv w /\ output_inv w));
        [| |exact Hx].
      - intros w1 w2 e (Hg & Ha & Ho) Hstep.
        refine (conj _ (conj _ _)).
        + eapply gate_inv_step; eassumption.
        + eapply apply_inv_step; eassumption.
        + eapply output_inv_step; eassumption.
      - refine (conj _ (conj _ _)).
        + rewrite <- Hs. apply gate_inv_initial.
        + apply apply_inv_initial.
        + apply output_inv_initial. }
    destruct G as (_ & Ha & (Hfr & Htk & _ & _)). split; [exact Ha|].
    intros tid' r' Hlk. pose proof (Hfr _ _ Hlk eq_refl) as Hm. split; [exact Hm|].
    intros k t Hk. destruct (task_in_output_section t) eqn:E; [|reflexivity].
    pose proof (Htk _ _ Hk E). congruence.
Qed.

(** *** Shutdown *)




(** *** [Stop] returns *)


Lemma fill_input_interpreter (s : TfStage) :
  is_Some (interpreter_ s) -> is_Some (interpreter_ (fill_input s)).
Proof.
  intros [i Hi]. unfold fill_input. rewrite Hi.
  destruct (input_type i); cbn; eauto.
Qed.

Lemma interpreter_step (w w' : world) (e : event) :
  is_Some (interpreter_ (stage w)) -> step u bits w e = Some w' ->
  is_Some (interpreter_ (stage w')).
Proof.
  intros Hi Hs.
  step_cases Hs; cbn; eauto using fill_input_interpreter.
Qed.






(** *** A low resolution stream that is too small *)

Lemma Configure_streams_small (app : App) (s : TfStage) (p : Stream) (lw lh stride : Z) :
  LoresStream app = Some p -> StreamDimensions app p = (lw, lh, stride) ->
  (tf_w_ s > lw \/ tf_h_ s > lh) ->
  lores_stream_ (Configure_streams app s).1 = None /\
  In WarningLoresTooSmall (Configure_streams app s).2.
Proof.
  intros Hl Hd Hsmall. unfold Configure_streams. rewrite Hl, Hd.
  assert (E : (tf_w_ s >? lw) || (tf_h_ s >? lh) = true).
  { apply orb_true_iff. rewrite !Z.gtb_lt. lia. }
  rewrite E.
  destruct (GetMainStream app) as [m|]; [destruct (StreamDimensions app m) as [[? ?] ?]|];
    cbn; (split; [reflexivity|]); apply in_or_app; left; apply in_or_app; right; now left.
Qed.

(** With the path disabled a thread that enters [Process] leaves at once,
    and nothing else changes. *)
Lemma disabled_step (res : Results) (w w' : world) (e : event) :
  (lores_stream_ (stage w) = None /\ tasks w = [] /\ launches (trace w) = [] /\
   (forall tid, applies tid (trace w) = 0%nat) /\ results w = res /\
   forall tid pc, frames w !! tid = Some pc -> pc = Outside \/ exists r, pc = AtEntry r) ->
  step u bits w e = Some w' ->
  (lores_stream_ (stage w') = None /\ tasks w' = [] /\ launches (trace w') = [] /\
   (forall tid, applies tid (trace w') = 0%nat) /\ results w' = res /\
   forall tid pc, frames w' !! tid = Some pc -> pc = Outside \/ exists r, pc = AtEntry r).
Proof.
  intros (Hl & Ht & Hla & Hap & Hres & Hfr) Hs.
  step_cases Hs; cbn -[applies launches].
  all: try (match goal with
            | H : frames _ !! _ = Some _ |- _ =>
                destruct (Hfr _ _ H) as [?|(? & ?)]; discriminate
            end).
  all: try (match goal with H : tasks _ !! _ = Some _ |- _ => rewrite Ht in H; discriminate H end).
  all: try congruence.
  all: unfold launches; rewrite ?omap_app; cbn -[applies]; rewrite ?app_nil_r.
  all: repeat match goal with |- _ /\ _ => split end.
  all: try assumption; try reflexivity.
  all: try (intros tid0; rewrite ?applies_snoc; cbn; rewrite Hap; reflexivity).
  all: try exact Hap.
  all: try (intros tid0 pc0 Hlk; split_lookups; eauto; fail).
  all: try exact Hfr.
Qed.

(** C4.  When the low resolution stream is smaller than the model input in
    either dimension, [Configure] writes the warning and makes
    [lores_stream_] null, and throws only what [checkConfiguration] throws;
    from then on no interleaving starts a task or calls [applyResults], and
    every call of [Process] returns at its first step with the frame
    untouched. *)
Theorem Configure_disables_small_lores (check : TfStage -> result unit) (app : App)
    (s : TfStage) (p : Stream) (lw lh stride : Z)
    (res : Results) (n : nat) (evs : list event) (w : world) :
  LoresStream app = Some p -> StreamDimensions app p = (lw, lh, stride) ->
  (tf_w_ s > lw \/ tf_h_ s > lh) ->
  In WarningLoresTooSmall (Configure check app s).2 /\
  lores_stream_ (Configure_streams app s).1 = None /\
  (Configure check app s).1
  = bind (check (Configure_streams app s).1) (fun _ => Ok (Configure_streams app s).1) /\
  (exec u bits (initial (Configure_streams app s).1 res n) evs = Some w ->
   tasks w = [] /\ launches (trace w) = [] /\
   (forall tid, applies tid (trace w) = 0%nat) /\ results w = res /\
   (forall tid r, Process u bits tid r w = (observe (ObsReturn tid r false) w, r, false)) /\
   (forall tid r, frames w !! tid = Some (AtEntry r) ->
      step u bits w (Frame tid)
      = Some (observe (ObsReturn tid r false) (set_frame tid Outside w)))).
Proof.
  intros Hl Hd Hsmall.
  destruct (Configure_streams_small app s p lw lh stride Hl Hd Hsmall) as (Hoff & Hwarn).
  refine (conj _ (conj Hoff (conj _ _))).
  - unfold Configure. destruct (Configure_streams app s). exact Hwarn.
  - unfold Configure. destruct (Configure_streams app s). reflexivity.
  - intros Hx.
    assert (G : lores_stream_ (stage w) = None /\ tasks w = [] /\ launches (trace w) = [] /\
                (forall tid, applies tid (trace w) = 0%nat) /\ results w = res /\
                forall tid pc, frames w !! tid = Some pc ->
                               pc = Outside \/ exists r, pc = AtEntry r).
    { eapply (exec_invariant
                (fun w => lores_stream_ (stage w) = None /\ tasks w = [] /\
                          launches (trace w) = [] /\
                          (forall tid, applies tid (trace w) = 0%nat) /\ results w = res /\
                          forall tid pc, frames w !! tid = Some pc ->
                                         pc = Outside \/ exists r, pc = AtEntry r));
        [| |exact Hx].
      - intros ? ? ?. apply disabled_step.
      - cbn. refine (conj Hoff (conj eq_refl (conj eq_refl (conj _ (conj eq_refl _))))).
        + reflexivity.
        + intros tid pc Hlk. apply lookup_replicate_1 in Hlk as [-> _]. now left. }
    destruct G as (Gl & Gt & Gla & Gap & Gres & _).
    refine (conj Gt (conj Gla (conj Gap (conj Gres (conj _ _))))).
    + intros tid r. unfold Process. now rewrite Gl.
    + intros tid r Hlk. cbn. unfold step_frame. now rewrite Hlk, Gl.
Qed.

(** *** [Process] is what one thread does, step by step *)

Lemma world_eq (a b : world) :
  stage a = stage b -> results a = results b ->
  future_mutex_ a = future_mutex_ b -> output_mutex_ a = output_mutex_ b ->
  frames a = frames b -> tasks a = tasks b -> stopping a = stopping b ->
  trace a = trace b -> a = b.
Proof. destruct a, b. cbn. intros. now subst. Qed.

Lemma launch_due_frames (w : world) (r : CompletedRequest Meta) (w1 : world) :
  stage w1 = stage w -> tasks w1 = tasks w -> launch_due u w1 r = launch_due u w r.
Proof. intros Hs Ht. unfold launch_due, task_ready. now rewrite Hs, Ht. Qed.

Ltac run_step Hlt :=
  cbn [exec step replicate]; unfold step_frame at 1;
  cbn [frames set_frame set_frames set_future_mutex_ set_output_mutex_ observe set_results
       launch set_tasks set_stage];
  rewrite list_lookup_insert_eq by (rewrite ?length_insert; exact Hlt).

(** X13.  A call of [Process] that finds both mutexes free runs to its
    return in at most 8 steps of the calling thread alone, whatever the
    state of the inference: it never waits for the forward pass.  The state
    it leaves is the one [Process], read as a sequential function, gives. *)
Theorem Process_exec (w : world) (tid : nat) (r : CompletedRequest Meta) :
  frames w !! tid = Some Outside ->
  future_mutex_ w = None -> output_mutex_ w = None ->
  sequence_ok u (sequence r) = true ->
  exists n, (n <= 8)%nat /\
            exec u bits w (Call tid r :: replicate n (Frame tid))
            = Some (Process u bits tid r w).1.1.
Proof.
  intros Hfr Hfm Hom Hok.
  assert (Hlt : (tid < length (frames w))%nat) by (eapply lookup_lt_Some; eassumption).
  remember (Process u bits tid r w) as out eqn:Eout.
  destruct (lores_stream_ (stage w)) as [p|] eqn:El.
  - rewrite (Process_enabled w tid r p El) in Eout. cbn zeta in Eout.
    destruct (launch_due u w r) eqn:Ed.
    + exists 8%nat. split; [lia|]. cbn [replicate exec step]. rewrite Hfr, Hok.
      run_step Hlt. cbn. rewrite El.
      run_step Hlt. cbn. rewrite Hfm.
      run_step Hlt. rewrite (launch_due_frames w r) by reflexivity. rewrite Ed.
      run_step Hlt.
      run_step Hlt.
      run_step Hlt. cbn. rewrite Hom.
      run_step Hlt. cbn.
      match goal with
      | |- context [applyResults ?a ?b ?c] => destruct (applyResults a b c) eqn:Ea
      end.
      run_step Hlt. subst out. cbn. rewrite ?Ea. cbn.
      f_equal. apply world_eq; cbn; try reflexivity; try congruence.
      rewrite !list_insert_insert_eq. now apply list_insert_id.
    + exists 7%nat. split; [lia|]. cbn [replicate exec step]. rewrite Hfr, Hok.
      run_step Hlt. cbn. rewrite El.
      run_step Hlt. cbn. rewrite Hfm.
      run_step Hlt. rewrite (launch_due_frames w r) by reflexivity. rewrite Ed.
      run_step Hlt.
      run_step Hlt. cbn. rewrite Hom.
      run_step Hlt. cbn.
      match goal with
      | |- context [applyResults ?a ?b ?c] => destruct (applyResults a b c) eqn:Ea
      end.
      run_step Hlt. subst out. cbn. rewrite ?Ea. cbn.
      f_equal. apply world_eq; cbn; try reflexivity; try congruence.
      rewrite !list_insert_insert_eq. now apply list_insert_id.
  - unfold Process in Eout. rewrite El in Eout. subst out.
    exists 1%nat. split; [lia|]. cbn [replicate exec step]. rewrite Hfr, Hok.
    run_step Hlt. cbn. rewrite El. cbn. f_equal. apply world_eq; cbn; try reflexivity.
    rewrite !list_insert_insert_eq. now apply list_insert_id.
Qed.

(** *** Who holds the mutexes *)

Import Progress.

Lemma future_inv_initial (s : TfStage) (res : Results) (n : nat) :
  future_inv (initial (Meta := Meta) s res n).
Proof.
  split.
  - intros tid pc Hlk Hin. apply lookup_replicate_1 in Hlk as [-> _]. discriminate Hin.
  - intros o Hm. discriminate Hm.
Qed.

Lemma future_inv_step (w w' : world) (e : event) :
  future_inv w -> step u bits w e = Some w' -> future_inv w'.
Proof.
  intros Hinv Hs.
  step_cases Hs; pose proof Hinv as (Hin & Hholder); unfold future_inv; cbn.
  all: split.
  all: try assumption.
  all: try (intros; split_lookups; eauto; fail).
  all: try (intros o Hm; destruct (Hholder o Hm) as (t0 & pc0 & -> & Hl0 & Hs0);
            match goal with
            | |- context [<[?i:=_]> _] =>
                destruct (decide (t0 = i)) as [->|Hne];
                [ simplify_eq; try discriminate Hs0;
                  eexists _, _; split; [reflexivity|]; split;
                  [apply list_lookup_insert_eq; eapply lookup_lt_Some; eassumption | reflexivity]
                | exists t0, pc0; split; [reflexivity|]; split;
                  [rewrite list_lookup_insert_ne by congruence; assumption | assumption] ]
            | |- _ => exists t0, pc0; auto
            end; fail).
  all: try (intros o Hm; simplify_eq; eexists _, _; split; [reflexivity|]; split;
            [apply list_lookup_insert_eq; eapply lookup_lt_Some; eassumption | reflexivity]).
  all: try (intros tid0 pc0 Hlk Hsec; split_lookups;
            repeat match goal with
            | H : frames ?w !! ?t = Some ?pc |- _ =>
                assert_fails (idtac; match goal with
                                     | F : future_mutex_ w = Some (FrameThread t) |- _ => idtac
                                     end);
                let F := fresh "F" in
                assert (F : future_mutex_ w = Some (FrameThread t))
                  by (apply (Hin t pc H); solve [reflexivity | assumption])
            end; congruence).
  all: intros o Hm; destruct (Hholder o Hm) as (t0 & pc0 & -> & Hl0 & Hs0);
    exists t0, pc0; split; [reflexivity|]; split; [|assumption];
    rewrite list_lookup_insert_ne; [assumption|]; intros ->; simplify_eq.
Qed.

Lemma reachable_locks (s : TfStage) (res : Results) (n : nat) (evs : list event) (w : world) :
  exec u bits (initial (Meta := Meta) s res n) evs = Some w ->
  future_inv w /\ output_inv w.
Proof.
  intros Hx.
  eapply (exec_invariant (fun w => future_inv w /\ output_inv w)); [| |exact Hx].
  - intros w1 w2 e (Hf & Ho) Hs. split.
    + eapply future_inv_step; eassumption.
    + eapply output_inv_step; eassumption.
  - split; [apply future_inv_initial | apply output_inv_initial].
Qed.

(** X14.  In every interleaving, [future_mutex_] is held exactly by the
    thread that is between taking it (line 102) and releasing it (line
    118), and never by a task; [output_mutex_] is held exactly by the
    thread or the task that is between taking it (lines 120, 180) and
    releasing it.  So no two threads are inside the launch section
    together, and of all threads and tasks at most one is inside
    [applyResults] or [interpretOutputs]. *)
Theorem mutexes_held_inside_sections (s : TfStage) (res : Results) (n : nat)
    (evs : list event) (w : world) :
  exec u bits (initial (Meta := Meta) s res n) evs = Some w ->
  (forall tid pc, frames w !! tid = Some pc ->
     (future_mutex_ w = Some (FrameThread tid) <-> in_future_section pc = true) /\
     (output_mutex_ w = Some (FrameThread tid) <-> frame_in_output_section pc = true)) /\
  (forall k t, tasks w !! k = Some t ->
     future_mutex_ w <> Some (TaskThread k) /\
     (output_mutex_ w = Some (TaskThread k) <-> task_in_output_section t = true)) /\
  (forall tid tid' pc pc', frames w !! tid = Some pc -> frames w !! tid' = Some pc' ->
     tid <> tid' ->
     in_future_section pc && in_future_section pc' = false /\
     frame_in_output_section pc && frame_in_output_section pc' = false) /\
  (forall tid pc k t, frames w !! tid = Some pc -> tasks w !! k = Some t ->
     frame_in_output_section pc && task_in_output_section t = false) /\
  (forall k k' t t', tasks w !! k = Some t -> tasks w !! k' = Some t' -> k <> k' ->
     task_in_output_section t && task_in_output_section t' = false).
Proof.
  intros Hx. destruct (reachable_locks s res n evs w Hx) as ((Hfi & Hfh) & (Hfr & Htk & Hof & Hot)).
  refine (conj _ (conj _ (conj _ (conj _ _)))).
  - intros tid pc Hlk. split; split.
    + intros Hm. destruct (Hfh _ Hm) as (t0 & pc0 & E & Hl0 & Hs0). congruence.
    + apply Hfi. exact Hlk.
    + intros Hm. destruct (Hof _ Hm) as (pc0 & Hl0 & Hs0). congruence.
    + apply Hfr. exact Hlk.
  - intros k t Hk. split; [|split].
    + intros Hm. destruct (Hfh _ Hm) as (t0 & pc0 & E & _). discriminate E.
    + intros Hm. destruct (Hot _ Hm) as (t0 & Hl0 & Hs0). congruence.
    + apply Htk. exact Hk.
  - intros tid tid' pc pc' Hl Hl' Hne. split.
    + destruct (in_future_section pc) eqn:E, (in_future_section pc') eqn:E'; try reflexivity.
      pose proof (Hfi _ _ Hl E). pose proof (Hfi _ _ Hl' E'). congruence.
    + destruct (frame_in_output_section pc) eqn:E, (frame_in_output_section pc') eqn:E';
        try reflexivity.
      pose proof (Hfr _ _ Hl E). pose proof (Hfr _ _ Hl' E'). congruence.
  - intros tid pc k t Hl Hk.
    destruct (frame_in_output_section pc) eqn:E, (task_in_output_section t) eqn:E';
      try reflexivity.
    pose proof (Hfr _ _ Hl E). pose proof (Htk _ _ Hk E'). congruence.
  - intros k k' t t' Hk Hk' Hne.
    destruct (task_in_output_section t) eqn:E, (task_in_output_section t') eqn:E';
      try reflexivity.
    pose proof (Htk _ _ Hk E). pose proof (Htk _ _ Hk' E'). congruence.
Qed.

(** *** No deadlock, and only so much work *)

Lemma frame_step_enabled (w : world) (tid : nat) (pc : frame_pc Meta) :
  frames w !! tid = Some pc ->
  match pc with
  | Outside => False
  | LockFuture _ => future_mutex_ w = None
  | LockOutput _ => output_mutex_ w = None
  | _ => True
  end ->
  exists w', step u bits w (Frame tid) = Some w'.
Proof.
  intros Hlk Hen. cbn. unfold step_frame. rewrite Hlk.
  destruct pc; try contradiction; try rewrite Hen; eauto.
  - destruct (lores_stream_ (stage w)); eauto.
  - destruct (applyResults (stage w) (results w) r). eauto.
Qed.

Lemma task_step_unblocked (w : world) (k : nat) (t : task_pc) :
  is_Some (interpreter_ (stage w)) ->
  tasks w !! k = Some t ->
  match t with
  | Finished _ => False
  | LockOutputT => output_mutex_ w = None
  | _ => True
  end ->
  exists w', step u bits w (Task k) = Some w'.
Proof.
  intros [i Hi] Hk Hen. cbn. unfold step_task. rewrite Hk.
  destruct t; try contradiction; try rewrite Hen; eauto.
  rewrite Hi. destruct (Invoke i) as [st i']. destruct (negb (status_ok st)); eauto.
Qed.

(** Whoever holds a mutex can take its next step. *)
Lemma holder_step_enabled (w : world) :
  future_inv w -> output_inv w ->
  (forall o, future_mutex_ w = Some o ->
     exists e w', internal e /\ step u bits w e = Some w') /\
  (forall o, output_mutex_ w = Some o ->
     exists e w', internal e /\ step u bits w e = Some w').
Proof.
  intros (_ & Hfh) (_ & _ & Hof & Hot). split.
  - intros o Hm. destruct (Hfh _ Hm) as (tid & pc & -> & Hlk & Hsec).
    destruct (frame_step_enabled w tid pc Hlk) as (w' & Hs).
    { destruct pc; try discriminate Hsec; exact I. }
    exists (Frame tid), w'. split; [exact I | exact Hs].
  - intros [tid|k] Hm.
    + destruct (Hof _ Hm) as (pc & Hlk & Hsec).
      destruct (frame_step_enabled w tid pc Hlk) as (w' & Hs).
      { destruct pc; try discriminate Hsec; exact I. }
      exists (Frame tid), w'. split; [exact I | exact Hs].
    + destruct (Hot _ Hm) as (t & Hk & Hsec).
      assert (Hs : exists w', step u bits w (Task k) = Some w').
      { cbn. unfold step_task. rewrite Hk. destruct t; try discriminate Hsec; eauto. }
      destruct Hs as (w' & Hs). exists (Task k), w'. split; [exact I | exact Hs].
Qed.

Lemma pending_step_enabled (w : world) :
  future_inv w -> output_inv w -> is_Some (interpreter_ (stage w)) ->
  (exists tid pc, frames w !! tid = Some pc /\ pc <> Outside) \/
  (exists k t, tasks w !! k = Some t /\ finished t = false) ->
  exists e w', internal e /\ step u bits w e = Some w'.
Proof.
  intros Hf Ho Hi Hpending.
  destruct (holder_step_enabled w Hf Ho) as (Hfm & Hom).
  destruct Hpending as [(tid & pc & Hlk & Hne)|(k & t & Hk & Hfin)].
  - destruct (future_mutex_ w) as [o|] eqn:Efm; [eapply Hfm; reflexivity|].
    destruct (output_mutex_ w) as [o|] eqn:Eom; [eapply Hom; reflexivity|].
    destruct (frame_step_enabled w tid pc Hlk) as (w' & Hs).
    { destruct pc; try exact I; try assumption. now apply Hne. }
    exists (Frame tid), w'. split; [exact I | exact Hs].
  - destruct (output_mutex_ w) as [o|] eqn:Eom; [eapply Hom; reflexivity|].
    destruct (task_step_unblocked w k t Hi Hk) as (w' & Hs).
    { destruct t; try exact I; try assumption. discriminate Hfin. }
    exists (Task k), w'. split; [exact I | exact Hs].
Qed.

Lemma list_sum_insert {A : Type} (f : A -> nat) (l : list A) (i : nat) (a b : A) :
  l !! i = Some a ->
  (list_sum (map f (<[i:=b]> l)) + f a = list_sum (map f l) + f b)%nat.
Proof.
  revert i. induction l as [|x l IH]; intros i Hl; [discriminate Hl|].
  destruct i as [|i]; simpl in *.
  - inversion Hl; subst. lia.
  - specialize (IH i Hl). lia.
Qed.

Lemma list_sum_cons {A : Type} (f : A -> nat) (l : list A) (a : A) :
  list_sum (map f (a :: l)) = (f a + list_sum (map f l))%nat.
Proof. reflexivity. Qed.

Lemma list_sum_snoc {A : Type} (f : A -> nat) (l : list A) (a : A) :
  list_sum (map f (l ++ [a])) = (list_sum (map f l) + f a)%nat.
Proof. rewrite map_app, list_sum_app. cbn. lia. Qed.

(** Every step of a thread inside [Process] or of a task uses up some of
    the work that is left. *)
Lemma internal_step_decreases (w w' : world) (e : event) :
  internal e -> step u bits w e = Some w' -> (work_left w' < work_left w)%nat.
Proof.
  intros He Hs. unfold work_left.
  step_cases Hs; try contradiction; cbn -[list_sum] in *.
  all: rewrite ?list_sum_snoc.
  all: repeat match goal with
         | H : frames ?w !! ?i = Some ?a |- context [<[?i:=?b]> (frames ?w)] =>
             pose proof (list_sum_insert frame_steps (frames w) i a b H); clear H
         | H : tasks ?w !! ?i = Some ?a |- context [<[?i:=?b]> (tasks ?w)] =>
             pose proof (list_sum_insert steps_left (tasks w) i a b H); clear H
         end.
  all: cbn -[list_sum] in *; lia.
Qed.

Lemma work_left_idle (w : world) :
  work_left w = 0%nat <-> quiescent w /\ running w = [].
Proof.
  unfold work_left, quiescent, running. split.
  - intros H.
    assert (Hf : list_sum (map frame_steps (frames w)) = 0%nat) by lia.
    assert (Ht : list_sum (map steps_left (tasks w)) = 0%nat) by lia.
    clear H. split.
    + induction (frames w) as [|pc l IH]; [constructor|]. rewrite list_sum_cons in Hf.
      constructor; [destruct pc; cbn [frame_steps] in Hf; try lia; reflexivity | apply IH; lia].
    + apply running_none.
      induction (tasks w) as [|t l IH]; [constructor|]. rewrite list_sum_cons in Ht.
      constructor; [destruct t; cbn [steps_left] in Ht; try lia; reflexivity | apply IH; lia].
  - intros (Hq & Hr). apply running_none in Hr.
    assert (Hf : list_sum (map frame_steps (frames w)) = 0%nat).
    { induction Hq as [|pc l -> _ IH]; [reflexivity|]. rewrite list_sum_cons. exact IH. }
    assert (Ht : list_sum (map steps_left (tasks w)) = 0%nat).
    { induction Hr as [|t l Hfin _ IH]; [reflexivity|].
      rewrite list_sum_cons. destruct t; try discriminate Hfin. exact IH. }
    lia.
Qed.

Lemma work_left_pending (w : world) :
  work_left w <> 0%nat ->
  (exists tid pc, frames w !! tid = Some pc /\ pc <> Outside) \/
  (exists k t, tasks w !! k = Some t /\ finished t = false).
Proof.
  unfold work_left. intros H.
  destruct (list_sum (map frame_steps (frames w))) eqn:Ef.
  - right. assert (Ht : list_sum (map steps_left (tasks w)) <> 0%nat) by lia. clear H Ef.
    induction (tasks w) as [|t l IH]; [contradiction|]. rewrite list_sum_cons in Ht.
    destruct (finished t) eqn:Efin.
    + destruct IH as (k & t' & Hk & Hfin).
      { destruct t; try discriminate Efin. exact Ht. }
      exists (S k), t'. auto.
    + exists 0%nat, t. auto.
  - left. assert (Hf : list_sum (map frame_steps (frames w)) <> 0%nat) by lia. clear H Ef.
    induction (frames w) as [|pc l IH]; [contradiction|]. rewrite list_sum_cons in Hf.
    destruct (frame_steps pc) eqn:Epc.
    + destruct IH as (tid & pc' & Hlk & Hne); [exact Hf|].
      exists (S tid), pc'. auto.
    + exists 0%nat, pc. split; [reflexivity|]. intros ->. discriminate Epc.
Qed.

Lemma internal_run_bounded (evs : list event) :
  forall w w' : world,
    Forall internal evs -> exec u bits w evs = Some w' ->
    (length evs + work_left w' <= work_left w)%nat.
Proof.
  induction evs as [|e evs IH]; intros w w' Hev Hx; cbn in Hx.
  - inversion Hx; subst. cbn. lia.
  - destruct (step u bits w e) as [w1|] eqn:Es; [|discriminate Hx].
    inversion Hev; subst.
    pose proof (internal_step_decreases w w1 e ltac:(assumption) Es).
    specialize (IH w1 w' ltac:(assumption) Hx). cbn. lia.
Qed.

Lemma pending_work_runs_out (m : nat) :
  forall w : world,
    (work_left w <= m)%nat ->
    future_inv w -> output_inv w -> is_Some (interpreter_ (stage w)) ->
    exists evs w',
      Forall internal evs /\ exec u bits w evs = Some w' /\ work_left w' = 0%nat.
Proof.
  induction m as [|m IH]; intros w Hm Hf Ho Hi.
  - exists [], w. repeat split; [constructor | lia].
  - destruct (Nat.eq_dec (work_left w) 0%nat) as [E|Hne].
    { exists [], w. repeat split; [constructor | exact E]. }
    destruct (pending_step_enabled w Hf Ho Hi (work_left_pending w Hne))
      as (e & w1 & He & Hs).
    pose proof (internal_step_decreases w w1 e He Hs) as Hlt.
    destruct (IH w1) as (evs & w' & Hev & Hx & Hidle).
    + lia.
    + eapply future_inv_step; eassumption.
    + eapply output_inv_step; eassumption.
    + eapply interpreter_step; eassumption.
    + exists (e :: evs), w'. repeat split; [constructor; assumption | | exact Hidle].
      cbn. now rewrite Hs.
Qed.

Lemma reachable_interpreter (s : TfStage) (res : Results) (n : nat) (evs : list event)
    (w : world) :
  is_Some (interpreter_ s) ->
  exec u bits (initial (Meta := Meta) s res n) evs = Some w ->
  is_Some (interpreter_ (stage w)).
Proof.
  intros Hi Hx.
  eapply (exec_invariant (fun w => is_Some (interpreter_ (stage w)))); [| |exact Hx].
  - intros ? ? ?. apply interpreter_step.
  - exact Hi.
Qed.

(** X15.  No interleaving deadlocks: while a thread is inside [Process] or
    a task has not finished, some thread inside [Process] or some task can
    take a step.  [Process] takes [future_mutex_] and [output_mutex_] one
    after the other, never one inside the other, and a task takes only
    [output_mutex_]. *)
Theorem no_deadlock (s : TfStage) (res : Results) (n : nat) (evs : list event) (w : world) :
  is_Some (interpreter_ s) ->
  exec u bits (initial (Meta := Meta) s res n) evs = Some w ->
  (exists tid pc, frames w !! tid = Some pc /\ pc <> Outside) \/
  (exists k t, tasks w !! k = Some t /\ finished t = false) ->
  exists e w', internal e /\ step u bits w e = Some w'.
Proof.
  intros Hi Hx Hpending.
  destruct (reachable_locks s res n evs w Hx) as (Hf & Ho).
  apply pending_step_enabled; try assumption.
  eapply reachable_interpreter; eassumption.
Qed.

(** X16.  The calls of [Process] that are under way and the inference
    that is running always come to an end: from every state an
    interleaving reaches, the steps of the threads inside [Process] and of
    the tasks alone lead to a state where every call has returned and
    every task has finished; and whatever the order of those steps, there
    are no more of them than [work_left] counts, at most 14 for each call
    and 6 for each task. *)
Theorem pending_work_completes (s : TfStage) (res : Results) (n : nat)
    (evs : list event) (w : world) :
  is_Some (interpreter_ s) ->
  exec u bits (initial (Meta := Meta) s res n) evs = Some w ->
  (exists evs' w',
     Forall internal evs' /\ exec u bits w evs' = Some w' /\
     quiescent w' /\ running w' = []) /\
  (forall evs' w', Forall internal evs' -> exec u bits w evs' = Some w' ->
     (length evs' + work_left w' <= work_left w)%nat) /\
  (work_left w <= 14 * length (frames w) + 6 * length (tasks w))%nat.
Proof.
  intros Hi Hx.
  destruct (reachable_locks s res n evs w Hx) as (Hf & Ho).
  pose proof (reachable_interpreter s res n evs w Hi Hx) as Hi'.
  refine (conj _ (conj _ _)).
  - destruct (pending_work_runs_out (work_left w) w (le_n _) Hf Ho Hi')
      as (evs' & w' & Hev & Hx' & Hidle).
    apply work_left_idle in Hidle as (Hq & Hr). exists evs', w'. auto.
  - intros evs' w'. apply internal_run_bounded.
  - unfold work_left.
    assert (Hfr : (list_sum (map frame_steps (frames w)) <= 14 * length (frames w))%nat).
    { induction (frames w) as [|pc l IH]; [cbn; lia|].
      rewrite list_sum_cons. cbn [length]. destruct pc; cbn [frame_steps]; lia. }
    assert (Htk : (list_sum (map steps_left (tasks w)) <= 6 * length (tasks w))%nat).
    { induction (tasks w) as [|t l IH]; [cbn; lia|].
      rewrite list_sum_cons. cbn [length]. destruct t; cbn [steps_left]; lia. }
    lia.
Qed.

(** *** What the model is given *)

Lemma copy_loop {A : Type} (conv : Z -> A) (input : list Z) (tensor : list A) :
  (length input <= length tensor)%nat ->
  for_range (Z.of_nat (length input))
    (fun j t => <[Z.to_nat j := conv (default 0 (input !! Z.to_nat j))]> t) tensor
  = map conv input ++ drop (length input) tensor.
Proof.
  intros Hlen.
  pose (P := fun (i : Z) (t : list A) =>
               t = map conv (take (Z.to_nat i) input) ++ drop (Z.to_nat i) tensor).
  assert (G : P (Z.of_nat (length input))
                (for_range (Z.of_nat (length input))
                   (fun j t => <[Z.to_nat j := conv (default 0 (input !! Z.to_nat j))]> t)
                   tensor)).
  { apply for_range_ind; [lia | reflexivity |].
    intros i t Hi Ht. unfold P in *. subst t.
    destruct (lookup_lt_is_Some_2 input (Z.to_nat i) ltac:(lia)) as (x & Hx).
    destruct (lookup_lt_is_Some_2 tensor (Z.to_nat i) ltac:(lia)) as (y & Hy).
    rewrite Hx. cbn [default].
    replace (Z.to_nat (i + 1)) with (S (Z.to_nat i)) by lia.
    rewrite (take_S_r _ _ _ Hx), map_app, <- app_assoc. cbn [map app].
    rewrite (drop_S _ _ _ Hy).
    rewrite insert_app_r_alt by (rewrite length_map, length_take; lia).
    rewrite length_map, length_take.
    replace (Z.to_nat i - Z.to_nat i `min` length input)%nat with 0%nat by lia.
    reflexivity. }
  unfold P in G. rewrite G, Nat2Z.id, firstn_all. reflexivity.
Qed.

Lemma fill_input_tensor_input (s : TfStage) :
  tensor_input_ (fill_input s) = tensor_input_ s /\
  geometry (fill_input s) = geometry s.
Proof.
  unfold fill_input. destruct (interpreter_ s) as [i|]; [|split; reflexivity].
  destruct (input_type i); split; reflexivity.
Qed.

Lemma fill_input_copy (s : TfStage) (i : Interpreter) :
  interpreter_ s = Some i ->
  (length (tensor_input_ s) <= length (input_data i))%nat ->
  let copied (conv : Z -> cell) :=
    set_interpreter_
      (Some (set_input_data
               (map conv (tensor_input_ s) ++ drop (length (tensor_input_ s)) (input_data i))
               i)) s in
  (input_type i = kTfLiteUInt8 -> fill_input s = copied U8) /\
  (input_type i = kTfLiteFloat32 ->
   fill_input s = copied (fun b => F32 (normalise (config_ s) b))) /\
  (element_size (input_type i) = None -> fill_input s = s).
Proof.
  intros Hi Hlen copied. subst copied. unfold fill_input. rewrite Hi.
  refine (conj _ (conj _ _)).
  - intros ->. cbv zeta.
    pose proof (copy_loop U8 (tensor_input_ s) (input_data i) Hlen) as E.
    cbv beta in E. now rewrite E.
  - intros ->. cbv zeta.
    pose proof (copy_loop (fun b => F32 (normalise (config_ s) b))
                  (tensor_input_ s) (input_data i) Hlen) as E.
    cbv beta in E. now rewrite E.
  - intros He. destruct (input_type i); try reflexivity; discriminate He.
Qed.

(** X10.  [runInference] copies [tensor_input_] into the input tensor
    element by element before the forward pass: as it is for a [uint8]
    tensor, each byte less the offset and divided by the scale, in
    binary32, for a [float32] one; elements of the tensor beyond
    [tensor_input_.size()] keep their values.  A tensor of another type is
    left alone.  (The tensor has room for the copy, and the loop counter,
    an [int], can count its elements.) *)
Theorem fill_input_copies (s : TfStage) (i : Interpreter) :
  interpreter_ s = Some i ->
  (length (tensor_input_ s) <= length (input_data i))%nat ->
  Z.of_nat (length (tensor_input_ s)) <= CInt.INT_MAX ->
  let copied (conv : Z -> cell) :=
    set_interpreter_
      (Some (set_input_data
               (map conv (tensor_input_ s) ++ drop (length (tensor_input_ s)) (input_data i))
               i)) s in
  (input_type i = kTfLiteUInt8 -> fill_input s = copied U8) /\
  (input_type i = kTfLiteFloat32 ->
   fill_input s = copied (fun b => F32 (normalise (config_ s) b))) /\
  (element_size (input_type i) = None -> fill_input s = s).
Proof. intros Hi Hlen _. now apply fill_input_copy. Qed.

(** X12.  With the low resolution path enabled and a frame that is due, a
    call of [Process] stores the window of the frame's low resolution
    buffer in [tensor_input_] and starts a task, and the first step of that
    task hands the model exactly that window: its bytes for a [uint8]
    model, each byte normalised for a [float32] one. *)
Theorem model_is_given_the_window (w : world) (tid : nat) (r : CompletedRequest Meta)
    (p : Stream) (i : Interpreter) :
  lores_stream_ (stage w) = Some p ->
  launch_due u w r = true ->
  interpreter_ (stage w) = Some i ->
  Z.of_nat (length (input_data i)) = tf_h_ (stage w) * tf_w_ (stage w) * 3 ->
  32 <= bits ->
  Colour.crop_ok (geometry (stage w)) -> Colour.frame_ok (geometry (stage w)) ->
  let w1 := (Process u bits tid r w).1.1 in
  let k := length (tasks w) in
  let window := Layout.window (geometry (stage w)) (buffers r (Some p)) in
  tensor_input_ (stage w1) = window /\
  future_ (stage w1) = Some k /\ tasks w1 !! k = Some FillInput /\
  exists w2 cells,
    step u bits w1 (Task k) = Some w2 /\
    tasks w2 !! k = Some Invoking /\
    interpreter_ (stage w2) = Some (set_input_data cells i) /\
    (input_type i = kTfLiteUInt8 -> cells = map U8 window) /\
    (input_type i = kTfLiteFloat32 ->
     cells = map (fun b => F32 (normalise (config_ (stage w)) b)) window) /\
    (element_size (input_type i) = None -> cells = input_data i).
Proof.
  intros Hl Hd Hi Hlen Hb Hcrop Hframe w1 k window.
  assert (Ew : Colour.yuvToRgb bits (geometry (stage w)) (buffers r (Some p)) = window)
    by (now apply yuvToRgb_window).
  assert (Elen : length window = length (input_data i)).
  { rewrite <- Ew, yuvToRgb_length, output_size_exact by assumption.
    cbn [geometry Colour.tf_h Colour.tf_w]. lia. }
  subst w1 k. rewrite (Process_enabled w tid r p Hl). rewrite Hd. cbn zeta.
  cbn [fst snd stage tasks observe set_results launch set_tasks set_stage
       tensor_input_ set_future_ set_tensor_input_ future_].
  rewrite Hl, Ew.
  assert (Hk : (tasks w ++ [FillInput]) !! length (tasks w) = Some FillInput).
  { rewrite lookup_app_r by lia. now rewrite Nat.sub_diag. }
  refine (conj eq_refl (conj eq_refl (conj Hk _))).
  cbn [step]. unfold step_task.
  cbn [fst snd stage tasks observe set_results launch set_tasks set_stage].
  rewrite Hk, Hl, Ew.
  set (s1 := set_future_ (Some (length (tasks w))) (set_tensor_input_ window (stage w))).
  assert (Hi1 : interpreter_ s1 = Some i) by exact Hi.
  destruct (fill_input_copy s1 i Hi1) as (C8 & C32 & Cother).
  { cbn. lia. }
  cbn [tensor_input_ s1 set_future_ set_tensor_input_] in C8, C32, Cother.
  rewrite Elen, drop_all, app_nil_r in C8, C32.
  destruct (element_size (input_type i)) as [e|] eqn:Ee.
  - destruct (input_type i) eqn:Et; try discriminate Ee.
    + eexists _, _. split; [reflexivity|]. rewrite (C32 eq_refl).
      cbn. split; [apply list_lookup_insert_eq; rewrite length_app; cbn; lia|].
      split; [reflexivity|]. repeat split; try discriminate. 
    + eexists _, _. split; [reflexivity|]. rewrite (C8 eq_refl).
      cbn. split; [apply list_lookup_insert_eq; rewrite length_app; cbn; lia|].
      split; [reflexivity|]. repeat split; try discriminate.
  - eexists _, (input_data i). split; [reflexivity|]. rewrite (Cother eq_refl).
    cbn. split; [apply list_lookup_insert_eq; rewrite length_app; cbn; lia|].
    split; [rewrite Hi; destruct i; reflexivity|].
    repeat split; intros Et; rewrite Et in Ee; discriminate Ee.
Qed.

(** *** The snapshot of a running inference *)

Lemma unfinished_before (w w' : world) (e : event) (k : nat) (t t' : task_pc) :
  step u bits w e = Some w' -> tasks w !! k = Some t ->
  tasks w' !! k = Some t' -> finished t' = false -> finished t = false.
Proof.
  intros Hs Hk Hk' Hfin. destruct t; try reflexivity.
  pose proof (finished_stays k threw w w' e Hk Hs) as E.
  rewrite E in Hk'. inversion Hk'; subst. discriminate Hfin.
Qed.

Lemma task_stays (w w' : world) (e : event) (k : nat) (t : task_pc) :
  step u bits w e = Some w' -> tasks w !! k = Some t -> is_Some (tasks w' !! k).
Proof.
  intros Hs Hk. apply lookup_lt_is_Some. apply lookup_lt_Some in Hk.
  step_cases Hs; cbn; rewrite ?length_insert, ?length_app; cbn; lia.
Qed.

(** While a task is running, no step writes [tensor_input_] or the
    geometry [yuvToRgb] reads. *)
Lemma snapshot_step (w w' : world) (e : event) (k : nat) (t : task_pc) :
  slot_inv w -> tasks w !! k = Some t -> finished t = false ->
  step u bits w e = Some w' ->
  tensor_input_ (stage w') = tensor_input_ (stage w).
Proof.
  intros (_ & _ & _ & Hl) Hk Hfin Hs.
  step_cases Hs; cbn; try reflexivity.
  - pose proof (Hl _ _ ltac:(eassumption)) as F.
    eapply Forall_lookup_1 in F; [|exact Hk]. congruence.
  - apply fill_input_tensor_input.
Qed.

Lemma snapshot_run (evs : list event) :
  forall (w w' : world) (k : nat) (t t' : task_pc),
    slot_inv w -> tasks w !! k = Some t ->
    exec u bits w evs = Some w' ->
    tasks w' !! k = Some t' -> finished t' = false ->
    tensor_input_ (stage w') = tensor_input_ (stage w).
Proof.
  induction evs as [|e evs IH]; intros w w' k t t' Hinv Hk Hx Hk' Hfin; cbn in Hx.
  - inversion Hx; subst. reflexivity.
  - destruct (step u bits w e) as [w1|] eqn:Es; [|discriminate Hx].
    destruct (task_stays w w1 e k t Es Hk) as (t1 & Hk1).
    pose proof (slot_inv_step w w1 e Hinv Es) as Hinv1.
    rewrite (IH w1 w' k t1 t' Hinv1 Hk1 Hx Hk' Hfin).
    assert (Hfin1 : finished t1 = false).
    { destruct t1; try reflexivity.
      assert (G : tasks w' !! k = Some (Finished threw)).
      { eapply (exec_invariant (fun w => tasks w !! k = Some (Finished threw)));
          [| exact Hk1 | exact Hx].
        intros ? ? ?. apply finished_stays. }
      rewrite G in Hk'. inversion Hk'; subst. discriminate Hfin. }
    eapply snapshot_step; [exact Hinv | exact Hk | | exact Es].
    eapply unfinished_before; eassumption.
Qed.

(** X17.  The snapshot a running inference reads is never overwritten:
    from the launch of a task until it has finished, [tensor_input_] keeps
    the value the launch gave it, whatever frames are delivered meanwhile.
    And a step of a thread inside [Process] or [Stop] never writes the
    interpreter. *)
Theorem snapshot_kept_while_running (s : TfStage) (res : Results) (n : nat)
    (evs evs' : list event) (w w' : world) (k : nat) (t t' : task_pc) :
  future_ s = None ->
  exec u bits (initial (Meta := Meta) s res n) evs = Some w ->
  tasks w !! k = Some t ->
  exec u bits w evs' = Some w' ->
  tasks w' !! k = Some t' -> finished t' = false ->
  tensor_input_ (stage w') = tensor_input_ (stage w) /\
  (forall e w1, step u bits w e = Some w1 -> (forall j, e <> Task j) ->
     interpreter_ (stage w1) = interpreter_ (stage w)).
Proof.
  intros Hf Hx Hk Hx' Hk' Hfin.
  assert (Hinv : slot_inv w).
  { eapply (exec_invariant slot_inv); [| | exact Hx].
    - intros ? ? ?. apply slot_inv_step.
    - now apply slot_inv_initial. }
  split; [eapply snapshot_run; eassumption|].
  intros e w1 Hs Hne. step_cases Hs; cbn; try reflexivity.
  all: exfalso; eapply Hne; reflexivity.
Qed.

(** *** What a successful inference does, once *)

Lemma interprets_snoc (k : nat) (t : list (obs Meta)) (o : obs Meta) :
  interprets k (t ++ [o]) = (interprets k t + if is_interpret k o then 1 else 0)%nat.
Proof.
  unfold interprets. rewrite filter_app, length_app. f_equal.
  rewrite filter_cons, filter_nil. destruct (is_interpret k o); reflexivity.
Qed.

Lemma prints_snoc (t : list (obs Meta)) (o : obs Meta) :
  prints (t ++ [o]) = (prints t + if is_print o then 1 else 0)%nat.
Proof.
  unfold prints. rewrite filter_app, length_app. f_equal.
  rewrite filter_cons, filter_nil. destruct (is_print o); reflexivity.
Qed.

(** A task has called [interpretOutputs] once when it is past line 181,
    and not before. *)
Lemma interprets_step (w w' : world) (e : event) :
  (forall k, interprets k (trace w) = published (tasks w !! k)) ->
  step u bits w e = Some w' ->
  forall k, interprets k (trace w') = published (tasks w' !! k).
Proof.
  intros Hinv Hs k0. specialize (Hinv k0).
  step_cases Hs; cbn -[interprets]; rewrite ?interprets_snoc; cbn -[interprets].
  all: try (rewrite Nat.add_0_r).
  all: try exact Hinv.
  all: try (match goal with
            | H : tasks ?w !! ?k = Some _ |- context [<[?k:=_]> (tasks ?w) !! ?k0] =>
                destruct (decide (k0 = k)) as [->|Hne];
                [ rewrite H in Hinv;
                  rewrite list_lookup_insert_eq by (eapply lookup_lt_Some; exact H);
                  cbn in *; rewrite ?Nat.eqb_refl; lia
                | rewrite list_lookup_insert_ne by congruence;
                  try (destruct (Nat.eqb_spec k k0); [congruence|]); lia ]
            end).
  destruct (tasks w !! k0) as [t|] eqn:E.
  - now rewrite (lookup_app_l_Some _ _ _ _ E).
  - rewrite Hinv. cbn. apply lookup_ge_None in E.
    destruct (decide (k0 = length (tasks w))) as [->|Hne].
    + rewrite lookup_app_r by lia. now rewrite Nat.sub_diag.
    + rewrite lookup_ge_None_2; [reflexivity|]. rewrite length_app. cbn. lia.
Qed.

(** X18.  In every interleaving a task has called [interpretOutputs] exactly
    once when it is past line 181, and never before: a task that ran to its
    end without an exception has published its results exactly once. *)
Theorem successful_inference_interprets_once (s : TfStage) (res : Results) (n : nat)
    (evs : list event) (w : world) :
  exec u bits (initial (Meta := Meta) s res n) evs = Some w ->
  (forall k, interprets k (trace w) = published (tasks w !! k)) /\
  (forall k, tasks w !! k = Some (Finished false) -> interprets k (trace w) = 1%nat).
Proof.
  intros Hx.
  assert (G : forall k, interprets k (trace w) = published (tasks w !! k)).
  { eapply (exec_invariant
              (fun w => forall k, interprets k (trace w) = published (tasks w !! k)));
      [| | exact Hx].
    - intros ? ? ?. apply interprets_step.
    - intros k. reflexivity. }
  split; [exact G|]. intros k Hk. rewrite G, Hk. reflexivity.
Qed.

(** *** What is written while frames are processed *)

Lemma prints_step (c : TfConfig) (w w' : world) (e : event) :
  config_ (stage w) = c /\
  prints (trace w) = (if verbose c =? 0 then 0%nat else successes w) ->
  step u bits w e = Some w' ->
  config_ (stage w') = c /\
  prints (trace w') = (if verbose c =? 0 then 0%nat else successes w').
Proof.
  intros (Hc & Hinv) Hs. unfold successes in *.
  step_cases Hs; cbn -[prints list_sum] in *; rewrite ?prints_snoc; cbn -[prints list_sum].
  all: rewrite ?(proj1 (fill_input_config _)).
  all: rewrite ?Nat.add_0_r, ?list_sum_snoc.
  all: split; [reflexivity|].
  all: try exact Hinv.
  all: repeat match goal with
         | H : tasks ?w !! ?i = Some ?a |- context [<[?i:=?b]> (tasks ?w)] =>
             pose proof (list_sum_insert (fun t => if succeeded t then 1%nat else 0%nat)
                           (tasks w) i a b H); clear H
         end.
  all: cbn -[prints list_sum] in *.
  all: repeat match goal with
         | H : negb (?a =? 0) = _ |- _ => destruct (Z.eqb_spec a 0); try discriminate H; clear H
         end.
  all: try (destruct (verbose (config_ (stage w)) =? 0)); lia.
Qed.

(** X19.  While frames are processed the stage writes to [std::cout]
    only the inference time, only when [verbose] is set, and once for each
    inference that ran to its end without an exception: a stage that is
    not verbose writes nothing, and a failed inference reports no time. *)
Theorem inference_time_printed_iff_verbose (s : TfStage) (res : Results) (n : nat)
    (evs : list event) (w : world) :
  exec u bits (initial (Meta := Meta) s res n) evs = Some w ->
  prints (trace w) = (if verbose (config_ s) =? 0 then 0%nat else successes w) /\
  Forall (fun o => is_print o = true -> o = ObsPrint InferenceTime) (trace w).
Proof.
  intros Hx. split.
  - eapply (exec_invariant
              (fun w => config_ (stage w) = config_ s /\
                        prints (trace w)
                        = (if verbose (config_ s) =? 0 then 0%nat else successes w)));
      [| | exact Hx].
    + intros ? ? ?. apply prints_step.
    + split; [reflexivity|]. cbn. now destruct (verbose (config_ s) =? 0).
  - eapply (exec_invariant
              (fun w => Forall (fun o => is_print o = true -> o = ObsPrint InferenceTime)
                          (trace w))); [| | exact Hx].
    + intros w1 w2 e Hall Hs.
      step_cases Hs; cbn; try assumption.
      all: apply Forall_app; split; [assumption|].
      all: constructor; [|constructor]; cbn; intros; congruence.
    + constructor.
Qed.

(** *** Who writes the results *)

(** X20.  In every interleaving the results of the concrete stage are
    written only under [output_mutex_]: a step that changes them is the
    call of [applyResults] by the thread that holds the mutex, or the call
    of [interpretOutputs] by the task that holds it. *)
Theorem results_written_under_lock (s : TfStage) (res : Results) (n : nat)
    (evs : list event) (w w' : world) (e : event) :
  exec u bits (initial (Meta := Meta) s res n) evs = Some w ->
  step u bits w e = Some w' ->
  results w' = results w \/
  (exists tid r,
     e = Frame tid /\ frames w !! tid = Some (Applying r) /\
     output_mutex_ w = Some (FrameThread tid) /\
     results w' = (applyResults (stage w) (results w) r).1) \/
  (exists k,
     e = Task k /\ tasks w !! k = Some Interpreting /\
     output_mutex_ w = Some (TaskThread k) /\
     results w' = interpretOutputs (stage w) (results w)).
Proof.
  intros Hx Hs.
  destruct (reachable_locks s res n evs w Hx) as (_ & (Hfr & Htk & _ & _)).
  step_cases Hs; cbn; try (left; reflexivity).
  - right. left. eexists _, _. split; [reflexivity|]. split; [eassumption|].
    split; [eapply Hfr; [eassumption | reflexivity]|].
    match goal with H : applyResults _ _ _ = _ |- _ => now rewrite H end.
  - right. right. eexists. split; [reflexivity|]. split; [eassumption|].
    split; [eapply Htk; [eassumption | reflexivity] | reflexivity].
Qed.

(** *** The copy stays inside the input tensor *)

Lemma fill_input_shape (s : TfStage) :
  geometry (fill_input s) = geometry s /\
  lores_stream_ (fill_input s) = lores_stream_ s /\
  tensor_input_ (fill_input s) = tensor_input_ s /\
  match interpreter_ s with
  | Some i => exists i', interpreter_ (fill_input s) = Some i' /\
                         length (input_data i') = length (input_data i)
  | None => interpreter_ (fill_input s) = None
  end.
Proof.
  unfold fill_input. destruct (interpreter_ s) as [i|] eqn:Ei.
  2:{ rewrite Ei. repeat split; reflexivity. }
  destruct (input_type i); cbn; rewrite ?Ei; repeat split; eauto.
  all: eexists; split; [reflexivity|]; cbn.
  all: apply (for_range_preserves (fun t : list cell => length t = length (input_data i)));
    [reflexivity | intros j t _ Ht; now rewrite length_insert].
Qed.

(** The tensor keeps its size, the geometry does not change, a thread is
    past line 99 only when the low resolution path is enabled, and the
    snapshot is empty or has the size of the model input. *)
Lemma tensor_room_step (s : TfStage) (len : nat) (w w' : world) (e : event) :
  (forall i, length (input_data (Invoke i).2) = length (input_data i)) ->
  32 <= bits ->
  (is_Some (lores_stream_ s) -> Colour.crop_ok (geometry s)) ->
  Z.of_nat len = tf_h_ s * tf_w_ s * 3 ->
  (geometry (stage w) = geometry s /\ lores_stream_ (stage w) = lores_stream_ s /\
   (forall tid pc, frames w !! tid = Some pc ->
      match pc with Outside | AtEntry _ => True | _ => is_Some (lores_stream_ s) end) /\
   (exists i, interpreter_ (stage w) = Some i /\ length (input_data i) = len) /\
   (tensor_input_ (stage w) = [] \/ length (tensor_input_ (stage w)) = len)) ->
  step u bits w e = Some w' ->
  (geometry (stage w') = geometry s /\ lores_stream_ (stage w') = lores_stream_ s /\
   (forall tid pc, frames w' !! tid = Some pc ->
      match pc with Outside | AtEntry _ => True | _ => is_Some (lores_stream_ s) end) /\
   (exists i, interpreter_ (stage w') = Some i /\ length (input_data i) = len) /\
   (tensor_input_ (stage w') = [] \/ length (tensor_input_ (stage w')) = len)).
Proof.
  intros Hinvoke Hb Hcrop Hlen Hinv Hs.
  assert (Hmoved : forall tid pc',
            (forall tid pc, frames w !! tid = Some pc ->
               match pc with Outside | AtEntry _ => True | _ => is_Some (lores_stream_ s) end) ->
            match pc' with Outside | AtEntry _ => True | _ => is_Some (lores_stream_ s) end ->
            forall tid0 pc0, <[tid:=pc']> (frames w) !! tid0 = Some pc0 ->
              match pc0 with Outside | AtEntry _ => True | _ => is_Some (lores_stream_ s) end).
  { intros tid pc' Hpast Hnew tid0 pc0 Hlk0.
    apply list_lookup_insert_Some in Hlk0 as [(-> & <- & _)|(_ & Hlk0)];
      [exact Hnew | exact (Hpast _ _ Hlk0)]. }
  step_cases Hs; destruct Hinv as (Hg & Hl & Hpast & (it & Hi & Hi') & Ht);
    cbn [stage frames tasks set_frame set_frames set_task set_tasks set_stage
         observe set_results set_future_mutex_ set_output_mutex_ set_stopping launch].
  all: try match goal with
           | Hfr : frames _ !! _ = Some (Launching _) |- context [Colour.yuvToRgb ?a ?b ?c] =>
               pose proof (Hpast _ _ Hfr) as Hen; cbn in Hen;
               assert (Hy : length (Colour.yuvToRgb a b c) = len)
                 by (rewrite yuvToRgb_length, Hg, output_size_exact by auto;
                     cbn [geometry Colour.tf_h Colour.tf_w]; lia);
               revert Hy; generalize (Colour.yuvToRgb a b c); intros y Hy
           end.
  all: try (lazymatch goal with
            | |- geometry (stage _) = _ /\ _ => idtac
            end;
            split; [exact Hg|]; split; [congruence|];
            split; [|split; [exists it; split; [exact Hi | exact Hi'] | exact Ht]];
            first [ exact Hpast
                  | apply Hmoved; [exact Hpast|];
                    first [ exact I
                          | eapply (Hpast _ _ ltac:(eassumption))
                          | rewrite <- Hl; eauto
                          | destruct (launch_due u w _); eapply (Hpast _ _ ltac:(eassumption)) ] ]).
  - (* the launch *)
    split; [exact Hg|]. split; [exact Hl|].
    split; [apply Hmoved; [exact Hpast | exact Hen]|].
    split; [exists it; split; [exact Hi | exact Hi'] | right; exact Hy].
  - (* the copy *)
    destruct (fill_input_shape (stage w)) as (Eg & El & Et & Ei).
    rewrite Hi in Ei. destruct Ei as (i' & Ei & Elen).
    rewrite Eg, El, Et.
    split; [exact Hg|]. split; [exact Hl|]. split; [exact Hpast|].
    split; [exists i'; split; [exact Ei | congruence] | exact Ht].
  - (* a forward pass that fails *)
    split; [exact Hg|]. split; [exact Hl|]. split; [exact Hpast|].
    split; [|exact Ht].
    eexists. split; [reflexivity|]. simplify_eq.
    match goal with H : Invoke ?j = _ |- _ => pose proof (Hinvoke j) as E; rewrite H in E end.
    exact E.
  - (* a forward pass that succeeds *)
    split; [exact Hg|]. split; [exact Hl|]. split; [exact Hpast|].
    split; [|exact Ht].
    eexists. split; [reflexivity|]. simplify_eq.
    match goal with H : Invoke ?j = _ |- _ => pose proof (Hinvoke j) as E; rewrite H in E end.
    exact E.
Qed.

(** X21.  The copy of [runInference] stays inside the input tensor in
    every interleaving: for a stage whose input tensor has the
    [tf_h * tf_w * 3] elements [initialise] checks, [tensor_input_] is
    empty or has exactly that many bytes whenever a task copies it,
    whatever frames were delivered, and the geometry [yuvToRgb] reads is
    the one that was configured.  (The engine keeps the size of the tensor
    over a forward pass.) *)
Theorem copy_stays_inside_tensor (s : TfStage) (res : Results) (n : nat)
    (evs : list event) (w : world) (i0 : Interpreter) :
  (forall i, length (input_data (Invoke i).2) = length (input_data i)) ->
  32 <= bits ->
  (is_Some (lores_stream_ s) -> Colour.crop_ok (geometry s)) ->
  interpreter_ s = Some i0 ->
  Z.of_nat (length (input_data i0)) = tf_h_ s * tf_w_ s * 3 ->
  tensor_input_ s = [] ->
  exec u bits (initial (Meta := Meta) s res n) evs = Some w ->
  geometry (stage w) = geometry s /\
  (exists i, interpreter_ (stage w) = Some i /\
             length (input_data i) = length (input_data i0) /\
             (length (tensor_input_ (stage w)) <= length (input_data i))%nat) /\
  (tensor_input_ (stage w) = [] \/
   Z.of_nat (length (tensor_input_ (stage w))) = tf_h_ s * tf_w_ s * 3).
Proof.
  intros Hinvoke Hb Hcrop Hi Hlen Ht Hx.
  assert (G : geometry (stage w) = geometry s /\ lores_stream_ (stage w) = lores_stream_ s /\
              (forall tid pc, frames w !! tid = Some pc ->
                 match pc with
                 | Outside | AtEntry _ => True
                 | _ => is_Some (lores_stream_ s)
                 end) /\
              (exists i, interpreter_ (stage w) = Some i /\
                         length (input_data i) = length (input_data i0)) /\
              (tensor_input_ (stage w) = [] \/
               length (tensor_input_ (stage w)) = length (input_data i0))).
  { eapply (exec_invariant
              (fun w => geometry (stage w) = geometry s /\
                        lores_stream_ (stage w) = lores_stream_ s /\
                        (forall tid pc, frames w !! tid = Some pc ->
                           match pc with
                           | Outside | AtEntry _ => True
                           | _ => is_Some (lores_stream_ s)
                           end) /\
                        (exists i, interpreter_ (stage w) = Some i /\
                                   length (input_data i) = length (input_data i0)) /\
                        (tensor_input_ (stage w) = [] \/
                         length (tensor_input_ (stage w)) = length (input_data i0))));
      [| | exact Hx].
    - intros w1 w2 e. now apply tensor_room_step.
    - cbn. refine (conj eq_refl (conj eq_refl (conj _ (conj _ (or_introl Ht))))).
      + intros tid pc Hlk. apply lookup_replicate_1 in Hlk as [-> _]. exact I.
      + eauto. }
  destruct G as (Hg & _ & _ & (i & Ei & Elen) & Hsnap).
  refine (conj Hg (conj _ _)).
  - exists i. refine (conj Ei (conj Elen _)).
    destruct Hsnap as [-> | ->]; [cbn; lia | lia].
  - destruct Hsnap as [E|E]; [now left | right; lia].
Qed.

End Scheduling.

(** ** The properties on sample data *)

(** The crop of the 224 x 224 model is centred on even offsets. *)
Example offsets_224 :
  Colour.off_x Sample.geometry_224 = 48 /\ Colour.off_y Sample.geometry_224 = 8.
Proof. split; reflexivity. Qed.

(** Saturated channels: [128 + 1.402 * 127] is cut to 255, and a green
    below 0 to 0. *)
Example clamp_saturates :
  Colour.red 128 255 = 255 /\ Colour.green 10 255 255 = 0 /\ Colour.blue 128 0 = 0.
Proof. vm_compute. repeat split; reflexivity. Qed.

(** A 2 x 2 crop of a 4 x 4 frame with neutral chroma: each pixel is the
    grey of its luma byte. *)
Example yuvToRgb_4x4 :
  Colour.yuvToRgb 64 (Stage.geometry (Sample.stage_2 5 true))
    [1; 2; 3; 4; 5; 6; 7; 8; 9; 10; 11; 12; 13; 14; 15; 16;
     128; 128; 128; 128; 128; 128; 128; 128]
  = [1; 1; 1; 2; 2; 2; 5; 5; 5; 6; 6; 6].
Proof. vm_compute. reflexivity. Qed.

(** The options read, with their defaults. *)
Example read_config_defaults :
  Stage.refresh_rate (Stage.read_config (translator := Sample.translator) []) = 5 /\
  Stage.number_of_threads (Stage.read_config (translator := Sample.translator) []) = 2 /\
  Stage.verbose (Stage.read_config (translator := Sample.translator) []) = 0 /\
  Stage.model_file (Stage.read_config (translator := Sample.translator) []) = ""%string.
Proof. repeat split; reflexivity. Qed.

(** The options read from text: a whole number given for a [float]
    option is read as that number, a number that is no [int] or a text
    that is no number leaves an [int] option at its default, and a string
    option takes the text as it is. *)
Example read_config_texts :
  Stage.get_float (translator := Sample.translator)
    [("normalisation_offset", "255")%string] "normalisation_offset"
    Stage.default_normalisation = Stage.float_of_int 255 /\
  Stage.get_int (translator := Sample.translator)
    [("refresh_rate", "4294967296")%string] "refresh_rate" 5 = 5 /\
  Stage.get_int (translator := Sample.translator)
    [("refresh_rate", "fast")%string] "refresh_rate" 5 = 5 /\
  Stage.get_int (translator := Sample.translator)
    [("refresh_rate", "-3")%string] "refresh_rate" 5 = -3 /\
  Stage.get_string [("model_file", "42")%string] "model_file" "model.tflite" = "42"%string.
Proof. repeat split; vm_compute; reflexivity. Qed.

(** A frame of odd height, 2 x 3 with a stride of 2: the chroma planes as
    [frame_bytes] counts them hold one row each, the last row of the image
    takes its V from the byte after them, and the output depends on it. *)
Example odd_height_reads_past_planes :
  Colour.frame_bytes
    {| Colour.tf_w := 2; Colour.tf_h := 3;
       Colour.lores_w := 2; Colour.lores_h := 3; Colour.lores_stride := 2 |} = 8 /\
  Colour.yuvToRgb 64
    {| Colour.tf_w := 2; Colour.tf_h := 3;
       Colour.lores_w := 2; Colour.lores_h := 3; Colour.lores_stride := 2 |}
    ([10; 20; 30; 40; 50; 60; 128; 128] ++ [128])
  = [10; 10; 10; 20; 20; 20; 30; 30; 30; 40; 40; 40; 50; 50; 50; 60; 60; 60] /\
  Colour.yuvToRgb 64
    {| Colour.tf_w := 2; Colour.tf_h := 3;
       Colour.lores_w := 2; Colour.lores_h := 3; Colour.lores_stride := 2 |}
    ([10; 20; 30; 40; 50; 60; 128; 128] ++ [255])
  = [10; 10; 10; 20; 20; 20; 30; 30; 30; 40; 40; 40; 228; 0; 50; 238; 0; 60].
Proof. repeat split; vm_compute; reflexivity. Qed.

(** Two frames due together: the first launches, the second finds the
    task still running and skips the launch. *)
Example overlapping_frames_skip :
  tasks (Sample.after true true (Sample.stage_2 1 true) Sample.overlapping_frames) = [Invoking] /\
  launches (trace (Sample.after true true (Sample.stage_2 1 true) Sample.overlapping_frames))
  = [0].
Proof. vm_compute. split; reflexivity. Qed.

(** C1 on the two overlapping frames. *)
Lemma at_most_one_inference_witness :
  (length (running (Sample.after true true (Sample.stage_2 1 true) Sample.overlapping_frames))
   <= 1)%nat.
Proof.
  refine (proj1 (at_most_one_inference
                   (backend := Sample.engine kTfLiteUInt8 12 true) (hooks := Sample.counting)
                   true 64 (Sample.stage_2 1 true) 0 2 Sample.overlapping_frames _
                   eq_refl _)).
  vm_compute. reflexivity.
Defined.

(** Counterexample to C2 as stated: with the low resolution path disabled
    the rate is not 0, frame 5 is a multiple of 5 and no task was ever
    launched, yet [Process] launches nothing. *)
Lemma lores_disabled_no_launch :
  ~ (tasks (Process (hooks := Sample.counting) true 64 0 (Sample.frame 5)
              (initial (Sample.stage_2 5 false) 0 2)).1.1
     = tasks (initial (Meta := list Z) (Sample.stage_2 5 false) 0 2) ++ [FillInput]
     <->
     refresh_rate (config_ (Sample.stage_2 5 false)) <> 0 /\
     (refresh_rate (config_ (Sample.stage_2 5 false)) | sequence (Sample.frame 5)) /\
     (future_ (Sample.stage_2 5 false) = None \/
      exists k, future_ (Sample.stage_2 5 false) = Some k /\
                task_ready (initial (Meta := list Z) (Sample.stage_2 5 false) 0 2) k = true)).
Proof.
  intros [_ H].
  assert (E : tasks (Process (hooks := Sample.counting) true 64 0 (Sample.frame 5)
                       (initial (Sample.stage_2 5 false) 0 2)).1.1 = [FillInput]).
  { apply H. cbn. repeat split; [discriminate | exists 1; reflexivity | now left]. }
  discriminate E.
Qed.

(** C2 on frame 5 of a stage that refreshes every fifth frame, and on a stage
    whose refresh rate is 0. *)
Lemma Process_launches_iff_witness :
  tasks (Process (hooks := Sample.counting) true 64 0 (Sample.frame 5)
           (initial (Sample.stage_2 5 true) 0 2)).1.1
  = tasks (initial (Meta := list Z) (Sample.stage_2 5 true) 0 2) ++ [FillInput] /\
  tasks (Sample.after true true (Sample.stage_2 0 true) (Sample.call 0 0 7)) = [].
Proof.
  destruct (Process_launches_iff
              (backend := Sample.engine kTfLiteUInt8 12 true) (hooks := Sample.counting)
              true 64 (initial (Sample.stage_2 5 true) 0 2) 0 (Sample.frame 5) 1%nat
              (Sample.stage_2 0 true) 0 2 (Sample.call 0 0 7)
              (Sample.after true true (Sample.stage_2 0 true) (Sample.call 0 0 7)))
    as (Hiff & _ & Hzero).
  - reflexivity.
  - intros _. unfold CInt.INT_MAX. cbn. lia.
  - split.
    + apply Hiff. cbn. repeat split; [discriminate | exists 1; reflexivity | now left].
    + apply Hzero; [reflexivity | vm_compute; reflexivity].
Defined.

(** Counterexample to C3 as stated: no stage, refresh rate and
    interleaving has a launch on a frame that did not pass the rate gate of
    line 103, so the previous task being ready never launches by itself.
    Hence no launch is off the multiples of the rate, whether the sequence
    number is signed or the rate not negative; and with an unsigned
    sequence number and a negative rate, none is off the multiples of the
    rate as converted, [2 ^ 32 + rate]. *)
Lemma no_launch_off_the_rate_boundary :
  ~ (exists (Results Meta Model : Type) (backend : Backend Model) (hooks : Hooks Results Meta)
       (u : bool) (bits : Z) (s : TfStage) (res : Results) (n : nat)
       (evs : list (@event Meta)) (w : world Results Meta) (seq : Z),
       exec u bits (initial s res n) evs = Some w /\
       In seq (launches (trace w)) /\
       (refresh_rate (config_ s) = 0 \/
        sequence_rem u seq (refresh_rate (config_ s)) <> 0)) /\
  ~ (exists (Results Meta Model : Type) (backend : Backend Model) (hooks : Hooks Results Meta)
       (u : bool) (bits : Z) (s : TfStage) (res : Results) (n : nat)
       (evs : list (@event Meta)) (w : world Results Meta) (seq : Z),
       (u = true -> 0 <= refresh_rate (config_ s) <= CInt.INT_MAX) /\
       exec u bits (initial s res n) evs = Some w /\
       In seq (launches (trace w)) /\
       ~ (refresh_rate (config_ s) | seq)) /\
  ~ (exists (Results Meta Model : Type) (backend : Backend Model) (hooks : Hooks Results Meta)
       (bits : Z) (s : TfStage) (res : Results) (n : nat)
       (evs : list (@event Meta)) (w : world Results Meta) (seq : Z),
       CInt.INT_MIN <= refresh_rate (config_ s) < 0 /\
       exec true bits (initial s res n) evs = Some w /\
       In seq (launches (trace w)) /\
       ~ (2 ^ 32 + refresh_rate (config_ s) | seq)).
Proof.
  refine (conj _ (conj _ _)).
  - intros (Results & Meta & Model & backend & hooks & u & bits & s & res & n & evs & w & seq
            & Hx & Hin & Hbad).
    pose proof (launches_due u bits s res n evs w Hx) as Hall.
    rewrite Forall_forall in Hall. apply list_elem_of_In in Hin.
    destruct (Hall seq Hin) as (H0 & H1 & _).
    destruct Hbad; contradiction.
  - intros (Results & Meta & Model & backend & hooks & u & bits & s & res & n & evs & w & seq
            & Hu & Hx & Hin & Hnd).
    pose proof (launches_due u bits s res n evs w Hx) as Hall.
    rewrite Forall_forall in Hall. apply list_elem_of_In in Hin.
    destruct (Hall seq Hin) as (H0 & H1 & _).
    apply Hnd. now apply (sequence_rem_divide u).
  - intros (Results & Meta & Model & backend & hooks & bits & s & res & n & evs & w & seq
            & Hneg & Hx & Hin & Hnd).
    pose proof (launches_due true bits s res n evs w Hx) as Hall.
    rewrite Forall_forall in Hall. apply list_elem_of_In in Hin.
    destruct (Hall seq Hin) as (H0 & H1 & _).
    apply Hnd. now apply (sequence_rem_negative true).
Qed.

(** A negative rate and an unsigned sequence number: frame [2 ^ 32 - 5]
    passes the gate of a stage whose refresh rate is -5, and is no multiple
    of 5. *)
Example negative_rate_unsigned :
  launches (trace (Sample.after true true (Sample.stage_2 (-5) true)
                     (Sample.call 0 4294967291 8))) = [4294967291] /\
  4294967291 = 2 ^ 32 + -5 /\ ~ (-5 | 4294967291) /\
  launches (trace (Sample.after false true (Sample.stage_2 (-5) true)
                     (Sample.call 0 (-5) 8))) = [-5].
Proof.
  refine (conj _ (conj eq_refl (conj _ _))).
  - vm_compute. reflexivity.
  - intros [q Hq]. lia.
  - vm_compute. reflexivity.
Qed.

(** C3 on the launch of frame 5 at a rate of 5, and on the launch of frame
    [2 ^ 32 - 5] at a rate of -5 with an unsigned sequence number. *)
Lemma launches_only_when_due_witness :
  (refresh_rate (config_ (Sample.stage_2 5 true)) | 5) /\
  (2 ^ 32 + refresh_rate (config_ (Sample.stage_2 (-5) true)) | 4294967291).
Proof.
  split.
  - refine (proj1 (proj2 (proj2
              (launches_only_when_due
                 (backend := Sample.engine kTfLiteUInt8 12 true) (hooks := Sample.counting)
                 true 64 (Sample.stage_2 5 true) 0 2 (Sample.call 0 5 4)
                 (Sample.after true true (Sample.stage_2 5 true) (Sample.call 0 5 4)) 5 _ _))) _).
    + vm_compute. reflexivity.
    + vm_compute. now left.
    + intros _. unfold CInt.INT_MAX. cbn. lia.
  - refine (proj1 (proj2 (proj2 (proj2
              (launches_only_when_due
                 (backend := Sample.engine kTfLiteUInt8 12 true) (hooks := Sample.counting)
                 true 64 (Sample.stage_2 (-5) true) 0 2 (Sample.call 0 4294967291 4)
                 (Sample.after true true (Sample.stage_2 (-5) true)
                    (Sample.call 0 4294967291 4)) 4294967291 _ _)))) eq_refl _).
    + vm_compute. reflexivity.
    + vm_compute. now left.
    + unfold CInt.INT_MIN. cbn. lia.
Defined.

(** C4 on a 2 x 2 model and a 1 x 1 low resolution stream. *)
Lemma Configure_disables_small_lores_witness :
  lores_stream_ (Configure_streams (Sample.app 1 1) (Sample.stage_2 5 true)).1 = None /\
  tasks (Sample.after true true
           (Configure_streams (Sample.app 1 1) (Sample.stage_2 5 true)).1
           (Sample.call 0 5 1)) = [].
Proof.
  destruct (Configure_disables_small_lores
              (backend := Sample.engine kTfLiteUInt8 12 true) (hooks := Sample.counting)
              true 64 (fun _ => Ok tt) (Sample.app 1 1) (Sample.stage_2 5 true)
              1%nat 1 1 1 0 2 (Sample.call 0 5 1)
              (Sample.after true true
                 (Configure_streams (Sample.app 1 1) (Sample.stage_2 5 true)).1
                 (Sample.call 0 5 1)))
    as (_ & Hoff & _ & Hrun).
  - reflexivity.
  - reflexivity.
  - left. cbn. lia.
  - split; [exact Hoff|]. apply Hrun. vm_compute. reflexivity.
Defined.

(** C6 on an engine whose forward pass fails. *)
Lemma failed_inference_leaves_results_witness :
  ~ In (ObsInterpret 0)
       (trace (Sample.after true false (Sample.stage_2 5 true)
                 (Sample.call 0 5 4 ++ [Task 0; Task 0]))) /\
  ~ In (ObsLock (TaskThread 0))
       (trace (Sample.after true false (Sample.stage_2 5 true)
                 (Sample.call 0 5 4 ++ [Task 0; Task 0]))).
Proof.
  refine (proj1 (proj2
            (failed_inference_leaves_results
               (backend := Sample.engine kTfLiteUInt8 12 false) (hooks := Sample.counting)
               true 64
               (Sample.after true false (Sample.stage_2 5 true) (Sample.call 0 5 4 ++ [Task 0]))
               0
               (default Sample.interpreter_2
                  (interpreter_
                     (stage (Sample.after true false (Sample.stage_2 5 true)
                               (Sample.call 0 5 4 ++ [Task 0])))))
               (Sample.stage_2 5 true) 0 2 (Sample.call 0 5 4 ++ [Task 0; Task 0])
               (Sample.after true false (Sample.stage_2 5 true)
                  (Sample.call 0 5 4 ++ [Task 0; Task 0]))
               _ _ _)) _ _);
    vm_compute; reflexivity.
Defined.

(** Counterexample to C7 as stated: with the low resolution path
    disabled, a call of [Process] returns the frame as it came, without
    taking [output_mutex_] and without calling [applyResults], which would
    have attached the count. *)
Lemma lores_disabled_no_results :
  trace (Process (hooks := Sample.counting) true 64 0 (Sample.frame 5)
           (initial (Sample.stage_2 5 false) 0 2)).1.1
  = [ObsReturn 0 (Sample.frame 5) false] /\
  applies 0 (trace (Process (hooks := Sample.counting) true 64 0 (Sample.frame 5)
                      (initial (Sample.stage_2 5 false) 0 2)).1.1) = 0%nat /\
  post_process_metadata
    (Process (hooks := Sample.counting) true 64 0 (Sample.frame 5)
       (initial (Sample.stage_2 5 false) 0 2)).1.2 = [] /\
  post_process_metadata
    (@applyResults _ _ Sample.counting (Sample.stage_2 5 false) 0 (Sample.frame 5)).2 = [0].
Proof. repeat split; reflexivity. Qed.

(** C7 on frame 6, which launches nothing. *)
Lemma Process_applies_results_witness :
  post_process_metadata
    (Process (hooks := Sample.counting) true 64 0 (Sample.frame 6)
       (initial (Sample.stage_2 5 true) 0 2)).1.2 = [0] /\
  applies 0 (trace (Process (hooks := Sample.counting) true 64 0 (Sample.frame 6)
                      (initial (Sample.stage_2 5 true) 0 2)).1.1) = 1%nat.
Proof.
  destruct (Process_applies_results
              (backend := Sample.engine kTfLiteUInt8 12 true) (hooks := Sample.counting)
              true 64 (initial (Sample.stage_2 5 true) 0 2) 0 (Sample.frame 6) 1%nat
              (Sample.stage_2 5 true) 0 2 [] (initial (Sample.stage_2 5 true) 0 2) eq_refl)
    as (Hcall & _).
  destruct (Hcall _ eq_refl) as (Hr & _ & Ha & _).
  split; [rewrite Hr; reflexivity | rewrite Ha; reflexivity].
Defined.



(** ** Normalisation *)

(** X11.  With the default offset and scale of 127.5, the element a
    [float32] model is given for a byte lies between -1 and 1: 0 becomes
    -1, 255 becomes 1, and a larger byte a larger element. *)
Theorem default_normalisation_range (c : TfConfig) (b : Z) :
  normalisation_offset c = default_normalisation ->
  normalisation_scale c = default_normalisation ->
  Colour.is_byte b ->
  SFleb (float_of_int (-1)) (normalise c b) = true /\
  SFleb (normalise c b) (float_of_int 1) = true /\
  (b < 255 -> SFltb (normalise c b) (normalise c (b + 1)) = true) /\
  normalise c 0 = float_of_int (-1) /\ normalise c 255 = float_of_int 1.
Proof.
  intros Ho Hs Hb. unfold normalise. rewrite Ho, Hs.
  set (f := fun b => float_div (float_sub (float_of_int b) default_normalisation)
                       default_normalisation).
  change (SFleb (float_of_int (-1)) (f b) = true /\
          SFleb (f b) (float_of_int 1) = true /\
          (b < 255 -> SFltb (f b) (f (b + 1)) = true) /\
          f 0 = float_of_int (-1) /\ f 255 = float_of_int 1).
  assert (E : forallb (fun n => let b := Z.of_nat n in
                         SFleb (float_of_int (-1)) (f b) && SFleb (f b) (float_of_int 1)
                         && ((255 <=? b) || SFltb (f b) (f (b + 1)))) (seq 0 256) = true)
    by (vm_compute; reflexivity).
  rewrite forallb_forall in E. specialize (E (Z.to_nat b)).
  unfold Colour.is_byte in Hb. rewrite Z2Nat.id in E by lia.
  cbv zeta in E. rewrite !andb_true_iff, orb_true_iff, Z.leb_le in E.
  destruct E as ((E1 & E2) & E3); [apply in_seq; lia|].
  refine (conj E1 (conj E2 (conj _ (conj _ _)))).
  - intros Hlt. destruct E3 as [E3|E3]; [lia | exact E3].
  - vm_compute. reflexivity.
  - vm_compute. reflexivity.
Qed.

(** ** The further properties on sample data *)

(** X1 on the 224 x 224 model and a 320 x 240 stream. *)
Lemma startup_establishes_witness :
  is_Some (interpreter_ Sample.stage_224_started) /\
  (is_Some (lores_stream_ Sample.stage_224_started) ->
   tf_w_ Sample.stage_224_started <= lores_w_ Sample.stage_224_started /\
   tf_h_ Sample.stage_224_started <= lores_h_ Sample.stage_224_started).
Proof.
  destruct (startup_establishes (backend := Sample.engine kTfLiteUInt8 150528 true)
              (translator := Sample.translator) 64 224 224 (fun _ => Ok tt) Sample.params
              (fun _ => Ok tt) (Sample.app 320 240)
              (Sample.started (TfStage_new 224 224))
              (Sample.started
                 (Read (backend := Sample.engine kTfLiteUInt8 150528 true)
                    (translator := Sample.translator) 64 (fun _ => Ok tt)
                    Sample.params (Sample.started (TfStage_new 224 224))).1)
              Sample.stage_224_started eq_refl eq_refl eq_refl)
    as (_ & _ & Hi & _ & _ & Hl).
  split; [exact Hi | exact Hl].
Defined.

(** X3 on the 224 x 224 [uint8] model. *)
Lemma initialise_Ok_iff_witness :
  (initialise (backend := Sample.engine kTfLiteUInt8 150528 true) 64 Sample.stage_224).1
  = Ok (set_interpreter_
          (Some {| num_threads := Some 2; input_type := kTfLiteUInt8; input_bytes := 150528;
                   input_data := replicate (Z.to_nat 150528) (U8 0); output_data := [] |})
          Sample.stage_224).
Proof.
  apply (initialise_Ok_iff (backend := Sample.engine kTfLiteUInt8 150528 true)
           (translator := Sample.translator) 64 Sample.stage_224).
  - unfold input_size_fits, CInt.INT_MAX, sizeof_float. simpl. lia.
  - exists tt. eexists _, _, 1. repeat split; reflexivity.
Defined.

(** X10 on a snapshot of twelve bytes and a [uint8] tensor of twelve. *)
Lemma fill_input_copies_witness :
  fill_input (set_tensor_input_ (replicate 12 7) (Sample.stage_2 5 true))
  = set_interpreter_
      (Some (set_input_data (replicate 12 (U8 7)) Sample.interpreter_2))
      (set_tensor_input_ (replicate 12 7) (Sample.stage_2 5 true)).
Proof.
  refine (proj1 (fill_input_copies
                   (set_tensor_input_ (replicate 12 7) (Sample.stage_2 5 true))
                   Sample.interpreter_2 eq_refl _ _) eq_refl).
  - simpl. lia.
  - unfold CInt.INT_MAX. simpl. lia.
Defined.

(** X11 on the defaults and the byte 200. *)
Lemma default_normalisation_range_witness :
  SFleb (float_of_int (-1))
    (normalise (read_config (translator := Sample.translator) []) 200) = true /\
  SFleb (normalise (read_config (translator := Sample.translator) []) 200) (float_of_int 1)
  = true.
Proof.
  destruct (default_normalisation_range (read_config (translator := Sample.translator) [])
              200 eq_refl eq_refl) as (H1 & H2 & _).
  - unfold Colour.is_byte. lia.
  - split; [exact H1 | exact H2].
Defined.

(** X12 on frame 5 of the 4 x 4 stream. *)
Lemma model_is_given_the_window_witness :
  tensor_input_
    (stage (Process (hooks := Sample.counting) true 64 0 (Sample.frame 5)
              (initial (Sample.stage_2 5 true) 0 2)).1.1)
  = Layout.window Sample.geometry_2 (replicate 24 128).
Proof.
  refine (proj1 (model_is_given_the_window
                   (backend := Sample.engine kTfLiteUInt8 12 true) (hooks := Sample.counting)
                   true 64 (initial (Sample.stage_2 5 true) 0 2) 0 (Sample.frame 5) 1%nat
                   Sample.interpreter_2 eq_refl _ eq_refl eq_refl _ _ _)).
  - vm_compute. reflexivity.
  - lia.
  - apply geometry_2_ok.
  - apply geometry_2_ok.
Defined.

(** X13 on frame 5, delivered to a stage that is at rest. *)
Lemma Process_exec_witness :
  exists n, (n <= 8)%nat /\
    exec (backend := Sample.engine kTfLiteUInt8 12 true) (hooks := Sample.counting) true 64
      (initial (Sample.stage_2 5 true) 0 2)
      (Call 0 (Sample.frame 5) :: replicate n (Frame 0))
    = Some (Process (hooks := Sample.counting) true 64 0 (Sample.frame 5)
              (initial (Sample.stage_2 5 true) 0 2)).1.1.
Proof.
  apply (Process_exec (backend := Sample.engine kTfLiteUInt8 12 true) (hooks := Sample.counting)
           true 64 (initial (Sample.stage_2 5 true) 0 2) 0 (Sample.frame 5)); reflexivity.
Defined.

(** X14 on a thread that has taken [future_mutex_]. *)
Lemma mutexes_held_inside_sections_witness :
  future_mutex_ (Sample.after true true (Sample.stage_2 5 true) (Sample.call 0 5 2))
  = Some (FrameThread 0).
Proof.
  refine (proj2 (proj1 (proj1
            (mutexes_held_inside_sections
               (backend := Sample.engine kTfLiteUInt8 12 true) (hooks := Sample.counting)
               true 64 (Sample.stage_2 5 true) 0 2 (Sample.call 0 5 2)
               (Sample.after true true (Sample.stage_2 5 true) (Sample.call 0 5 2)) _)
            0%nat (AtGate (Sample.frame 5)) _)) _).
  - vm_compute. reflexivity.
  - vm_compute. reflexivity.
  - reflexivity.
Defined.

(** X15 on a thread that has taken [future_mutex_]. *)
Lemma no_deadlock_witness :
  exists e w',
    Progress.internal e /\
    step (backend := Sample.engine kTfLiteUInt8 12 true) (hooks := Sample.counting) true 64
      (Sample.after true true (Sample.stage_2 5 true) (Sample.call 0 5 2)) e = Some w'.
Proof.
  apply (no_deadlock (backend := Sample.engine kTfLiteUInt8 12 true) (hooks := Sample.counting)
           true 64 (Sample.stage_2 5 true) 0 2 (Sample.call 0 5 2)).
  - eexists. reflexivity.
  - vm_compute. reflexivity.
  - left. exists 0%nat, (AtGate (Sample.frame 5)). split; [vm_compute; reflexivity | discriminate].
Defined.

(** X16 on two frames that overlap an inference. *)
Lemma pending_work_completes_witness :
  exists evs' w',
    Forall Progress.internal evs' /\
    exec (backend := Sample.engine kTfLiteUInt8 12 true) (hooks := Sample.counting) true 64
      (Sample.after true true (Sample.stage_2 1 true) Sample.overlapping_frames) evs' = Some w' /\
    quiescent w' /\ running w' = [].
Proof.
  refine (proj1 (pending_work_completes
                   (backend := Sample.engine kTfLiteUInt8 12 true) (hooks := Sample.counting)
                   true 64 (Sample.stage_2 1 true) 0 2 Sample.overlapping_frames
                   (Sample.after true true (Sample.stage_2 1 true) Sample.overlapping_frames)
                   _ _)).
  - eexists. reflexivity.
  - vm_compute. reflexivity.
Defined.

(** X17 on a second frame that is due while the inference of the first is
    running. *)
Lemma snapshot_kept_while_running_witness :
  tensor_input_
    (stage (Sample.after true true (Sample.stage_2 1 true)
              (Sample.call 0 0 8 ++ Task 0 :: Sample.call 1 1 7)))
  = tensor_input_ (stage (Sample.after true true (Sample.stage_2 1 true) (Sample.call 0 0 8))).
Proof.
  refine (proj1 (snapshot_kept_while_running
                   (backend := Sample.engine kTfLiteUInt8 12 true) (hooks := Sample.counting)
                   true 64 (Sample.stage_2 1 true) 0 2 (Sample.call 0 0 8)
                   (Task 0 :: Sample.call 1 1 7)
                   (Sample.after true true (Sample.stage_2 1 true) (Sample.call 0 0 8))
                   (Sample.after true true (Sample.stage_2 1 true)
                      (Sample.call 0 0 8 ++ Task 0 :: Sample.call 1 1 7))
                   0%nat FillInput Invoking eq_refl _ _ _ _ eq_refl)).
  - vm_compute. reflexivity.
  - vm_compute. reflexivity.
  - vm_compute. reflexivity.
  - vm_compute. reflexivity.
Defined.

(** X18 on an inference that ran to its end. *)
Lemma successful_inference_interprets_once_witness :
  Progress.interprets 0
    (trace (Sample.after true true (Sample.stage_2 5 true)
              (Sample.call 0 5 8 ++ [Task 0; Task 0; Task 0; Task 0; Task 0; Task 0])))
  = 1%nat.
Proof.
  refine (proj2 (successful_inference_interprets_once
                   (backend := Sample.engine kTfLiteUInt8 12 true) (hooks := Sample.counting)
                   true 64 (Sample.stage_2 5 true) 0 2
                   (Sample.call 0 5 8 ++ [Task 0; Task 0; Task 0; Task 0; Task 0; Task 0])
                   (Sample.after true true (Sample.stage_2 5 true)
                      (Sample.call 0 5 8 ++ [Task 0; Task 0; Task 0; Task 0; Task 0; Task 0]))
                   _) 0%nat _).
  - vm_compute. reflexivity.
  - vm_compute. reflexivity.
Defined.

(** X19 on that inference, of a stage that is not verbose. *)
Lemma inference_time_printed_iff_verbose_witness :
  Progress.prints
    (trace (Sample.after true true (Sample.stage_2 5 true)
              (Sample.call 0 5 8 ++ [Task 0; Task 0; Task 0; Task 0; Task 0; Task 0])))
  = 0%nat.
Proof.
  refine (proj1 (inference_time_printed_iff_verbose
                   (backend := Sample.engine kTfLiteUInt8 12 true) (hooks := Sample.counting)
                   true 64 (Sample.stage_2 5 true) 0 2
                   (Sample.call 0 5 8 ++ [Task 0; Task 0; Task 0; Task 0; Task 0; Task 0])
                   (Sample.after true true (Sample.stage_2 5 true)
                      (Sample.call 0 5 8 ++ [Task 0; Task 0; Task 0; Task 0; Task 0; Task 0]))
                   _)).
  vm_compute. reflexivity.
Defined.

(** X20 on the step of a task that calls [interpretOutputs]. *)
Lemma results_written_under_lock_witness :
  results (Sample.after true true (Sample.stage_2 5 true)
             (Sample.call 0 5 8 ++ [Task 0; Task 0; Task 0; Task 0]))
  = results (Sample.after true true (Sample.stage_2 5 true)
               (Sample.call 0 5 8 ++ [Task 0; Task 0; Task 0])) \/
  (exists tid r,
     (Task 0 : @event (list Z)) = Frame tid /\
     frames (Sample.after true true (Sample.stage_2 5 true)
               (Sample.call 0 5 8 ++ [Task 0; Task 0; Task 0])) !! tid = Some (Applying r) /\
     output_mutex_ (Sample.after true true (Sample.stage_2 5 true)
                      (Sample.call 0 5 8 ++ [Task 0; Task 0; Task 0]))
     = Some (FrameThread tid) /\
     results (Sample.after true true (Sample.stage_2 5 true)
                (Sample.call 0 5 8 ++ [Task 0; Task 0; Task 0; Task 0]))
     = (@applyResults _ _ Sample.counting
          (stage (Sample.after true true (Sample.stage_2 5 true)
                    (Sample.call 0 5 8 ++ [Task 0; Task 0; Task 0])))
          (results (Sample.after true true (Sample.stage_2 5 true)
                      (Sample.call 0 5 8 ++ [Task 0; Task 0; Task 0]))) r).1) \/
  (exists k,
     (Task 0 : @event (list Z)) = Task k /\
     tasks (Sample.after true true (Sample.stage_2 5 true)
              (Sample.call 0 5 8 ++ [Task 0; Task 0; Task 0])) !! k = Some Interpreting /\
     output_mutex_ (Sample.after true true (Sample.stage_2 5 true)
                      (Sample.call 0 5 8 ++ [Task 0; Task 0; Task 0]))
     = Some (TaskThread k) /\
     results (Sample.after true true (Sample.stage_2 5 true)
                (Sample.call 0 5 8 ++ [Task 0; Task 0; Task 0; Task 0]))
     = @interpretOutputs _ _ Sample.counting
         (stage (Sample.after true true (Sample.stage_2 5 true)
                   (Sample.call 0 5 8 ++ [Task 0; Task 0; Task 0])))
         (results (Sample.after true true (Sample.stage_2 5 true)
                     (Sample.call 0 5 8 ++ [Task 0; Task 0; Task 0])))).
Proof.
  apply (results_written_under_lock
           (backend := Sample.engine kTfLiteUInt8 12 true) (hooks := Sample.counting)
           true 64 (Sample.stage_2 5 true) 0 2
           (Sample.call 0 5 8 ++ [Task 0; Task 0; Task 0])).
  - vm_compute. reflexivity.
  - vm_compute. reflexivity.
Defined.

(** X21 on a second frame that is due while the inference of the first is
    running. *)
Lemma copy_stays_inside_tensor_witness :
  tensor_input_
    (stage (Sample.after true true (Sample.stage_2 1 true)
              (Sample.call 0 0 8 ++ Task 0 :: Sample.call 1 1 7))) = [] \/
  Z.of_nat (length (tensor_input_
                      (stage (Sample.after true true (Sample.stage_2 1 true)
                                (Sample.call 0 0 8 ++ Task 0 :: Sample.call 1 1 7)))))
  = tf_h_ (Sample.stage_2 1 true) * tf_w_ (Sample.stage_2 1 true) * 3.
Proof.
  refine (proj2 (proj2 (copy_stays_inside_tensor
                          (backend := Sample.engine kTfLiteUInt8 12 true)
                          (hooks := Sample.counting)
                          true 64 (Sample.stage_2 1 true) 0 2
                          (Sample.call 0 0 8 ++ Task 0 :: Sample.call 1 1 7)
                          (Sample.after true true (Sample.stage_2 1 true)
                             (Sample.call 0 0 8 ++ Task 0 :: Sample.call 1 1 7))
                          Sample.interpreter_2 _ _ _ eq_refl eq_refl eq_refl _))).
  - intros i. reflexivity.
  - lia.
  - intros _. apply geometry_2_ok.
  - vm_compute. reflexivity.
Defined.
